(** * TSRA / P-TSRA simulation core: a shallow embedding and its properties

    The development follows the TypeScript sources of the simulator:
    - [random.ts]     (seeded Mulberry32 generator)          -> [JsInt], [SeededRandom], [Mulberry32]
    - [tsra.ts]       (Baseline policy, state machine)       -> [TSRA]
    - [optimizer.ts]  (genetic optimizer)                     -> [GeneticOptimizer]
    - [p-tsra.ts]     (Predictive policy)                     -> [PTSRA]
    - [simulator.ts]  (driver, global metrics)                -> [Simulator]

    Number model.  A JavaScript number that holds a physical quantity
    (bits, joules, hertz, watts) is a real number: [R] with the operations of
    the Standard Library.  Integers handled by the generator are [Z]; the
    conversions [ToInt32]/[ToUint32] of the bit operators and the rounding of
    an integer-valued double to 53 significant bits are written out.

    Environment.  The draws a policy makes for a sensor in a slot
    ([generateArrival], [generateHarvest], [generateChannelGain]) and the
    unseeded [Math.random()] noise of the predictor are inputs of the slot
    functions ([Events], [Simulator.Environment]); the generator of the
    optimizer is embedded and threaded.  A thrown exception is [None].

    The generators themselves ([RandomOps], [TSRAEvents]), the random
    sensor ([RandomSensor]) and the restarts of the optimizer
    ([OptimizerRestarts]) follow the policies; [TSRAEvents.executeSlotSeeded]
    is the Baseline slot with its events drawn from the seeded generator.

    Infinities and NaN.  The Box-Muller transform of [gaussian] takes
    [Math.log(0)] when its first draw is 0; its result is then an infinity
    or NaN.  [JsNum.t] holds such a result, and every caller of [gaussian]
    applies its [Math.max] and [Math.min] to it as JavaScript does. *)

From Stdlib Require Import ZArith NArith List Bool String Lia.
From Stdlib Require Import Reals Lra Permutation.
Import ListNotations.

Set Implicit Arguments.

(* ================================================================== *)
(** ** 32-bit integer operators of JavaScript, on [Z] *)
(* ================================================================== *)

Module JsInt.
Local Open Scope Z_scope.

Definition two32 : Z := 4294967296.
Definition two31 : Z := 2147483648.
Definition two53 : Z := 9007199254740992.

(** [x >>> 0] *)
Definition ToUint32 (x : Z) : Z := x mod two32.

(** [x | 0] *)
Definition ToInt32 (x : Z) : Z :=
  let u := x mod two32 in if u <? two31 then u else u - two32.

(** [a ^ b], [a | b] : operands through [ToInt32], result an int32. *)
Definition xor (a b : Z) : Z := Z.lxor (ToInt32 a) (ToInt32 b).
Definition or (a b : Z) : Z := Z.lor (ToInt32 a) (ToInt32 b).

(** [a >>> n] : left operand through [ToUint32], shift count masked to 5 bits. *)
Definition ushr (a n : Z) : Z := Z.shiftr (ToUint32 a) (n mod 32).

(** [Math.imul(a, b)] *)
Definition imul (a b : Z) : Z := ToInt32 (ToInt32 a * ToInt32 b).

(** The double nearest to the integer [z] (round to nearest, ties to even,
    53-bit significand).  Every integer of magnitude below 2^53 is a double. *)
Definition fl53 (z : Z) : Z :=
  let a := Z.abs z in
  if a <? two53 then z
  else
    let e := Z.log2 a - 52 in
    let q := a / 2 ^ e in
    let r := a mod 2 ^ e in
    let half := 2 ^ (e - 1) in
    let q' := if r <? half then q
              else if half <? r then q + 1
              else if Z.even q then q else q + 1 in
    Z.sgn z * (q' * 2 ^ e).

(** [a + b] on two integer-valued doubles. *)
Definition add (a b : Z) : Z := fl53 (a + b).

End JsInt.

(* ================================================================== *)
(** ** JavaScript numbers with the infinities and NaN *)
(* ================================================================== *)

Module JsNum.
Local Open Scope R_scope.

Inductive t : Type :=
| Fin (x : R)
| PosInf
| NegInf
| NaN.

(** [Math.sqrt(x)] : NaN below 0. *)
Definition sqrt (x : R) : t :=
  if Rlt_dec x 0 then NaN else Fin (R_sqrt.sqrt x).

(** [a * b] : an infinity times 0 is NaN. *)
Definition mul (a b : t) : t :=
  match a, b with
  | NaN, _ | _, NaN => NaN
  | Fin x, Fin y => Fin (x * y)
  | PosInf, Fin x | Fin x, PosInf =>
      if Rlt_dec 0 x then PosInf else if Rlt_dec x 0 then NegInf else NaN
  | NegInf, Fin x | Fin x, NegInf =>
      if Rlt_dec 0 x then NegInf else if Rlt_dec x 0 then PosInf else NaN
  | PosInf, PosInf | NegInf, NegInf => PosInf
  | PosInf, NegInf | NegInf, PosInf => NegInf
  end.

(** [a + b] : the two infinities add up to NaN. *)
Definition add (a b : t) : t :=
  match a, b with
  | NaN, _ | _, NaN => NaN
  | Fin x, Fin y => Fin (x + y)
  | PosInf, NegInf | NegInf, PosInf => NaN
  | PosInf, _ | _, PosInf => PosInf
  | NegInf, _ | _, NegInf => NegInf
  end.

(** [Math.max(a, x)] and [Math.min(a, x)] for a finite [a] : NaN stays. *)
Definition max (a : R) (x : t) : t :=
  match x with
  | Fin y => Fin (Rmax a y)
  | PosInf => PosInf
  | NegInf => Fin a
  | NaN => NaN
  end.

Definition min (a : R) (x : t) : t :=
  match x with
  | Fin y => Fin (Rmin a y)
  | PosInf => Fin a
  | NegInf => NegInf
  | NaN => NaN
  end.

End JsNum.

(* ================================================================== *)
(** ** random.ts : class SeededRandom *)
(* ================================================================== *)

Module SeededRandom.
Import JsInt.

(** The only field of the object is [state : number]; it always holds an
    integer, so an instance is a [Z]. *)
Definition t : Type := Z.

(** [constructor(seed) { this.state = seed >>> 0 }] *)
Definition make (seed : Z) : t := ToUint32 seed.

(** The integer [(t ^ (t >>> 14)) >>> 0] computed by [random()], together
    with the updated state. *)
Definition random_bits (st : t) : Z * t :=
  let st' := add st 0x6d2b79f5 in
  let t0 := st' in
  let t1 := imul (xor t0 (ushr t0 15)) (or t0 1) in
  let t2 := xor t1 (add t1 (imul (xor t1 (ushr t1 7)) (or t1 61))) in
  (ToUint32 (xor t2 (ushr t2 14)), st').

Local Open Scope R_scope.

(** [random()] *)
Definition random (st : t) : R * t :=
  let '(u, st') := random_bits st in (IZR u / 4294967296, st').

(** [uniform(min, max)] *)
Definition uniform (min max : R) (st : t) : R * t :=
  let '(r, st') := random st in (r * (max - min) + min, st').

(** [Math.sqrt(-2 * Math.log(u1)) * Math.cos(2 * Math.PI * u2)] for two
    draws of [random()].  [Math.log(0)] is minus infinity, so at [u1 = 0]
    the root is plus infinity and the product an infinity with the sign of
    the cosine.  The double cosine is never 0 there: where the real one is
    ([u2 = 1/4] and [u2 = 3/4]) the rounded argument lies just below the
    zero of the cosine, which leaves 6.1e-17 at 1/4 and -1.8e-16 at 3/4. *)
Definition boxMuller (u1 u2 : R) : JsNum.t :=
  let c := cos (2 * PI * u2) in
  if Req_dec_T u1 0 then
    if Rlt_dec 0 c then JsNum.PosInf
    else if Rlt_dec c 0 then JsNum.NegInf
    else if Rlt_dec u2 (1 / 2) then JsNum.PosInf else JsNum.NegInf
  else JsNum.Fin (sqrt (-2 * ln u1) * c).

(** [gaussian(mean, std)], Box-Muller; [std] may be the NaN of a
    [Math.sqrt]. *)
Definition gaussian (mean : R) (std : JsNum.t) (st : t) : JsNum.t * t :=
  let '(u1, st1) := random st in
  let '(u2, st2) := random st1 in
  let z0 := boxMuller u1 u2 in
  (JsNum.add (JsNum.mul z0 std) (JsNum.Fin mean), st2).

(** State after [n] calls of [random()], and the integer drawn by call
    number [n] (counting from 0). *)
Definition nth_state (n : N) (st : t) : t :=
  N.iter n (fun s => snd (random_bits s)) st.

Definition nth_draw (n : N) (st : t) : Z :=
  fst (random_bits (nth_state n st)).

End SeededRandom.

(* ================================================================== *)
(** ** Mulberry32 as the specification words it: a 32-bit state, every
       operation truncated modulo 2^32 *)
(* ================================================================== *)

Module Mulberry32.
Local Open Scope Z_scope.

Definition M : Z := 2 ^ 32.

Definition step (a : Z) : Z := (a + 0x6d2b79f5) mod M.

Definition mix (s : Z) : Z :=
  let t1 := (Z.lxor s (Z.shiftr s 15) * Z.lor s 1) mod M in
  let t2 := Z.lxor t1 ((t1 + (Z.lxor t1 (Z.shiftr t1 7) * Z.lor t1 61) mod M) mod M) in
  Z.lxor t2 (Z.shiftr t2 14).

Definition next (a : Z) : Z * Z := (mix (step a), step a).

Definition nth_state (n : N) (a : Z) : Z := N.iter n step a.

Definition nth_draw (n : N) (a : Z) : Z := fst (next (nth_state n a)).

End Mulberry32.


(* ================================================================== *)
(** ** [Map<string, V>] : insertion-ordered, one entry per key *)
(* ================================================================== *)

Module JsMap.
Section Ops.
Variable V : Type.

Definition t : Type := list (string * V).

Definition empty : t := [].

Fixpoint get (m : t) (k : string) : option V :=
  match m with
  | [] => None
  | (k', v) :: m' => if String.eqb k k' then Some v else get m' k
  end.

Fixpoint set (m : t) (k : string) (v : V) : t :=
  match m with
  | [] => [(k, v)]
  | (k', v') :: m' =>
      if String.eqb k k' then (k', v) :: m' else (k', v') :: set m' k v
  end.

End Ops.
Arguments empty {V}.
End JsMap.

(* ================================================================== *)
(** ** types/experiment.ts (the fields read by the decision engine) *)
(* ================================================================== *)

Local Open Scope R_scope.

Inductive OffloadMode : Type := binary | fractional.

Record SensorConfig : Type := {
  id : string;
  J_mean_bits_per_slot : R;
  initial_queue_bits : R;
  battery_J : R;
  harvest_mean_J_per_slot : R;
  f_max_Hz : R;
  delta_cycles_per_bit : R;
  p_max_W : R;
  channel_mean_gain : R;
  channel_variance : R;
  offload_mode : OffloadMode;
  priority_weight : R
}.

Record EdgeServerConfig : Type := {
  es_id : string;
  f_k_Hz : R;
  es_f_max_Hz : R;
  num_cores : nat
}.

Record OptimizerConfig : Type := {
  population : nat;
  generations : nat;
  mutation_prob : R;
  random_restarts : nat;
  max_evals : nat
}.

Record GlobalParams : Type := {
  gp_delta_cycles_per_bit : R;
  theta : R;
  noise_power_W : R;
  tau_s : R
}.

Record ExperimentConfig : Type := {
  seed : Z;
  slots : nat;
  slot_duration_s : R;
  bandwidth_Hz : R;
  cfg_V : R;
  prediction_horizon : nat;
  optimizer : OptimizerConfig;
  global_params : GlobalParams;
  sensors : list SensorConfig;
  edge_servers : list EdgeServerConfig
}.

Record SensorSlotResult : Type := {
  r_id : string;
  r_H_l : R;
  r_H_o : R;
  r_H_k : R;
  r_alpha : R;
  local_energy_J : R;
  tx_energy_J : R;
  p_tx_W : R;
  f_cpu_Hz : R;
  arrival_bits : R;
  harvest_J : R;
  r_battery_J : R
}.

Record ESAllocation : Type := {
  sensor_id : string;
  xi : R;
  processed_bits : R
}.

Definition EdgeSlotResult : Type := list ESAllocation.

(** [avg_latency_ms] is [None] where the source computes [0 / 0] (NaN). *)
Record GlobalMetrics : Type := {
  total_backlog_bits : R;
  total_energy_J : R;
  best_fitness : R;
  avg_latency_ms : option R
}.

Inductive Algorithm : Type := TSRA_tag | PTSRA_tag.

Record SlotResult : Type := {
  slot : nat;
  sensor_results : list SensorSlotResult;
  edge_results : EdgeSlotResult;
  global_metrics : GlobalMetrics;
  algorithm : Algorithm
}.

(** [elapsed_ms] is wall-clock time and is left out. *)
Record OptimizerLogEntry : Type := {
  log_slot : nat;
  log_generation : nat;
  log_best_fitness : R;
  log_avg_fitness : R;
  infeasible_count : nat
}.

Inductive Status : Type := running | completed | error | cancelled.

(** [run_id] is a random UUID and is left out. *)
Record SimulationState : Type := {
  status : Status;
  current_slot : nat;
  total_slots : nat;
  tsra_results : list SlotResult;
  ptsra_results : list SlotResult;
  optimizer_log : list OptimizerLogEntry
}.

(** The three draws a policy makes for one sensor in one slot
    ([generateArrival], [generateHarvest], [generateChannelGain], in this
    order).  They are inputs of the slot functions below. *)
Record Events : Type := {
  ev_arrival : R;
  ev_harvest : R;
  ev_channelGain : R
}.

(* ================================================================== *)
(** ** [Math.*] on reals *)
(* ================================================================== *)

Module JsMath.

Definition log2 (x : R) : R := ln x / ln 2.

(** [Math.pow(x, y)] for a fractional exponent [y > 0]: 0 at 0.  A negative
    base gives NaN in the source; the model returns 0 there. *)
Definition pow_frac (x y : R) : R :=
  if Rlt_dec 0 x then Rpower x y else 0.

Definition min3 (a b c : R) : R := Rmin a (Rmin b c).

End JsMath.

(* ================================================================== *)
(** ** tsra.ts : the Baseline policy and the state machine *)
(* ================================================================== *)

Record SensorState : Type := {
  H_l : R;
  H_o : R;
  H_k : R;
  B_u : R
}.

(** [kappa : 0 | 1] *)
Inductive Kappa : Type := K0 | K1.

Definition kappaR (k : Kappa) : R := match k with K0 => 0 | K1 => 1 end.

Record SlotDecision : Type := {
  kappa : Kappa;
  alpha : R;
  f_u : R;
  p_u : R;
  xi_u : R
}.

Record SlotOutput : Type := {
  decisions : list SlotDecision;
  newStates : list SensorState;
  sensorResults : list SensorSlotResult;
  edgeResult : EdgeSlotResult
}.

Module TSRA.
Import JsMath.

(** The fields of a [TSRAAlgorithm] object that the decisions read.  The
    private generator only feeds the event draws, which are inputs here. *)
Record t : Type := {
  V : R;
  tau : R;
  bandwidth : R;
  globalParams : GlobalParams
}.

Section Algorithm.
Variable this : t.

(** Sub-problem 1 *)
Definition taskSchedulingDecision (state : SensorState) : Kappa :=
  if Rge_dec (H_o state) (H_l state) then K0 else K1.

(** Sub-problem 2 *)
Definition localCPUFrequencyAllocation
    (sensor : SensorConfig) (state : SensorState) : R :=
  let delta := delta_cycles_per_bit sensor in
  let theta := theta (globalParams this) in
  let H_l := H_l state in
  let B_u := B_u state in
  let f_max := f_max_Hz sensor in
  let tau := tau this in
  let batteryThreshold := pow_frac (B_u / (theta * tau)) (1 / 3) in
  let queueConstraint := (H_l * delta) / tau in
  let lyapunovFreq := pow_frac (H_l / (3 * V this * theta * delta)) (1 / 2) in
  if Rle_dec batteryThreshold (Rmin f_max queueConstraint) then
    if Rle_dec lyapunovFreq batteryThreshold then
      Rmin f_max (Rmax 0 lyapunovFreq)
    else min3 f_max queueConstraint lyapunovFreq
  else Rmin f_max queueConstraint.

(** Sub-problem 3 *)
Definition transmissionPowerAllocation
    (sensor : SensorConfig) (state : SensorState) (channelGain : R) : R :=
  let H_o := H_o state in
  let H_k := H_k state in
  let sigma2 := noise_power_W (globalParams this) in
  let p_max := p_max_W sensor in
  let b := bandwidth this in
  if Rle_dec H_o H_k then 0
  else
    let numerator := (H_o - H_k) * b in
    let denominator := V this * ln 2 in
    let waterLevel := numerator / denominator - sigma2 / channelGain in
    let maxRateConstraint :=
      (Rpower 2 (H_o / (b * tau this)) - 1) * sigma2 / channelGain in
    Rmax 0 (min3 p_max waterLevel maxRateConstraint).

Definition calculateTransmissionRate (power channelGain : R) : R :=
  let snr := (power * channelGain) / noise_power_W (globalParams this) in
  bandwidth this * log2 (1 + snr) * tau this.

Definition calculateLocalEnergy (frequency : R) : R :=
  theta (globalParams this) * frequency ^ 3 * tau this.

Definition calculateTransmissionEnergy (power : R) : R :=
  power * tau this.

(** Sub-problem 4.  First loop: the weighted backlogs, in sensor order;
    [states[i]] missing is a TypeError ([None]). *)
Fixpoint weightedBacklogs
    (sensors : list SensorConfig) (states : list SensorState)
    : option (list (string * R)) :=
  match sensors with
  | [] => Some []
  | sensor :: sensors' =>
      match states with
      | [] => None
      | state :: states' =>
          match weightedBacklogs sensors' states' with
          | None => None
          | Some rest =>
              Some ((id sensor, H_k state * priority_weight sensor) :: rest)
          end
      end
  end.

(** [totalWeight += weight], from 0, in the same order. *)
Definition totalWeight (wb : list (string * R)) : R :=
  fold_left (fun acc iw => acc + snd iw) wb 0.

Definition allocationOf (total : R) (n : nat) (weight : R) : R :=
  let xi := if Rgt_dec total 0 then weight / total else 1 / INR n in
  Rmin 1 xi.

Definition edgeServerAllocation
    (sensors : list SensorConfig) (states : list SensorState)
    : option (JsMap.t R) :=
  match weightedBacklogs sensors states with
  | None => None
  | Some wb =>
      let total := totalWeight wb in
      Some (fold_left
              (fun allocations iw =>
                 JsMap.set allocations (fst iw)
                   (allocationOf total (List.length sensors) (snd iw)))
              wb JsMap.empty)
  end.

(** [edgeAllocations.get(id) || 0] *)
Definition allocationFor (edgeAllocations : JsMap.t R) (sid : string) : R :=
  match JsMap.get edgeAllocations sid with
  | Some x => x
  | None => 0
  end.

(** The queue and battery recurrence shared by the two policies, with the
    offload fraction [a] ([kappa] for the Baseline). *)
Definition updateState
    (state : SensorState) (a arrival harvest C_l C_o C_k localEnergy : R)
    : SensorState :=
  {| H_l := Rmax 0 (H_l state - C_l) + (1 - a) * arrival;
     H_o := Rmax 0 (H_o state - C_o) + a * arrival;
     H_k := Rmax 0 (H_k state - C_k) + C_o;
     B_u := Rmax 0 (B_u state - localEnergy) + harvest |}.

(** Body of the sensor loop of [executeSlot]. *)
Definition sensorSlot
    (sensor : SensorConfig) (state : SensorState) (ev : Events)
    (edgeAllocations : JsMap.t R) (edgeServer : EdgeServerConfig)
    : SlotDecision * SensorState * SensorSlotResult :=
  let arrival := ev_arrival ev in
  let harvest := ev_harvest ev in
  let channelGain := ev_channelGain ev in
  let kappa := taskSchedulingDecision state in
  let f_u := localCPUFrequencyAllocation sensor state in
  let p_u := transmissionPowerAllocation sensor state channelGain in
  let xi_u := allocationFor edgeAllocations (id sensor) in
  let delta := delta_cycles_per_bit sensor in
  let C_l := (f_u * tau this) / delta in
  let C_o := calculateTransmissionRate p_u channelGain in
  let C_k := (xi_u * f_k_Hz edgeServer * tau this) / delta in
  let localEnergy := calculateLocalEnergy f_u in
  let txEnergy := calculateTransmissionEnergy p_u in
  let new := updateState state (kappaR kappa) arrival harvest
                         C_l C_o C_k localEnergy in
  let alpha :=
    match offload_mode sensor with
    | fractional =>
        if Rgt_dec arrival 0 then (kappaR kappa * arrival) / arrival else 0
    | binary => kappaR kappa
    end in
  ({| kappa := kappa; alpha := alpha; f_u := f_u; p_u := p_u; xi_u := xi_u |},
   new,
   {| r_id := id sensor; r_H_l := H_l new; r_H_o := H_o new; r_H_k := H_k new;
      r_alpha := alpha; local_energy_J := localEnergy; tx_energy_J := txEnergy;
      p_tx_W := p_u; f_cpu_Hz := f_u; arrival_bits := arrival;
      harvest_J := harvest; r_battery_J := B_u new |}).

(** [sensors.map(s => ...)] building [edgeResult]. *)
Definition edgeResultOf
    (sensors : list SensorConfig) (edgeAllocations : JsMap.t R)
    (edgeServer : EdgeServerConfig) : EdgeSlotResult :=
  map (fun s =>
         {| sensor_id := id s;
            xi := allocationFor edgeAllocations (id s);
            processed_bits :=
              allocationFor edgeAllocations (id s) * f_k_Hz edgeServer
              * tau this / delta_cycles_per_bit s |})
      sensors.

Definition emptyOutput : SlotOutput :=
  {| decisions := []; newStates := []; sensorResults := []; edgeResult := [] |}.

Definition pushOutput
    (o : SlotDecision * SensorState * SensorSlotResult) (rest : SlotOutput)
    : SlotOutput :=
  let '(d, s, r) := o in
  {| decisions := d :: decisions rest;
     newStates := s :: newStates rest;
     sensorResults := r :: sensorResults rest;
     edgeResult := edgeResult rest |}.

(** The sensor loop, from index [i]; [env i] are the draws of sensor [i]. *)
Fixpoint slotLoop
    (sensors : list SensorConfig) (states : list SensorState)
    (env : nat -> Events) (i : nat)
    (edgeAllocations : JsMap.t R) (edgeServer : EdgeServerConfig)
    : option SlotOutput :=
  match sensors with
  | [] => Some emptyOutput
  | sensor :: sensors' =>
      match states with
      | [] => None
      | state :: states' =>
          let o := sensorSlot sensor state (env i) edgeAllocations edgeServer in
          match slotLoop sensors' states' env (S i) edgeAllocations edgeServer with
          | None => None
          | Some rest => Some (pushOutput o rest)
          end
      end
  end.

(** [executeSlot].  [edgeServer] is [config.edge_servers[0]]: when it is
    undefined, reading [edgeServer.f_k_Hz] throws as soon as there is a
    sensor; with no sensor it is never read. *)
Definition executeSlot
    (sensors : list SensorConfig) (states : list SensorState)
    (edgeServer : option EdgeServerConfig) (env : nat -> Events)
    : option SlotOutput :=
  match edgeServerAllocation sensors states with
  | None => None
  | Some edgeAllocations =>
      match sensors, edgeServer with
      | [], _ => Some emptyOutput
      | _ :: _, None => None
      | _ :: _, Some es =>
          match slotLoop sensors states env 0 edgeAllocations es with
          | None => None
          | Some out =>
              Some {| decisions := decisions out;
                      newStates := newStates out;
                      sensorResults := sensorResults out;
                      edgeResult := edgeResultOf sensors edgeAllocations es |}
          end
      end
  end.

End Algorithm.

(** [initializeSensorStates] *)
Definition initializeSensorStates (sensors : list SensorConfig)
    : list SensorState :=
  map (fun sensor =>
         {| H_l := initial_queue_bits sensor / 2;
            H_o := initial_queue_bits sensor / 2;
            H_k := 0;
            B_u := battery_J sensor |})
      sensors.

End TSRA.

(* ================================================================== *)
(** ** optimizer.ts : class GeneticOptimizer *)
(* ================================================================== *)

Module GeneticOptimizer.

(** A computation that draws from the optimizer's generator and may throw. *)
Definition M (A : Type) : Type := SeededRandom.t -> option (A * SeededRandom.t).

Definition ret {A} (a : A) : M A := fun st => Some (a, st).
Definition throw {A} : M A := fun _ => None.
Definition bind {A B} (c : M A) (k : A -> M B) : M B :=
  fun st => match c st with
            | None => None
            | Some (a, st') => k a st'
            end.
Definition draw {A} (f : SeededRandom.t -> A * SeededRandom.t) : M A :=
  fun st => Some (f st).

Notation "x <- c ;; k" := (bind c (fun x => k))
  (at level 61, c at next level, right associativity).

(** An evaluated individual.  Where the source builds an individual with
    the placeholder [fitness: Infinity] (a fresh or bred one), the model
    carries its gene list; [evaluatePopulation] overwrites every fitness
    before any is read. *)
Record Individual : Type := {
  genes : list R;
  fitness : R
}.

Record OptimizationResult : Type := {
  best : Individual;
  res_generations : nat;
  evaluations : nat;
  converged : bool
}.

(** Arguments of one [GenerationCallback] call. *)
Record GenerationRecord : Type := {
  gr_generation : nat;
  gr_bestFitness : R;
  gr_avgFitness : R;
  gr_infeasibleCount : nat
}.

(** The immutable fields; the generator [this.random] is threaded by [M]. *)
Record t : Type := {
  populationSize : nat;
  generations : nat;
  mutationProb : R;
  eliteCount : nat;
  tournamentSize : nat
}.

(** The constructor, without the seed (which only sets the generator).
    [Math.floor(populationSize * 0.1)] is the integer quotient by 10. *)
Definition make (populationSize generations : nat) (mutationProb : R) : t :=
  {| populationSize := populationSize;
     generations := generations;
     mutationProb := mutationProb;
     eliteCount := Nat.max 2 (populationSize / 10);
     tournamentSize := 3 |}.

Definition Bounds : Type := list (R * R).

Section Optimizer.
Variable this : t.

(** [for (j = ...; j < geneCount; j++) genes.push(uniform(...bounds[j]))],
    with [n] iterations left. *)
Fixpoint geneLoop (n j : nat) (bounds : Bounds) : M (list R) :=
  match n with
  | O => ret []
  | S n' =>
      match nth_error bounds j with
      | None => throw
      | Some (min, max) =>
          g <- draw (SeededRandom.uniform min max) ;;
          rest <- geneLoop n' (S j) bounds ;;
          ret (g :: rest)
      end
  end.

Fixpoint populationLoop (n geneCount : nat) (bounds : Bounds)
    : M (list (list R)) :=
  match n with
  | O => ret []
  | S n' =>
      g <- geneLoop geneCount 0 bounds ;;
      rest <- populationLoop n' geneCount bounds ;;
      ret (g :: rest)
  end.

Definition initializePopulation (geneCount : nat) (bounds : Bounds)
    : M (list (list R)) :=
  populationLoop (populationSize this) geneCount bounds.

(** [Math.floor(this.random() * len)] : the draw is [u / 2^32] with [u] an
    integer, so the floor is an integer quotient. *)
Definition randomIndex (len : nat) : M nat :=
  draw (fun st =>
          let '(u, st') := SeededRandom.random_bits st in
          (Z.to_nat ((u * Z.of_nat len) / 4294967296), st')).

(** The loop of [tournamentSelect], [n] rounds left.  An index outside the
    population would make the candidate undefined. *)
Fixpoint tournamentLoop (n : nat) (population : list Individual)
    (best : option Individual) : M (option Individual) :=
  match n with
  | O => ret best
  | S n' =>
      idx <- randomIndex (List.length population) ;;
      match nth_error population idx with
      | None => throw
      | Some candidate =>
          let best' :=
            match best with
            | None => Some candidate
            | Some b =>
                if Rlt_dec (fitness candidate) (fitness b)
                then Some candidate else Some b
            end in
          tournamentLoop n' population best'
      end
  end.

Definition tournamentSelect (population : list Individual) : M Individual :=
  r <- tournamentLoop (tournamentSize this) population None ;;
  match r with
  | None => throw
  | Some b => ret b
  end.

(** [crossover]: one draw per gene of [parent1]. *)
Fixpoint crossoverGenes (g1 g2 : list R) : M (list R) :=
  match g1 with
  | [] => ret []
  | x :: g1' =>
      r <- draw SeededRandom.random ;;
      let g := if Rlt_dec r (1 / 2) then x else hd 0 g2 in
      rest <- crossoverGenes g1' (tl g2) ;;
      ret (g :: rest)
  end.

Definition crossover (parent1 parent2 : Individual) : M (list R) :=
  crossoverGenes (genes parent1) (genes parent2).

(** [Math.max(min, Math.min(max, g + mutation))].  An infinite mutation
    (the draw [u1 = 0] of Box-Muller) puts the gene on a bound.  The
    mutation is NaN only when [range * mutationScale] is 0, that is for a
    gene whose bounds coincide, again at the draw [u1 = 0]; the source then
    stores NaN in the gene, which no real number stands for: the model
    keeps the bound there, and what is stated about the values of the
    genes is stated for bounds with [min < max]. *)
Definition clampGene (min max g : R) (mutation : JsNum.t) : R :=
  match JsNum.max min (JsNum.min max (JsNum.add (JsNum.Fin g) mutation)) with
  | JsNum.Fin x => x
  | _ => min
  end.

(** [mutate], gene [i] onwards; [mutationScale] is the default 0.1. *)
Fixpoint mutateGenes (gs : list R) (i : nat) (bounds : Bounds) : M (list R) :=
  match gs with
  | [] => ret []
  | g :: gs' =>
      r <- draw SeededRandom.random ;;
      g' <- (if Rlt_dec r (mutationProb this) then
               match nth_error bounds i with
               | None => throw
               | Some (min, max) =>
                   let range := max - min in
                   mutation <-
                     draw (SeededRandom.gaussian
                             0 (JsNum.Fin (range * (1 / 10)))) ;;
                   ret (clampGene min max g mutation)
               end
             else ret g) ;;
      rest <- mutateGenes gs' (S i) bounds ;;
      ret (g' :: rest)
  end.

Definition mutate (child : list R) (bounds : Bounds) : M (list R) :=
  mutateGenes child 0 bounds.

Section Fitness.
Variable fitnessFunc : list R -> R.

Definition evaluate (g : list R) : Individual :=
  {| genes := g; fitness := fitnessFunc g |}.

Definition evaluatePopulation (population : list (list R))
    : list Individual * nat :=
  let evaluated := map evaluate population in
  (evaluated,
   List.length
     (filter (fun ind => if Rgt_dec (fitness ind) 100000 then true else false)
             evaluated)).

(** [population.sort((a, b) => a.fitness - b.fitness)] : the stable
    ascending arrangement. *)
Fixpoint insertByFitness (x : Individual) (l : list Individual)
    : list Individual :=
  match l with
  | [] => [x]
  | y :: l' =>
      if Rle_dec (fitness x) (fitness y) then x :: y :: l'
      else y :: insertByFitness x l'
  end.

Definition sortByFitness (l : list Individual) : list Individual :=
  fold_right insertByFitness [] l.

(** Elitism loop: [population[i].genes] for [i < eliteCount]. *)
Fixpoint eliteLoop (n i : nat) (population : list Individual)
    : option (list (list R)) :=
  match n with
  | O => Some []
  | S n' =>
      match nth_error population i with
      | None => None
      | Some ind =>
          match eliteLoop n' (S i) population with
          | None => None
          | Some rest => Some (genes ind :: rest)
          end
      end
  end.

(** [while (newPopulation.length < populationSize)], [n] children to go. *)
Fixpoint breedLoop (n : nat) (population : list Individual) (bounds : Bounds)
    : M (list (list R)) :=
  match n with
  | O => ret []
  | S n' =>
      parent1 <- tournamentSelect population ;;
      parent2 <- tournamentSelect population ;;
      child <- crossover parent1 parent2 ;;
      child' <- mutate child bounds ;;
      rest <- breedLoop n' population bounds ;;
      ret (child' :: rest)
  end.

Definition newPopulation (population : list Individual) (bounds : Bounds)
    : M (list (list R)) :=
  match eliteLoop (eliteCount this) 0 population with
  | None => throw
  | Some elites =>
      children <- breedLoop (populationSize this - List.length elites)
                            population bounds ;;
      ret (elites ++ children)
  end.

Record LoopState : Type := {
  ls_population : list Individual;
  ls_infeasibleCount : nat;
  ls_bestEver : Individual;
  ls_stagnationCount : nat;
  ls_totalEvaluations : nat
}.

Definition maxStagnation : nat := (generations this + 1) / 2.

Definition avgFitness (population : list Individual) : R :=
  fold_left (fun sum ind => sum + fitness ind) population 0
  / INR (List.length population).

(** The generation loop, [n] generations left, at generation [gen].
    Returns the callback records issued (also when it throws) and, unless
    it threw, the final loop state and generator. *)
Fixpoint generationLoop (n gen : nat) (bounds : Bounds) (ls : LoopState)
    (st : SeededRandom.t)
    : list GenerationRecord * option (LoopState * SeededRandom.t) :=
  match n with
  | O => ([], Some (ls, st))
  | S n' =>
      match ls_population ls with
      | [] => ([], None)
      | first :: _ =>
          let rec :=
            {| gr_generation := gen;
               gr_bestFitness := fitness first;
               gr_avgFitness := avgFitness (ls_population ls);
               gr_infeasibleCount := ls_infeasibleCount ls |} in
          let improved := Rlt_dec (fitness first) (fitness (ls_bestEver ls)) in
          let bestEver1 := if improved then first else ls_bestEver ls in
          let stagnation1 :=
            if improved then O else S (ls_stagnationCount ls) in
          let ls1 :=
            {| ls_population := ls_population ls;
               ls_infeasibleCount := ls_infeasibleCount ls;
               ls_bestEver := bestEver1;
               ls_stagnationCount := stagnation1;
               ls_totalEvaluations := ls_totalEvaluations ls |} in
          if Nat.leb maxStagnation stagnation1 then ([rec], Some (ls1, st))
          else
            match newPopulation (ls_population ls) bounds st with
            | None => ([rec], None)
            | Some (fresh, st') =>
                let '(evaluated, infeasible) := evaluatePopulation fresh in
                let sorted := sortByFitness evaluated in
                match sorted with
                | [] => ([rec], None)
                | first' :: _ =>
                    let bestEver2 :=
                      if Rlt_dec (fitness first') (fitness bestEver1)
                      then first' else bestEver1 in
                    let ls2 :=
                      {| ls_population := sorted;
                         ls_infeasibleCount := infeasible;
                         ls_bestEver := bestEver2;
                         ls_stagnationCount := stagnation1;
                         ls_totalEvaluations :=
                           ls_totalEvaluations ls + populationSize this |} in
                    let '(recs, r) := generationLoop n' (S gen) bounds ls2 st' in
                    (rec :: recs, r)
                end
            end
      end
  end.

(** [optimize]. *)
Definition optimize (geneCount : nat) (bounds : Bounds) (st : SeededRandom.t)
    : list GenerationRecord * option (OptimizationResult * SeededRandom.t) :=
  match initializePopulation geneCount bounds st with
  | None => ([], None)
  | Some (fresh, st0) =>
      let '(evaluated, infeasible) := evaluatePopulation fresh in
      match sortByFitness evaluated with
      | [] => ([], None)
      | first :: rest =>
          let ls0 :=
            {| ls_population := first :: rest;
               ls_infeasibleCount := infeasible;
               ls_bestEver := first;
               ls_stagnationCount := O;
               ls_totalEvaluations := populationSize this |} in
          match generationLoop (generations this) 0 bounds ls0 st0 with
          | (recs, None) => (recs, None)
          | (recs, Some (ls, st')) =>
              (recs,
               Some ({| best := ls_bestEver ls;
                        res_generations := generations this;
                        evaluations := ls_totalEvaluations ls;
                        converged :=
                          Nat.leb maxStagnation (ls_stagnationCount ls) |},
                     st'))
          end
      end
  end.

End Fitness.
End Optimizer.
End GeneticOptimizer.

(* ================================================================== *)
(** ** p-tsra.ts : the Predictive policy *)
(* ================================================================== *)

Module PTSRA.
Import JsMath.

Record PredictionHorizon : Type := {
  arrivals : list R;
  harvests : list R;
  channelGains : list R
}.

(** Immutable fields of a [PTSRAAlgorithm] object. *)
Record t : Type := {
  base : TSRA.t;
  horizon : nat;
  optimizer : GeneticOptimizer.t
}.

(** Mutable fields: the optimizer's generator and the three histories. *)
Record Mem : Type := {
  rng : SeededRandom.t;
  arrivalHistory : JsMap.t (list R);
  harvestHistory : JsMap.t (list R);
  channelHistory : JsMap.t (list R)
}.

Definition ewmaAlpha : R := 3 / 10.

(** [h.push(x); if (h.length > 50) h.shift()] *)
Definition pushWindow (h : list R) (x : R) : list R :=
  let h' := h ++ [x] in
  if Nat.ltb 50 (List.length h') then tl h' else h'.

(** [map.get(id) || []] *)
Definition historyOf (m : JsMap.t (list R)) (sid : string) : list R :=
  match JsMap.get m sid with
  | Some h => h
  | None => []
  end.

Definition updateHistory (m : Mem) (sensorId : string)
    (arrival harvest channelGain : R) : Mem :=
  {| rng := rng m;
     arrivalHistory :=
       JsMap.set (arrivalHistory m) sensorId
         (pushWindow (historyOf (arrivalHistory m) sensorId) arrival);
     harvestHistory :=
       JsMap.set (harvestHistory m) sensorId
         (pushWindow (historyOf (harvestHistory m) sensorId) harvest);
     channelHistory :=
       JsMap.set (channelHistory m) sensorId
         (pushWindow (historyOf (channelHistory m) sensorId) channelGain) |}.

Definition calculateEWMA (history : list R) (defaultValue : R) : R :=
  match history with
  | [] => defaultValue
  | h0 :: rest =>
      fold_left (fun ewma x => ewmaAlpha * x + (1 - ewmaAlpha) * ewma) rest h0
  end.

(** The loop of [predictFuture], [n] steps left from step [h].  [noise h]
    are the three [Math.random()] values of step [h], an unseeded source. *)
Fixpoint predictLoop (n h : nat) (ewmaArrival ewmaHarvest ewmaChannel : R)
    (noise : nat -> R * R * R) : PredictionHorizon :=
  match n with
  | O => {| arrivals := []; harvests := []; channelGains := [] |}
  | S n' =>
      let '(r1, r2, r3) := noise h in
      let arrivalNoise := 9 / 10 + r1 * (2 / 10) in
      let harvestNoise := 8 / 10 + r2 * (4 / 10) in
      let channelNoise := 85 / 100 + r3 * (3 / 10) in
      let rest := predictLoop n' (S h) ewmaArrival ewmaHarvest ewmaChannel noise in
      {| arrivals := ewmaArrival * arrivalNoise :: arrivals rest;
         harvests := ewmaHarvest * harvestNoise :: harvests rest;
         channelGains := ewmaChannel * channelNoise :: channelGains rest |}
  end.

Definition predictFuture (m : Mem) (sensor : SensorConfig) (horizon : nat)
    (noise : nat -> R * R * R) : PredictionHorizon :=
  let arrivals := historyOf (arrivalHistory m) (id sensor) in
  let harvests := historyOf (harvestHistory m) (id sensor) in
  let channels := historyOf (channelHistory m) (id sensor) in
  predictLoop horizon 0
    (calculateEWMA arrivals (J_mean_bits_per_slot sensor))
    (calculateEWMA harvests (harvest_mean_J_per_slot sensor))
    (calculateEWMA channels (channel_mean_gain sensor))
    noise.

Section Fitness.
Variable this : t.

(** The rollout loop of [fitnessFunction]: [n] steps left from step [h],
    with the running [simState] and [totalCost]. *)
Fixpoint rollout (n h : nat) (alpha f_u p_u : R) (sensor : SensorConfig)
    (predictions : PredictionHorizon) (V tau bandwidth : R)
    (globalParams : GlobalParams) (simState : SensorState) (totalCost : R)
    : R :=
  match n with
  | O => totalCost
  | S n' =>
      let arrival := nth h (arrivals predictions) 0 in
      let harvest := nth h (harvests predictions) 0 in
      let channelGain := nth h (channelGains predictions) 0 in
      let delta := delta_cycles_per_bit sensor in
      let C_l := (f_u * tau) / delta in
      let snr := (p_u * channelGain) / noise_power_W globalParams in
      let C_o := bandwidth * log2 (1 + snr) * tau in
      let localEnergy := theta globalParams * f_u ^ 3 * tau in
      let txEnergy := p_u * tau in
      let totalEnergy := localEnergy + txEnergy in
      let effectiveEnergy := Rmax 0 (localEnergy - harvest) in
      let localArrival := (1 - alpha) * arrival in
      let offloadArrival := alpha * arrival in
      let simState' :=
        {| H_l := Rmax 0 (H_l simState - C_l) + localArrival;
           H_o := Rmax 0 (H_o simState - C_o) + offloadArrival;
           H_k := H_k simState;
           B_u := Rmax 0 (B_u simState - effectiveEnergy) + harvest |} in
      let drift := H_l simState' * (localArrival - C_l)
                   + H_o simState' * (offloadArrival - C_o) in
      let slotCost := V * totalEnergy + drift in
      let cost1 := if Rlt_dec (B_u simState') 0
                   then totalCost + 1000000 else totalCost in
      let cost2 := if Rgt_dec f_u (f_max_Hz sensor)
                   then cost1 + 1000000 else cost1 in
      let cost3 := if Rgt_dec p_u (p_max_W sensor)
                   then cost2 + 1000000 else cost2 in
      let discount := (95 / 100) ^ h in
      rollout n' (S h) alpha f_u p_u sensor predictions V tau bandwidth
              globalParams simState' (cost3 + discount * slotCost)
  end.

Definition fitnessFunction (individual : list R) (sensor : SensorConfig)
    (state : SensorState) (predictions : PredictionHorizon)
    (V tau bandwidth : R) (globalParams : GlobalParams) : R :=
  let alpha := nth 0 individual 0 in
  let fNorm := nth 1 individual 0 in
  let pNorm := nth 2 individual 0 in
  let f_u := fNorm * f_max_Hz sensor in
  let p_u := pNorm * p_max_W sensor in
  rollout (Nat.min (horizon this) (List.length (arrivals predictions))) 0
          alpha f_u p_u sensor predictions V tau bandwidth globalParams
          state 0.

Definition bounds : GeneticOptimizer.Bounds :=
  [(0, 1); (1 / 10, 1); (0, 1)].

(** [optimizeAlpha]; the log entries carry the slot the caller writes in. *)
Definition optimizeAlpha (sensor : SensorConfig) (state : SensorState)
    (predictions : PredictionHorizon) (slot : nat) (st : SeededRandom.t)
    : list OptimizerLogEntry * option (R * R * R * SeededRandom.t) :=
  let '(recs, r) :=
    GeneticOptimizer.optimize (optimizer this)
      (fun individual =>
         fitnessFunction individual sensor state predictions
           (TSRA.V (base this)) (TSRA.tau (base this))
           (TSRA.bandwidth (base this)) (TSRA.globalParams (base this)))
      3 bounds st in
  let logs :=
    map (fun g =>
           {| log_slot := slot;
              log_generation := GeneticOptimizer.gr_generation g;
              log_best_fitness := GeneticOptimizer.gr_bestFitness g;
              log_avg_fitness := GeneticOptimizer.gr_avgFitness g;
              infeasible_count := GeneticOptimizer.gr_infeasibleCount g |})
        recs in
  match r with
  | None => (logs, None)
  | Some (result, st') =>
      let g := GeneticOptimizer.genes (GeneticOptimizer.best result) in
      (logs,
       Some (nth 0 g 0, nth 1 g 0 * f_max_Hz sensor, nth 2 g 0 * p_max_W sensor,
             st'))
  end.

(** The part of the sensor loop of [executeSlotPredictive] that follows
    the choice of [(alpha, f_u, p_u)]. *)
Definition commit (sensor : SensorConfig) (state : SensorState) (ev : Events)
    (alpha f_u p_u : R) (edgeAllocations : JsMap.t R)
    (edgeServer : EdgeServerConfig)
    : SlotDecision * SensorState * SensorSlotResult :=
  let arrival := ev_arrival ev in
  let harvest := ev_harvest ev in
  let channelGain := ev_channelGain ev in
  let xi_u := TSRA.allocationFor edgeAllocations (id sensor) in
  let delta := delta_cycles_per_bit sensor in
  let tau := TSRA.tau (base this) in
  let bandwidth := TSRA.bandwidth (base this) in
  let globalParams := TSRA.globalParams (base this) in
  let C_l := (f_u * tau) / delta in
  let snr := (p_u * channelGain) / noise_power_W globalParams in
  let C_o := bandwidth * log2 (1 + snr) * tau in
  let C_k := (xi_u * f_k_Hz edgeServer * tau) / delta in
  let localEnergy := theta globalParams * f_u ^ 3 * tau in
  let txEnergy := p_u * tau in
  let new := TSRA.updateState state alpha arrival harvest
                              C_l C_o C_k localEnergy in
  let kappa := if Rge_dec alpha (1 / 2) then K1 else K0 in
  ({| kappa := kappa; alpha := alpha; f_u := f_u; p_u := p_u; xi_u := xi_u |},
   new,
   {| r_id := id sensor; r_H_l := H_l new; r_H_o := H_o new; r_H_k := H_k new;
      r_alpha := alpha; local_energy_J := localEnergy; tx_energy_J := txEnergy;
      p_tx_W := p_u; f_cpu_Hz := f_u; arrival_bits := arrival;
      harvest_J := harvest; r_battery_J := B_u new |}).

(** The choice of [(alpha, f_u, p_u)] for one sensor: the optimizer when
    [horizon > 0], the Baseline sub-problems otherwise. *)
Definition choose (m : Mem) (sensor : SensorConfig) (state : SensorState)
    (ev : Events) (predictions : PredictionHorizon) (slot : nat)
    : list OptimizerLogEntry * option (R * R * R * SeededRandom.t) :=
  if Nat.ltb 0 (horizon this) then
    optimizeAlpha sensor state predictions slot (rng m)
  else
    let kappa := TSRA.taskSchedulingDecision state in
    ([],
     Some (kappaR kappa,
           TSRA.localCPUFrequencyAllocation (base this) sensor state,
           TSRA.transmissionPowerAllocation (base this) sensor state
             (ev_channelGain ev),
           rng m)).

Definition withRng (m : Mem) (st : SeededRandom.t) : Mem :=
  {| rng := st;
     arrivalHistory := arrivalHistory m;
     harvestHistory := harvestHistory m;
     channelHistory := channelHistory m |}.

(** The sensor loop, from index [i].  The log entries issued so far are
    returned also when an exception ends the loop. *)
Fixpoint slotLoop (sensors : list SensorConfig) (states : list SensorState)
    (env : nat -> Events) (noise : nat -> nat -> R * R * R) (i slot : nat)
    (edgeAllocations : JsMap.t R) (edgeServer : option EdgeServerConfig)
    (m : Mem) : list OptimizerLogEntry * option (SlotOutput * Mem) :=
  match sensors with
  | [] => ([], Some (TSRA.emptyOutput, m))
  | sensor :: sensors' =>
      match states with
      | [] => ([], None)
      | state :: states' =>
          let ev := env i in
          let m1 := updateHistory m (id sensor) (ev_arrival ev)
                                  (ev_harvest ev) (ev_channelGain ev) in
          let predictions := predictFuture m1 sensor (horizon this) (noise i) in
          match choose m1 sensor state ev predictions slot with
          | (logs, None) => (logs, None)
          | (logs, Some (alpha, f_u, p_u, st')) =>
              match edgeServer with
              | None => (logs, None)
              | Some es =>
                  let o := commit sensor state ev alpha f_u p_u
                                  edgeAllocations es in
                  match slotLoop sensors' states' env noise (S i) slot
                                 edgeAllocations edgeServer (withRng m1 st') with
                  | (logs', None) => (logs ++ logs', None)
                  | (logs', Some (rest, m')) =>
                      (logs ++ logs', Some (TSRA.pushOutput o rest, m'))
                  end
              end
          end
      end
  end.

(** [executeSlotPredictive] *)
Definition executeSlotPredictive (sensors : list SensorConfig)
    (states : list SensorState) (edgeServer : option EdgeServerConfig)
    (slot : nat) (env : nat -> Events) (noise : nat -> nat -> R * R * R)
    (m : Mem) : list OptimizerLogEntry * option (SlotOutput * Mem) :=
  match TSRA.edgeServerAllocation sensors states with
  | None => ([], None)
  | Some edgeAllocations =>
      match slotLoop sensors states env noise 0 slot edgeAllocations
                     edgeServer m with
      | (logs, None) => (logs, None)
      | (logs, Some (out, m')) =>
          match sensors, edgeServer with
          | _ :: _, None => (logs, None)
          | [], _ => (logs, Some (TSRA.emptyOutput, m'))
          | _ :: _, Some es =>
              (logs,
               Some ({| decisions := decisions out;
                        newStates := newStates out;
                        sensorResults := sensorResults out;
                        edgeResult :=
                          TSRA.edgeResultOf (base this) sensors
                                            edgeAllocations es |},
                     m'))
          end
      end
  end.

End Fitness.

(** [new PTSRAAlgorithm(V, tau, bandwidth, globalParams, seed, horizon,
    optimizerConfig)] *)
Definition make (V tau bandwidth : R) (globalParams : GlobalParams)
    (horizon : nat) (optimizerConfig : OptimizerConfig) : t :=
  {| base := {| TSRA.V := V; TSRA.tau := tau; TSRA.bandwidth := bandwidth;
                TSRA.globalParams := globalParams |};
     horizon := horizon;
     optimizer :=
       GeneticOptimizer.make (population optimizerConfig)
         (generations optimizerConfig) (mutation_prob optimizerConfig) |}.

Definition initialMem (seed : Z) : Mem :=
  {| rng := SeededRandom.make seed;
     arrivalHistory := JsMap.empty;
     harvestHistory := JsMap.empty;
     channelHistory := JsMap.empty |}.

End PTSRA.

(* ================================================================== *)
(** ** simulator.ts : the driver *)
(* ================================================================== *)

Module Simulator.

(** The accumulation loop of [calculateGlobalMetrics]. *)
Definition accumulate (acc : R * R * R) (sensor : SensorSlotResult)
    : R * R * R :=
  let '(totalBacklog, totalEnergy, totalLatency) := acc in
  let avgRate :=
    if Rgt_dec (arrival_bits sensor) 0 then arrival_bits sensor else 100000 in
  (totalBacklog + (r_H_l sensor + r_H_o sensor + r_H_k sensor),
   totalEnergy + (local_energy_J sensor + tx_energy_J sensor),
   totalLatency
   + (r_H_l sensor + r_H_o sensor + r_H_k sensor) / avgRate * 1000).

Definition calculateGlobalMetrics (sensorResults : list SensorSlotResult)
    (edgeResult : EdgeSlotResult) : GlobalMetrics :=
  let '(totalBacklog, totalEnergy, totalLatency) :=
    fold_left accumulate sensorResults (0, 0, 0) in
  {| total_backlog_bits := totalBacklog;
     total_energy_J := totalEnergy;
     best_fitness := - totalEnergy - (1 / 100) * totalBacklog;
     avg_latency_ms :=
       match sensorResults with
       | [] => None
       | _ :: _ => Some (totalLatency / INR (List.length sensorResults))
       end |}.

(** What the two policies draw: [tsraEvents slot i] and [ptsraEvents slot i]
    are the events of sensor [i] in a slot; [noise slot i h] the unseeded
    prediction noise. *)
Record Environment : Type := {
  tsraEvents : nat -> nat -> Events;
  ptsraEvents : nat -> nat -> Events;
  noise : nat -> nat -> nat -> R * R * R
}.

(** The local variables of [runSimulation] that live across slots. *)
Record Run : Type := {
  state : SimulationState;
  tsraStates : list SensorState;
  ptsraStates : list SensorState;
  ptsraMem : PTSRA.Mem
}.

Section Driver.
Variable config : ExperimentConfig.
Variable env : Environment.

Definition tsra : TSRA.t :=
  {| TSRA.V := cfg_V config;
     TSRA.tau := slot_duration_s config;
     TSRA.bandwidth := bandwidth_Hz config;
     TSRA.globalParams := global_params config |}.

Definition ptsra : PTSRA.t :=
  PTSRA.make (cfg_V config) (slot_duration_s config) (bandwidth_Hz config)
             (global_params config) (prediction_horizon config)
             (optimizer config).

Definition edgeServer : option EdgeServerConfig := hd_error (edge_servers config).

Definition initialRun : Run :=
  {| state := {| status := running; current_slot := 0;
                 total_slots := slots config;
                 tsra_results := []; ptsra_results := [];
                 optimizer_log := [] |};
     tsraStates := TSRA.initializeSensorStates (sensors config);
     ptsraStates := TSRA.initializeSensorStates (sensors config);
     ptsraMem := PTSRA.initialMem (seed config + 1) |}.

Definition slotResultOf (slot : nat) (out : SlotOutput) (alg : Algorithm)
    : SlotResult :=
  {| slot := slot;
     sensor_results := sensorResults out;
     edge_results := edgeResult out;
     global_metrics :=
       calculateGlobalMetrics (sensorResults out) (edgeResult out);
     algorithm := alg |}.

(** One iteration of the slot loop; an exception sets [status = error]. *)
Definition slotBody (slot : nat) (run : Run) : Run :=
  let s := state run in
  match TSRA.executeSlot tsra (sensors config) (tsraStates run) edgeServer
                         (tsraEvents env slot) with
  | None =>
      {| state := {| status := error; current_slot := slot;
                     total_slots := total_slots s;
                     tsra_results := tsra_results s;
                     ptsra_results := ptsra_results s;
                     optimizer_log := optimizer_log s |};
         tsraStates := tsraStates run;
         ptsraStates := ptsraStates run;
         ptsraMem := ptsraMem run |}
  | Some tsraResult =>
      let tsra_results' :=
        tsra_results s ++ [slotResultOf slot tsraResult TSRA_tag] in
      match PTSRA.executeSlotPredictive ptsra (sensors config)
              (ptsraStates run) edgeServer slot (ptsraEvents env slot)
              (noise env slot) (ptsraMem run) with
      | (logs, None) =>
          {| state := {| status := error; current_slot := slot;
                         total_slots := total_slots s;
                         tsra_results := tsra_results';
                         ptsra_results := ptsra_results s;
                         optimizer_log := optimizer_log s ++ logs |};
             tsraStates := newStates tsraResult;
             ptsraStates := ptsraStates run;
             ptsraMem := ptsraMem run |}
      | (logs, Some (ptsraResult, mem')) =>
          {| state := {| status := running; current_slot := slot;
                         total_slots := total_slots s;
                         tsra_results := tsra_results';
                         ptsra_results :=
                           ptsra_results s
                           ++ [slotResultOf slot ptsraResult PTSRA_tag];
                         optimizer_log := optimizer_log s ++ logs |};
             tsraStates := newStates tsraResult;
             ptsraStates := newStates ptsraResult;
             ptsraMem := mem' |}
      end
  end.

(** [for (slot = ...; slot < config.slots; slot++)], [n] slots left; the
    loop is left as soon as the status is no longer [running]. *)
Fixpoint slotLoop (n slot : nat) (run : Run) : Run :=
  match n with
  | O => run
  | S n' =>
      let run' := slotBody slot run in
      match status (state run') with
      | running => slotLoop n' (S slot) run'
      | _ => run'
      end
  end.

Definition finish (run : Run) : SimulationState :=
  let s := state run in
  match status s with
  | running =>
      {| status := completed; current_slot := current_slot s;
         total_slots := total_slots s; tsra_results := tsra_results s;
         ptsra_results := ptsra_results s; optimizer_log := optimizer_log s |}
  | _ => s
  end.

(** [runSimulation] *)
Definition runSimulation : SimulationState :=
  finish (slotLoop (slots config) 0 initialRun).

End Driver.
End Simulator.

(* ================================================================== *)
(** ** random.ts : the remaining operations of [SeededRandom] *)
(* ================================================================== *)

(** What a computation that draws may give besides a value.
    [NonFinite]: the number the source computes is an infinity or NaN (a
    Box-Muller draw took [Math.log(0)] and no [Math.max] brought the
    result back, or a [Math.sqrt] was taken below 0); the source goes on
    with it, the real-number model of the policies does not.
    [OutOfFuel]: the loop bound of the model was reached. *)
Inductive Outcome (A : Type) : Type :=
| Value (a : A)
| NonFinite
| OutOfFuel.
Arguments Value {A} a.
Arguments NonFinite {A}.
Arguments OutOfFuel {A}.

(** A number on its way to the decision engine. *)
Definition finite (x : JsNum.t * SeededRandom.t)
    : Outcome (R * SeededRandom.t) :=
  match x with
  | (JsNum.Fin v, st) => Value (v, st)
  | _ => NonFinite
  end.

Module RandomOps.
Import JsInt.

(** [a - b] on two integer-valued doubles. *)
Definition sub (a b : Z) : Z := fl53 (a - b)%Z.

(** [Math.floor(this.random() * k)] for an integer [k]: the draw is
    [u / 2^32] exactly, the product is rounded to a double, then floored. *)
Definition scaledDraw (k : Z) (st : SeededRandom.t) : Z * SeededRandom.t :=
  let '(u, st') := SeededRandom.random_bits st in
  ((fl53 (u * k) / two32)%Z, st').

(** [nextInt(min, max)], on integers. *)
Definition nextInt (min max : Z) (st : SeededRandom.t) : Z * SeededRandom.t :=
  let '(q, st') := scaledDraw (add (sub max min) 1) st in
  (add q min, st').

(** [bernoulli(p)] *)
Definition bernoulli (p : R) (st : SeededRandom.t) : bool * SeededRandom.t :=
  let '(r, st') := SeededRandom.random st in
  (if Rlt_dec r p then true else false, st').

(** The [do ... while (p > L)] loop of [poisson], entered with the current
    [k] and [p]; [fuel] bounds the number of iterations. *)
Fixpoint poissonLoop (fuel : nat) (L : R) (k : nat) (p : R)
    (st : SeededRandom.t) : Outcome (nat * SeededRandom.t) :=
  match fuel with
  | O => OutOfFuel
  | S fuel' =>
      let '(r, st') := SeededRandom.random st in
      let k' := S k in
      let p' := (p * r)%R in
      if Rgt_dec p' L then poissonLoop fuel' L k' p' st'
      else Value (k', st')
  end.

(** [Math.round(x)] *)
Definition round (x : R) : Z := Int_part (x + / 2).

(** [poisson(lambda)].  In the normal approximation [Math.round] keeps an
    infinity, and [Math.max(0, .)] turns minus infinity into 0 and keeps
    plus infinity. *)
Definition poisson (fuel : nat) (lambda : R) (st : SeededRandom.t)
    : Outcome (Z * SeededRandom.t) :=
  if Rlt_dec lambda 30 then
    match poissonLoop fuel (exp (- lambda)) 0 1 st with
    | Value (k, st') => Value ((Z.of_nat k - 1)%Z, st')
    | NonFinite => NonFinite
    | OutOfFuel => OutOfFuel
    end
  else
    match SeededRandom.gaussian lambda (JsNum.Fin (sqrt lambda)) st with
    | (JsNum.Fin g, st') => Value (Z.max 0 (round g), st')
    | (JsNum.NegInf, st') => Value (0%Z, st')
    | (JsNum.PosInf, _) | (JsNum.NaN, _) => NonFinite
    end.

Section Arrays.
Variable T : Type.

(** [l[i] = x] for an index inside the array. *)
Fixpoint update (l : list T) (i : nat) (x : T) : list T :=
  match l, i with
  | [], _ => []
  | _ :: t, O => x :: t
  | h :: t, S i' => h :: update t i' x
  end.

(** [[l[i], l[j]] = [l[j], l[i]]].  Both indices are inside the array
    wherever [shuffle] swaps. *)
Definition swap (l : list T) (i j : nat) : list T :=
  match nth_error l i, nth_error l j with
  | Some x, Some y => update (update l j x) i y
  | _, _ => l
  end.

(** The loop of [shuffle], at index [i] going down to 1. *)
Fixpoint shuffleLoop (i : nat) (result : list T) (st : SeededRandom.t)
    : list T * SeededRandom.t :=
  match i with
  | O => (result, st)
  | S i' =>
      let '(j, st') := scaledDraw (Z.of_nat i + 1)%Z st in
      shuffleLoop i' (swap result i (Z.to_nat j)) st'
  end.

(** [shuffle(array)] *)
Definition shuffle (array : list T) (st : SeededRandom.t)
    : list T * SeededRandom.t :=
  shuffleLoop (List.length array - 1) array st.

(** [sample(array, n)], [n] a non-negative integer. *)
Definition sample (array : list T) (n : nat) (st : SeededRandom.t)
    : list T * SeededRandom.t :=
  let '(shuffled, st') := shuffle array st in
  (firstn n shuffled, st').

End Arrays.

End RandomOps.

(* ================================================================== *)
(** ** types/experiment.ts : the arrival and harvest models *)
(* ================================================================== *)

Inductive ArrivalType : Type := poisson_arrival | fixed_arrival | uniform_arrival.

(** An optional field is [None] when it is missing. *)
Record ArrivalModel : Type := {
  arrival_type : ArrivalType;
  lambda : option R;
  value_bits : option R;
  min_bits : option R;
  max_bits : option R
}.

Inductive HarvestType : Type :=
  bernoulli_harvest | constant_harvest | gaussian_harvest.

Record HarvestModel : Type := {
  harvest_type : HarvestType;
  hm_p : option R;
  value_J : option R;
  mean_J : option R;
  std_J : option R
}.

(** A sensor of the configuration with the two models the decision engine
    does not read. *)
Record SensorSpec : Type := {
  spec_config : SensorConfig;
  arrival_model : ArrivalModel;
  harvest_model : HarvestModel
}.

(** [x || d] on an optional number: [d] when [x] is missing or 0. *)
Definition orElse (x : option R) (d : R) : R :=
  match x with
  | Some v => if Req_dec_T v 0 then d else v
  | None => d
  end.

(* ================================================================== *)
(** ** tsra.ts : the event generators of [TSRAAlgorithm] *)
(* ================================================================== *)

Module TSRAEvents.

(** [generateArrival(sensor)].  A count of plus infinity times [J_mean] is
    an infinity or NaN. *)
Definition generateArrival (fuel : nat) (sensor : SensorSpec)
    (st : SeededRandom.t) : Outcome (R * SeededRandom.t) :=
  let model := arrival_model sensor in
  let J_mean := J_mean_bits_per_slot (spec_config sensor) in
  match arrival_type model with
  | poisson_arrival =>
      match RandomOps.poisson fuel (orElse (lambda model) 1) st with
      | Value (numArrivals, st') => Value (IZR numArrivals * J_mean, st')
      | NonFinite => NonFinite
      | OutOfFuel => OutOfFuel
      end
  | fixed_arrival => Value (orElse (value_bits model) J_mean, st)
  | uniform_arrival =>
      let min := orElse (min_bits model) (J_mean * (5 / 10)) in
      let max := orElse (max_bits model) (J_mean * (15 / 10)) in
      Value (SeededRandom.uniform min max st)
  end.

(** [generateHarvest(sensor)]; the Gaussian model is
    [Math.max(0, gaussian(mean, std))]. *)
Definition generateHarvest (sensor : SensorSpec) (st : SeededRandom.t)
    : Outcome (R * SeededRandom.t) :=
  let model := harvest_model sensor in
  let harvest_mean := harvest_mean_J_per_slot (spec_config sensor) in
  match harvest_type model with
  | bernoulli_harvest =>
      let '(r, st') := SeededRandom.random st in
      Value (if Rlt_dec r (orElse (hm_p model) (1 / 10))
             then orElse (value_J model) harvest_mean else 0, st')
  | constant_harvest => Value (orElse (value_J model) harvest_mean, st)
  | gaussian_harvest =>
      let mean := orElse (mean_J model) harvest_mean in
      let std := orElse (std_J model) (mean * (2 / 10)) in
      let '(g, st') := SeededRandom.gaussian mean (JsNum.Fin std) st in
      finite (JsNum.max 0 g, st')
  end.

(** [generateChannelGain(sensor)] :
    [Math.max(1e-10, gaussian(mean, Math.sqrt(variance)))]; [1e-10] is
    [/ 10^10]. *)
Definition generateChannelGain (sensor : SensorSpec) (st : SeededRandom.t)
    : Outcome (R * SeededRandom.t) :=
  let mean := channel_mean_gain (spec_config sensor) in
  let variance := channel_variance (spec_config sensor) in
  let std := JsNum.sqrt variance in
  let '(g, st') := SeededRandom.gaussian mean std st in
  finite (JsNum.max (/ 10000000000) g, st').

(** The three draws the sensor loop of [executeSlot] makes for one sensor,
    in their order. *)
Definition drawEvents (fuel : nat) (sensor : SensorSpec)
    (st : SeededRandom.t) : Outcome (Events * SeededRandom.t) :=
  match generateArrival fuel sensor st with
  | Value (arrival, st1) =>
      match generateHarvest sensor st1 with
      | Value (harvest, st2) =>
          match generateChannelGain sensor st2 with
          | Value (channelGain, st3) =>
              Value ({| ev_arrival := arrival; ev_harvest := harvest;
                        ev_channelGain := channelGain |}, st3)
          | NonFinite => NonFinite
          | OutOfFuel => OutOfFuel
          end
      | NonFinite => NonFinite
      | OutOfFuel => OutOfFuel
      end
  | NonFinite => NonFinite
  | OutOfFuel => OutOfFuel
  end.



End TSRAEvents.

(* ================================================================== *)
(** ** random.ts : [generateRandomSensor] *)
(* ================================================================== *)

Module RandomSensor.

(** The optional [defaults] argument; a missing argument is all [None]. *)
Record Defaults : Type := {
  d_J_mean_bits_per_slot : option R;
  d_battery_J : option R;
  d_harvest_mean_J_per_slot : option R;
  d_f_max_Hz : option R;
  d_p_max_W : option R;
  d_channel_mean_gain : option R
}.

Definition noDefaults : Defaults :=
  {| d_J_mean_bits_per_slot := None; d_battery_J := None;
     d_harvest_mean_J_per_slot := None; d_f_max_Hz := None;
     d_p_max_W := None; d_channel_mean_gain := None |}.

(** [x ?? random.uniform(a, b)] : the draw is made only when [x] is
    missing. *)
Definition orDraw (x : option R) (a b : R) (st : SeededRandom.t)
    : R * SeededRandom.t :=
  match x with
  | Some v => (v, st)
  | None => SeededRandom.uniform a b st
  end.

Definition generateRandomSensor (sid : string) (st : SeededRandom.t)
    (defaults : Defaults) : SensorSpec * SeededRandom.t :=
  let '(J_mean, st1) :=
    orDraw (d_J_mean_bits_per_slot defaults) 50000 200000 st in
  let '(battery, st2) := orDraw (d_battery_J defaults) (1 / 10) 1 st1 in
  let '(harvest_mean, st3) :=
    orDraw (d_harvest_mean_J_per_slot defaults) (5 / 1000) (2 / 100) st2 in
  let '(f_max, st4) := orDraw (d_f_max_Hz defaults) 500000000 2000000000 st3 in
  let '(p_max, st5) := orDraw (d_p_max_W defaults) (2 / 100) (1 / 10) st4 in
  let '(channel_gain, st6) :=
    orDraw (d_channel_mean_gain defaults) (/ 10000000) (5 / 1000000) st5 in
  let '(lam, st7) := SeededRandom.uniform (5 / 10) 2 st6 in
  let '(p, st8) := SeededRandom.uniform (5 / 100) (2 / 10) st7 in
  let '(v, st9) := SeededRandom.uniform (15 / 10) 3 st8 in
  let '(delta, st10) := RandomOps.nextInt 800 1500 st9 in
  let '(cv, st11) := SeededRandom.uniform (1 / 100) (1 / 10) st10 in
  let '(w, st12) := SeededRandom.uniform (5 / 10) 2 st11 in
  ({| spec_config :=
        {| id := sid;
           J_mean_bits_per_slot := J_mean;
           initial_queue_bits := 0;
           battery_J := battery;
           harvest_mean_J_per_slot := harvest_mean;
           f_max_Hz := f_max;
           delta_cycles_per_bit := IZR delta;
           p_max_W := p_max;
           channel_mean_gain := channel_gain;
           channel_variance := channel_gain * cv;
           offload_mode := fractional;
           priority_weight := w |};
      arrival_model :=
        {| arrival_type := poisson_arrival; lambda := Some lam;
           value_bits := None; min_bits := None; max_bits := None |};
      harvest_model :=
        {| harvest_type := bernoulli_harvest; hm_p := Some p;
           value_J := Some (harvest_mean * v); mean_J := None;
           std_J := None |} |},
   st12).

End RandomSensor.

(* ================================================================== *)
(** ** optimizer.ts : [optimizeWithRestarts] *)
(* ================================================================== *)

Module OptimizerRestarts.
Import GeneticOptimizer.

Section Restarts.
Variable this : GeneticOptimizer.t.
Variable fitnessFunc : list R -> R.

(** The loop of [optimizeWithRestarts], [n] restarts to go.  Each restart
    replaces the generator by a new one, seeded with [nextInt(0, 1e9)] of
    the old one.  Returns the callback records issued and, unless a run
    threw, the best result so far ([None] is [null]) and the generator. *)
Fixpoint restartLoop (n : nat) (bestResult : option OptimizationResult)
    (geneCount : nat) (bounds : Bounds) (st : SeededRandom.t)
    : list GenerationRecord
      * option (option OptimizationResult * SeededRandom.t) :=
  match n with
  | O => ([], Some (bestResult, st))
  | S n' =>
      let '(newSeed, _) := RandomOps.nextInt 0 1000000000 st in
      let st1 := SeededRandom.make newSeed in
      match optimize this fitnessFunc geneCount bounds st1 with
      | (recs, None) => (recs, None)
      | (recs, Some (result, st2)) =>
          let bestResult' :=
            match bestResult with
            | None => result
            | Some b =>
                if Rlt_dec (fitness (best result)) (fitness (best b))
                then result else b
            end in
          let '(recs', r) :=
            restartLoop n' (Some bestResult') geneCount bounds st2 in
          (recs ++ recs', r)
      end
  end.

(** [optimizeWithRestarts]; the result is [bestResult!], which is [null]
    when there was no restart. *)
Definition optimizeWithRestarts (geneCount : nat) (bounds : Bounds)
    (restarts : nat) (st : SeededRandom.t)
    : list GenerationRecord
      * option (option OptimizationResult * SeededRandom.t) :=
  restartLoop restarts None geneCount bounds st.

End Restarts.
End OptimizerRestarts.

(* ================================================================== *)
(** ** Vocabulary of the statements *)
(* ================================================================== *)

Unset Implicit Arguments.

(** The increment of the generator state. *)
Definition c32 : Z := 0x6d2b79f5.

Definition Rsum (l : list R) : R := fold_right Rplus 0 l.

Definition mean (l : list R) : R := Rsum l / INR (List.length l).

(** The latency term of one sensor for a given service rate. *)
Definition latencyTerm (rate : SensorSlotResult -> R) (s : SensorSlotResult) : R :=
  (r_H_l s + r_H_o s + r_H_k s) / rate s * 1000.

(** The rate [calculateGlobalMetrics] divides by. *)
Definition guardedRate (s : SensorSlotResult) : R :=
  if Rgt_dec (arrival_bits s) 0 then arrival_bits s else 100000.

(** The rate [max(A, 10^5)]. *)
Definition flooredRate (s : SensorSlotResult) : R :=
  Rmax (arrival_bits s) 100000.

Definition nonneg_state (s : SensorState) : Prop :=
  0 <= H_l s /\ 0 <= H_o s /\ 0 <= H_k s /\ 0 <= B_u s.

Definition events_ok (ev : Events) : Prop :=
  0 <= ev_arrival ev /\ 0 <= ev_harvest ev /\ 0 < ev_channelGain ev.

(** Parameter ranges of the data model under which the arithmetic of the
    decision engine is defined. *)
Definition wf_policy (a : TSRA.t) : Prop :=
  0 < TSRA.V a /\ 0 < TSRA.tau a /\ 0 < TSRA.bandwidth a
  /\ 0 < theta (TSRA.globalParams a)
  /\ 0 < noise_power_W (TSRA.globalParams a).

Definition wf_sensor (s : SensorConfig) : Prop :=
  0 < delta_cycles_per_bit s /\ 0 <= p_max_W s.

Definition wf_config (c : ExperimentConfig) : Prop :=
  wf_policy (Simulator.tsra c)
  /\ Forall wf_sensor (sensors c)
  /\ Forall (fun s => 0 <= initial_queue_bits s /\ 0 <= battery_J s) (sensors c).

Definition env_ok (env : Simulator.Environment) : Prop :=
  forall slot i,
    events_ok (Simulator.tsraEvents env slot i)
    /\ events_ok (Simulator.ptsraEvents env slot i).

(** A slot result that records no sensor. *)
Definition quiet (r : SlotResult) : Prop :=
  sensor_results r = [] /\ edge_results r = [].

(** A gene list within its bounds, gene by gene. *)
Definition in_bounds (g : list R) (bounds : GeneticOptimizer.Bounds) : Prop :=
  Forall2 (fun x b => fst b <= x <= snd b) g bounds.

Definition ordered_bounds (bounds : GeneticOptimizer.Bounds) : Prop :=
  Forall (fun b => fst b <= snd b) bounds.

(** A Predictive decision that is the Baseline decision: the bit, the
    offload fraction equal to the bit, and the three allocations. *)
Definition same_decision (p b : SlotDecision) : Prop :=
  kappa p = kappa b /\ alpha p = kappaR (kappa b)
  /\ f_u p = f_u b /\ p_u p = p_u b /\ xi_u p = xi_u b.

(** The weight of sensor [s] in state [st] for the edge allocation. *)
Definition weightOf (s : SensorConfig) (st : SensorState) : R :=
  H_k st * priority_weight s.

Definition totalWeightOf (sensors : list SensorConfig) (states : list SensorState) : R :=
  Rsum (map (fun p => weightOf (fst p) (snd p)) (combine sensors states)).

(** The share [xi_u] the specification gives a sensor of weight [w]. *)
Definition shareOf (total : R) (n : nat) (w : R) : R :=
  if Rgt_dec total 0 then w / total else 1 / INR n.

(* ------------------------------------------------------------------ *)
(** *** Concrete inputs used by the examples *)

(** A Baseline slot of one sensor with an empty battery and a backlog of
    3 bits: the policy runs the CPU at [f_u = 1], which costs 1 J. *)
Definition unitPolicy : TSRA.t :=
  {| TSRA.V := 1; TSRA.tau := 1; TSRA.bandwidth := 1;
     TSRA.globalParams :=
       {| gp_delta_cycles_per_bit := 1; theta := 1; noise_power_W := 1;
          tau_s := 1 |} |}.

Definition unitSensor : SensorConfig :=
  {| id := "s1"; J_mean_bits_per_slot := 0; initial_queue_bits := 6;
     battery_J := 0; harvest_mean_J_per_slot := 0; f_max_Hz := 1;
     delta_cycles_per_bit := 1; p_max_W := 0; channel_mean_gain := 1;
     channel_variance := 0; offload_mode := binary; priority_weight := 1 |}.

Definition unitEdge : EdgeServerConfig :=
  {| es_id := "edge-1"; f_k_Hz := 1; es_f_max_Hz := 1; num_cores := 1 |}.

Definition quietEvents : Events :=
  {| ev_arrival := 0; ev_harvest := 0; ev_channelGain := 1 |}.

Definition drainedState : SensorState :=
  {| H_l := 3; H_o := 3; H_k := 0; B_u := 0 |}.

(** One recorded sensor with a backlog of 50000 bits and an arrival of
    50000 bits. *)
Definition halfRateResult : SensorSlotResult :=
  {| r_id := "s2"; r_H_l := 50000; r_H_o := 0; r_H_k := 0; r_alpha := 0;
     local_energy_J := 0; tx_energy_J := 0; p_tx_W := 0; f_cpu_Hz := 0;
     arrival_bits := 50000; harvest_J := 0; r_battery_J := 0 |}.

(** A configuration without sensors, two slots long. *)
Definition noSensorConfig : ExperimentConfig :=
  {| seed := 42; slots := 2; slot_duration_s := 1; bandwidth_Hz := 1000000;
     cfg_V := 10; prediction_horizon := 5;
     optimizer := {| population := 40; generations := 6;
                     mutation_prob := 5 / 100; random_restarts := 3;
                     max_evals := 500 |};
     global_params := {| gp_delta_cycles_per_bit := 1000; theta := 1;
                         noise_power_W := 1; tau_s := 1 |};
     sensors := [];
     edge_servers := [unitEdge] |}.

Definition quietEnvironment : Simulator.Environment :=
  {| Simulator.tsraEvents := fun _ _ => quietEvents;
     Simulator.ptsraEvents := fun _ _ => quietEvents;
     Simulator.noise := fun _ _ _ => (0, 0, 0) |}.

(* ------------------------------------------------------------------ *)
(** *** Vocabulary for the optimizer *)

(** A computation of the optimizer that never throws and whose result
    satisfies [P], whatever the generator state. *)
Definition succeeds {A : Type} (c : GeneticOptimizer.M A) (P : A -> Prop) : Prop :=
  forall st, exists a st', c st = Some (a, st') /\ P a.

(** What the constructor of [GeneticOptimizer] establishes. *)
Definition constructed (o : GeneticOptimizer.t) : Prop :=
  GeneticOptimizer.tournamentSize o = 3%nat
  /\ GeneticOptimizer.eliteCount o
     = Nat.max 2 (GeneticOptimizer.populationSize o / 10).

Definition individual_in_bounds (bounds : GeneticOptimizer.Bounds)
    (ind : GeneticOptimizer.Individual) : Prop :=
  in_bounds (GeneticOptimizer.genes ind) bounds.

(* ------------------------------------------------------------------ *)
(** *** Vocabulary for the Predictive policy *)

(** The rollout of [fitnessFunction] with its battery test taken out. *)
Fixpoint rolloutNoBatteryTest (n h : nat) (alpha f_u p_u : R)
    (sensor : SensorConfig) (predictions : PTSRA.PredictionHorizon)
    (V tau bandwidth : R) (globalParams : GlobalParams)
    (simState : SensorState) (totalCost : R) : R :=
  match n with
  | O => totalCost
  | S n' =>
      let arrival := nth h (PTSRA.arrivals predictions) 0 in
      let harvest := nth h (PTSRA.harvests predictions) 0 in
      let channelGain := nth h (PTSRA.channelGains predictions) 0 in
      let delta := delta_cycles_per_bit sensor in
      let C_l := (f_u * tau) / delta in
      let snr := (p_u * channelGain) / noise_power_W globalParams in
      let C_o := bandwidth * JsMath.log2 (1 + snr) * tau in
      let localEnergy := theta globalParams * f_u ^ 3 * tau in
      let txEnergy := p_u * tau in
      let totalEnergy := localEnergy + txEnergy in
      let effectiveEnergy := Rmax 0 (localEnergy - harvest) in
      let localArrival := (1 - alpha) * arrival in
      let offloadArrival := alpha * arrival in
      let simState' :=
        {| H_l := Rmax 0 (H_l simState - C_l) + localArrival;
           H_o := Rmax 0 (H_o simState - C_o) + offloadArrival;
           H_k := H_k simState;
           B_u := Rmax 0 (B_u simState - effectiveEnergy) + harvest |} in
      let drift := H_l simState' * (localArrival - C_l)
                   + H_o simState' * (offloadArrival - C_o) in
      let slotCost := V * totalEnergy + drift in
      let cost2 := if Rgt_dec f_u (f_max_Hz sensor)
                   then totalCost + 1000000 else totalCost in
      let cost3 := if Rgt_dec p_u (p_max_W sensor)
                   then cost2 + 1000000 else cost2 in
      let discount := (95 / 100) ^ h in
      rolloutNoBatteryTest n' (S h) alpha f_u p_u sensor predictions V tau
        bandwidth globalParams simState' (cost3 + discount * slotCost)
  end.

(** What a Predictive decision reports: the bit is the fraction compared
    with 1/2, and the fraction is in [0, 1]. *)
Definition thresholded (d : SlotDecision) : Prop :=
  (kappa d = K1 <-> alpha d >= 1 / 2)
  /\ (kappa d = K0 <-> alpha d < 1 / 2)
  /\ 0 <= alpha d <= 1.

(** The offload fraction of the best individual of an optimizer run:
    its gene 0. *)
Definition bestOffload (result : GeneticOptimizer.OptimizationResult) : R :=
  nth 0 (GeneticOptimizer.genes (GeneticOptimizer.best result)) 0.

(** A decision for [sensor] that reports the best individual of an
    optimizer run: [alpha] is its gene 0, the bit is 1 exactly when that
    gene is at least 1/2, and the frequency and the power are its genes 1
    and 2 scaled by [f_max] and [p_max]. *)
Definition reports_best (sensor : SensorConfig)
    (result : GeneticOptimizer.OptimizationResult) (d : SlotDecision) : Prop :=
  alpha d = bestOffload result
  /\ (kappa d = K1 <-> bestOffload result >= 1 / 2)
  /\ (kappa d = K0 <-> bestOffload result < 1 / 2)
  /\ f_u d
     = nth 1 (GeneticOptimizer.genes (GeneticOptimizer.best result)) 0
       * f_max_Hz sensor
  /\ p_u d
     = nth 2 (GeneticOptimizer.genes (GeneticOptimizer.best result)) 0
       * p_max_W sensor.

(** The decisions [ds] of a Predictive slot are the optimizer's, sensor by
    sensor from sensor [i] on: once the events of a sensor are recorded,
    [GeneticOptimizer.optimize] is run on the fitness of that sensor in its
    state, over the three genes of [PTSRA.bounds], from the generator the
    sensor before it left; the run returns, the decision reports its best
    individual, and the next sensor goes on from the generator it left. *)
Fixpoint optimizer_decides (this : PTSRA.t) (sensors : list SensorConfig)
    (states : list SensorState) (env : nat -> Events)
    (noise : nat -> nat -> R * R * R) (i : nat) (m : PTSRA.Mem)
    (ds : list SlotDecision) : Prop :=
  match sensors, states, ds with
  | [], _, [] => True
  | sensor :: sensors', state :: states', d :: ds' =>
      let ev := env i in
      let m1 := PTSRA.updateHistory m (id sensor) (ev_arrival ev)
                  (ev_harvest ev) (ev_channelGain ev) in
      let predictions :=
        PTSRA.predictFuture m1 sensor (PTSRA.horizon this) (noise i) in
      exists recs result st',
        GeneticOptimizer.optimize (PTSRA.optimizer this)
          (fun individual =>
             PTSRA.fitnessFunction this individual sensor state predictions
               (TSRA.V (PTSRA.base this)) (TSRA.tau (PTSRA.base this))
               (TSRA.bandwidth (PTSRA.base this))
               (TSRA.globalParams (PTSRA.base this)))
          3 PTSRA.bounds (PTSRA.rng m1)
        = (recs, Some (result, st'))
        /\ reports_best sensor result d
        /\ optimizer_decides this sensors' states' env noise (S i)
             (PTSRA.withRng m1 st') ds'
  | _, _, _ => False
  end.

(** A predictive policy with horizon 1 and a population of two. *)
Definition smallPredictive : PTSRA.t :=
  PTSRA.make 1 1 1
    {| gp_delta_cycles_per_bit := 1; theta := 1; noise_power_W := 1;
       tau_s := 1 |}
    1
    {| population := 2; generations := 0; mutation_prob := 5 / 100;
       random_restarts := 0; max_evals := 0 |}.

(** A predictive policy with horizon 0. *)
Definition fallbackPredictive : PTSRA.t :=
  PTSRA.make 1 1 1
    {| gp_delta_cycles_per_bit := 1; theta := 1; noise_power_W := 1;
       tau_s := 1 |}
    0
    {| population := 2; generations := 0; mutation_prob := 5 / 100;
       random_restarts := 0; max_evals := 0 |}.

Definition quietPrediction : PTSRA.PredictionHorizon :=
  {| PTSRA.arrivals := [0]; PTSRA.harvests := [0];
     PTSRA.channelGains := [1] |}.

(** One sensor, three slots, horizon 1. *)
Definition oneSensorConfig : ExperimentConfig :=
  {| seed := 42; slots := 3; slot_duration_s := 1; bandwidth_Hz := 1;
     cfg_V := 1; prediction_horizon := 1;
     optimizer := {| population := 2; generations := 0;
                     mutation_prob := 5 / 100; random_restarts := 0;
                     max_evals := 0 |};
     global_params := {| gp_delta_cycles_per_bit := 1; theta := 1;
                         noise_power_W := 1; tau_s := 1 |};
     sensors := [unitSensor];
     edge_servers := [unitEdge] |}.

(** Two sensors with equal edge backlog and priority weights 1 and 2. *)
Definition weightedSensor : SensorConfig :=
  {| id := "s2"; J_mean_bits_per_slot := 0; initial_queue_bits := 0;
     battery_J := 0; harvest_mean_J_per_slot := 0; f_max_Hz := 1;
     delta_cycles_per_bit := 1; p_max_W := 0; channel_mean_gain := 1;
     channel_variance := 0; offload_mode := binary; priority_weight := 2 |}.

Definition edgeBacklogState : SensorState :=
  {| H_l := 0; H_o := 0; H_k := 1; B_u := 0 |}.

(** A second sensor under the id ["s1"], with priority weight 3. *)
Definition sharedIdSensor : SensorConfig :=
  {| id := "s1"; J_mean_bits_per_slot := 0; initial_queue_bits := 0;
     battery_J := 0; harvest_mean_J_per_slot := 0; f_max_Hz := 1;
     delta_cycles_per_bit := 1; p_max_W := 0; channel_mean_gain := 1;
     channel_variance := 0; offload_mode := binary; priority_weight := 3 |}.

(** Arrivals, harvests, initial queues and initial batteries that are not
    negative. *)
Definition nonneg_inputs (config : ExperimentConfig)
    (env : Simulator.Environment) : Prop :=
  Forall (fun s => 0 <= initial_queue_bits s /\ 0 <= battery_J s)
         (sensors config)
  /\ forall slot i,
       0 <= ev_arrival (Simulator.tsraEvents env slot i)
       /\ 0 <= ev_harvest (Simulator.tsraEvents env slot i)
       /\ 0 <= ev_arrival (Simulator.ptsraEvents env slot i)
       /\ 0 <= ev_harvest (Simulator.ptsraEvents env slot i).

(** An idle sensor whose maximal power is negative, and a configuration of
    one slot with that sensor alone: horizon 1, a population of two, no
    generation. *)
Definition negativePowerSensor : SensorConfig :=
  {| id := "s1"; J_mean_bits_per_slot := 0; initial_queue_bits := 0;
     battery_J := 0; harvest_mean_J_per_slot := 0; f_max_Hz := 1;
     delta_cycles_per_bit := 1; p_max_W := - (1 / 2); channel_mean_gain := 1;
     channel_variance := 0; offload_mode := binary; priority_weight := 1 |}.

Definition negativePowerConfig : ExperimentConfig :=
  {| seed := 42; slots := 1; slot_duration_s := 1; bandwidth_Hz := 1;
     cfg_V := 1; prediction_horizon := 1;
     optimizer := {| population := 2; generations := 0;
                     mutation_prob := 5 / 100; random_restarts := 0;
                     max_evals := 0 |};
     global_params := {| gp_delta_cycles_per_bit := 1; theta := 1;
                         noise_power_W := 1; tau_s := 1 |};
     sensors := [negativePowerSensor];
     edge_servers := [unitEdge] |}.

(* ------------------------------------------------------------------ *)
(** *** Vocabulary for the event generators *)

(** The number of iterations that the loop of [poisson] never exceeds:
    [30 * 2^32]. *)
Definition poissonFuel : nat := Z.to_nat 128849018880.

Definition nonneg_opt (x : option R) : Prop :=
  match x with
  | Some v => 0 <= v
  | None => True
  end.

(** Arrival and harvest models whose sizes are not negative. *)
Definition nonneg_models (s : SensorSpec) : Prop :=
  0 <= J_mean_bits_per_slot (spec_config s)
  /\ 0 <= harvest_mean_J_per_slot (spec_config s)
  /\ nonneg_opt (value_bits (arrival_model s))
  /\ nonneg_opt (min_bits (arrival_model s))
  /\ nonneg_opt (max_bits (arrival_model s))
  /\ nonneg_opt (value_J (harvest_model s)).

(** A sensor with a fixed arrival of its mean size and a constant
    harvest. *)
Definition steadySpec : SensorSpec :=
  {| spec_config := unitSensor;
     arrival_model :=
       {| arrival_type := fixed_arrival; lambda := None; value_bits := None;
          min_bits := None; max_bits := None |};
     harvest_model :=
       {| harvest_type := constant_harvest; hm_p := None; value_J := None;
          mean_J := None; std_J := None |} |}.

(** A seed whose first [random()] is exactly 0. *)
Definition zeroDrawSeed : Z := 2463401483.

(** A field of the random sensor: the default when one is given, a value
    drawn between [a] and [b] otherwise. *)
Definition drawn_or_given (x : option R) (a b v : R) : Prop :=
  match x with
  | Some d => v = d
  | None => a <= v <= b
  end.

(* ------------------------------------------------------------------ *)
(** *** Vocabulary for the runs of the optimizer *)

(** An individual whose recorded fitness is the fitness of its genes. *)
Definition evaluated_by (f : list R -> R) (ind : GeneticOptimizer.Individual)
    : Prop :=
  GeneticOptimizer.fitness ind = f (GeneticOptimizer.genes ind).

(** Bounds that leave every gene a range: [min < max]. *)
Definition strict_bounds (bounds : GeneticOptimizer.Bounds) : Prop :=
  Forall (fun b => fst b < snd b) bounds.

(** [Math.ceil(generations / 2)] *)
Definition halfGenerations (o : GeneticOptimizer.t) : nat :=
  (GeneticOptimizer.generations o + 1) / 2.

(** An optimizer of two individuals and four generations, one of one
    individual and three generations, and a single gene in [0, 1]. *)
Definition pairOptimizer : GeneticOptimizer.t :=
  GeneticOptimizer.make 2 4 (5 / 100).

Definition loneOptimizer : GeneticOptimizer.t :=
  GeneticOptimizer.make 1 3 (5 / 100).

Definition unitBounds : GeneticOptimizer.Bounds := [(0, 1)].

(* ------------------------------------------------------------------ *)
(** *** Vocabulary for the histories and the predictions *)

(** The last [n] elements of a list. *)
Definition lastn {A : Type} (n : nat) (l : list A) : list A :=
  skipn (List.length l - n) l.

(** The observations of sensor [sid] among a sequence of observations,
    oldest first. *)
Definition observationsOf (sid : string) (obs : list (string * Events))
    : list Events :=
  map snd (filter (fun o => String.eqb (fst o) sid) obs).

(** [updateHistory] called once per observation, in order. *)
Definition recordAll (m : PTSRA.Mem) (obs : list (string * Events))
    : PTSRA.Mem :=
  fold_left
    (fun m o =>
       PTSRA.updateHistory m (fst o) (ev_arrival (snd o)) (ev_harvest (snd o))
         (ev_channelGain (snd o)))
    obs m.

(** Values of [Math.random()]: three numbers in [0, 1) per step. *)
Definition noise_ok (noise : nat -> R * R * R) : Prop :=
  forall h, let '(r1, r2, r3) := noise h in
            0 <= r1 < 1 /\ 0 <= r2 < 1 /\ 0 <= r3 < 1.

(** A prediction that is [e] scaled by a factor between [lo] and [hi]. *)
Definition scaled_by (e lo hi x : R) : Prop :=
  exists k, lo <= k <= hi /\ x = e * k.

(** The rollout of [fitnessFunction] without any of its three penalties:
    the discounted sum of the slot costs. *)
Fixpoint rolloutCost (n h : nat) (alpha f_u p_u : R)
    (sensor : SensorConfig) (predictions : PTSRA.PredictionHorizon)
    (V tau bandwidth : R) (globalParams : GlobalParams)
    (simState : SensorState) (totalCost : R) : R :=
  match n with
  | O => totalCost
  | S n' =>
      let arrival := nth h (PTSRA.arrivals predictions) 0 in
      let harvest := nth h (PTSRA.harvests predictions) 0 in
      let channelGain := nth h (PTSRA.channelGains predictions) 0 in
      let delta := delta_cycles_per_bit sensor in
      let C_l := (f_u * tau) / delta in
      let snr := (p_u * channelGain) / noise_power_W globalParams in
      let C_o := bandwidth * JsMath.log2 (1 + snr) * tau in
      let localEnergy := theta globalParams * f_u ^ 3 * tau in
      let txEnergy := p_u * tau in
      let totalEnergy := localEnergy + txEnergy in
      let effectiveEnergy := Rmax 0 (localEnergy - harvest) in
      let localArrival := (1 - alpha) * arrival in
      let offloadArrival := alpha * arrival in
      let simState' :=
        {| H_l := Rmax 0 (H_l simState - C_l) + localArrival;
           H_o := Rmax 0 (H_o simState - C_o) + offloadArrival;
           H_k := H_k simState;
           B_u := Rmax 0 (B_u simState - effectiveEnergy) + harvest |} in
      let drift := H_l simState' * (localArrival - C_l)
                   + H_o simState' * (offloadArrival - C_o) in
      let slotCost := V * totalEnergy + drift in
      let discount := (95 / 100) ^ h in
      rolloutCost n' (S h) alpha f_u p_u sensor predictions V tau
        bandwidth globalParams simState' (totalCost + discount * slotCost)
  end.

(** Three observations of sensor ["s1"]. *)
Definition threeObservations : list (string * Events) :=
  [("s1"%string, quietEvents); ("s2"%string, quietEvents);
   ("s1"%string, quietEvents)].

(* ------------------------------------------------------------------ *)
(** *** Vocabulary for the runs of the driver *)

(** A slot result of policy [alg] with one record and one edge allocation
    per sensor of the configuration, in the order of the sensors. *)
Definition records_sensors (config : ExperimentConfig) (alg : Algorithm)
    (r : SlotResult) : Prop :=
  algorithm r = alg
  /\ map r_id (sensor_results r) = map id (sensors config)
  /\ map sensor_id (edge_results r) = map id (sensors config).

(** The log entries the Predictive policy issues for one sensor in one
    slot: one per generation the optimizer runs, none without a horizon. *)
Definition logsPerSensor (this : PTSRA.t) : nat :=
  if Nat.ltb 0 (PTSRA.horizon this)
  then halfGenerations (PTSRA.optimizer this) else 0%nat.

(** A record with queues and energies that are not negative. *)
Definition nonneg_record (s : SensorSlotResult) : Prop :=
  0 <= r_H_l s /\ 0 <= r_H_o s /\ 0 <= r_H_k s
  /\ 0 <= local_energy_J s /\ 0 <= tx_energy_J s.

(** The configuration of one sensor without its edge server. *)
Definition noEdgeConfig : ExperimentConfig :=
  {| seed := 42; slots := 3; slot_duration_s := 1; bandwidth_Hz := 1;
     cfg_V := 1; prediction_horizon := 1;
     optimizer := {| population := 2; generations := 0;
                     mutation_prob := 5 / 100; random_restarts := 0;
                     max_evals := 0 |};
     global_params := {| gp_delta_cycles_per_bit := 1; theta := 1;
                         noise_power_W := 1; tau_s := 1 |};
     sensors := [unitSensor];
     edge_servers := [] |}.

(** The configuration of one sensor with an optimizer of one individual
    and three generations. *)
Definition lonePopulationConfig : ExperimentConfig :=
  {| seed := 42; slots := 3; slot_duration_s := 1; bandwidth_Hz := 1;
     cfg_V := 1; prediction_horizon := 1;
     optimizer := {| population := 1; generations := 3;
                     mutation_prob := 5 / 100; random_restarts := 0;
                     max_evals := 0 |};
     global_params := {| gp_delta_cycles_per_bit := 1; theta := 1;
                         noise_power_W := 1; tau_s := 1 |};
     sensors := [unitSensor];
     edge_servers := [unitEdge] |}.

(** The sensor ["s1"] with other means. *)
Definition weightedSensorTwin : SensorConfig :=
  {| id := "s1"; J_mean_bits_per_slot := 100000; initial_queue_bits := 6;
     battery_J := 0; harvest_mean_J_per_slot := 1 / 100; f_max_Hz := 1;
     delta_cycles_per_bit := 1; p_max_W := 0;
     channel_mean_gain := / 1000000; channel_variance := 0;
     offload_mode := binary; priority_weight := 1 |}.

(* ================================================================== *)
(** ** The generator: refinement of Mulberry32, range of the draws *)
(* ================================================================== *)

Module RandomFacts.
Import JsInt.
Local Open Scope Z_scope.
Lemma two32_pow : two32 = 2 ^ 32.
Proof. reflexivity. Qed.

Lemma ToUint32_range x : 0 <= ToUint32 x < two32.
Proof. unfold ToUint32. apply Z.mod_pos_bound. reflexivity. Qed.

Lemma ToInt32_range x : - two31 <= ToInt32 x < two31.
Proof.
  unfold ToInt32. pose proof (ToUint32_range x) as H. unfold ToUint32 in H.
  destruct (Z.ltb_spec (x mod two32) two31); unfold two31, two32 in *; lia.
Qed.

Lemma ToUint32_ToInt32 x : ToUint32 (ToInt32 x) = ToUint32 x.
Proof.
  unfold ToInt32, ToUint32.
  destruct (Z.ltb_spec (x mod two32) two31).
  - apply Z.mod_mod. discriminate.
  - replace (x mod two32 - two32) with (x mod two32 + (-1) * two32) by ring.
    rewrite Z.mod_add by discriminate. apply Z.mod_mod. discriminate.
Qed.

Lemma ToUint32_idem x : ToUint32 (ToUint32 x) = ToUint32 x.
Proof. unfold ToUint32. apply Z.mod_mod. discriminate. Qed.

Lemma ToUint32_small x : 0 <= x < two32 -> ToUint32 x = x.
Proof. intros. unfold ToUint32. apply Z.mod_small. assumption. Qed.

Lemma lxor_mod a b :
  Z.lxor a b mod two32 = Z.lxor (a mod two32) (b mod two32).
Proof.
  rewrite two32_pow. apply Z.bits_inj'. intros n Hn.
  rewrite Z.lxor_spec, !Z.testbit_mod_pow2, Z.lxor_spec by lia.
  destruct (n <? 32); simpl; reflexivity.
Qed.

Lemma lor_mod a b :
  Z.lor a b mod two32 = Z.lor (a mod two32) (b mod two32).
Proof.
  rewrite two32_pow. apply Z.bits_inj'. intros n Hn.
  rewrite Z.lor_spec, !Z.testbit_mod_pow2, Z.lor_spec by lia.
  destruct (n <? 32); simpl; reflexivity.
Qed.

Lemma ToUint32_xor a b :
  ToUint32 (xor a b) = Z.lxor (ToUint32 a) (ToUint32 b).
Proof.
  unfold xor. unfold ToUint32 at 1. rewrite lxor_mod.
  fold (ToUint32 (ToInt32 a)). fold (ToUint32 (ToInt32 b)).
  now rewrite !ToUint32_ToInt32.
Qed.

Lemma ToUint32_or a b :
  ToUint32 (or a b) = Z.lor (ToUint32 a) (ToUint32 b).
Proof.
  unfold or. unfold ToUint32 at 1. rewrite lor_mod.
  fold (ToUint32 (ToInt32 a)). fold (ToUint32 (ToInt32 b)).
  now rewrite !ToUint32_ToInt32.
Qed.

Lemma ToUint32_imul a b :
  ToUint32 (imul a b) = (ToUint32 a * ToUint32 b) mod two32.
Proof.
  unfold imul. rewrite ToUint32_ToInt32. unfold ToUint32 at 1.
  rewrite Z.mul_mod by discriminate.
  fold (ToUint32 (ToInt32 a)). fold (ToUint32 (ToInt32 b)).
  now rewrite !ToUint32_ToInt32.
Qed.

Lemma shiftr_range s n : 0 <= s < two32 -> 0 <= n -> 0 <= Z.shiftr s n < two32.
Proof.
  intros Hs Hn. rewrite Z.shiftr_div_pow2 by assumption.
  assert (0 < 2 ^ n) by (apply Z.pow_pos_nonneg; lia).
  split.
  - apply Z.div_pos; lia.
  - apply Z.le_lt_trans with s; [|lia]. apply Z.div_le_upper_bound; nia.
Qed.

Lemma ToUint32_ushr a n :
  0 <= n < 32 -> ToUint32 (ushr a n) = Z.shiftr (ToUint32 a) n.
Proof.
  intros Hn. unfold ushr. rewrite (Z.mod_small n 32) by lia.
  apply ToUint32_small. apply shiftr_range; [apply ToUint32_range | lia].
Qed.

Lemma fl53_small z : Z.abs z < two53 -> fl53 z = z.
Proof.
  intros H. unfold fl53. cbv zeta.
  destruct (Z.ltb_spec (Z.abs z) two53); [reflexivity | lia].
Qed.

Lemma add_int32 a b :
  - two31 <= a < two31 -> - two31 <= b < two31 -> add a b = a + b.
Proof.
  intros Ha Hb. unfold add. apply fl53_small.
  unfold two31, two53 in *. lia.
Qed.

Lemma ToUint32_plus a b : ToUint32 (a + b) = (ToUint32 a + ToUint32 b) mod two32.
Proof. unfold ToUint32. apply Z.add_mod. discriminate. Qed.

Lemma imul_range a b : - two31 <= imul a b < two31.
Proof. apply ToInt32_range. Qed.

(** The bit mixing of [random()] on a state [s] (after the increment): it
    is Mulberry32's mixing of the low 32 bits of [s]. *)
Lemma mix_refines s :
  let t0 := s in
  let t1 := imul (xor t0 (ushr t0 15)) (or t0 1) in
  let t2 := xor t1 (add t1 (imul (xor t1 (ushr t1 7)) (or t1 61))) in
  ToUint32 (xor t2 (ushr t2 14)) = Mulberry32.mix (ToUint32 s).
Proof.
  intros t0 t1 t2. unfold Mulberry32.mix. fold two32. change Mulberry32.M with two32.
  set (u := ToUint32 s).
  assert (H1 : ToUint32 t1 = (Z.lxor u (Z.shiftr u 15) * Z.lor u 1) mod two32).
  { unfold t1, t0. rewrite ToUint32_imul, ToUint32_xor, ToUint32_or, ToUint32_ushr by lia.
    fold u. rewrite (ToUint32_small 1) by (unfold two32; lia). reflexivity. }
  assert (H2 : ToUint32 t2 =
               Z.lxor (ToUint32 t1)
                 ((ToUint32 t1 + (Z.lxor (ToUint32 t1) (Z.shiftr (ToUint32 t1) 7)
                    * Z.lor (ToUint32 t1) 61) mod two32) mod two32)).
  { unfold t2. rewrite ToUint32_xor. f_equal.
    rewrite add_int32; [| apply imul_range | apply imul_range ].
    rewrite ToUint32_plus, ToUint32_imul, ToUint32_xor, ToUint32_or, ToUint32_ushr by lia.
    rewrite (ToUint32_small 61) by (unfold two32; lia). reflexivity. }
  rewrite ToUint32_xor, ToUint32_ushr by lia.
  rewrite H2, H1. reflexivity.
Qed.

(** Below 2^53 the state increment is exact and one call of [random()] is
    one step of Mulberry32 on the low 32 bits of the state. *)
Lemma random_bits_refines st :
  0 <= st -> st + c32 < two53 ->
  SeededRandom.random_bits st
  = (Mulberry32.mix (Mulberry32.step (ToUint32 st)), st + c32).
Proof.
  intros H0 H1. unfold SeededRandom.random_bits.
  assert (Hadd : add st 0x6d2b79f5 = st + c32).
  { unfold add. apply fl53_small. unfold c32 in *. lia. }
  rewrite Hadd. cbv zeta. f_equal.
  rewrite (mix_refines (st + c32)). f_equal.
  unfold Mulberry32.step. change Mulberry32.M with two32.
  unfold ToUint32, c32. rewrite Z.add_mod_idemp_l by discriminate. reflexivity.
Qed.

Lemma nth_state_exact n st :
  0 <= st -> st + Z.of_N n * c32 < two53 ->
  SeededRandom.nth_state n st = st + Z.of_N n * c32.
Proof.
  intros H0. unfold SeededRandom.nth_state.
  induction n as [|n IH] using N.peano_ind; intros H.
  - simpl. lia.
  - rewrite N.iter_succ. rewrite N2Z.inj_succ in *.
    assert (Hc : 0 < c32) by reflexivity.
    rewrite IH by nia.
    rewrite random_bits_refines by nia. simpl. lia.
Qed.

Lemma Mulberry32_nth_state n a :
  Mulberry32.nth_state n a mod two32 = (a + Z.of_N n * c32) mod two32.
Proof.
  unfold Mulberry32.nth_state.
  induction n as [|n IH] using N.peano_ind.
  - simpl. f_equal. ring.
  - rewrite N.iter_succ, N2Z.inj_succ. unfold Mulberry32.step at 1.
    change Mulberry32.M with two32. rewrite Z.mod_mod by discriminate.
    rewrite <- Z.add_mod_idemp_l by discriminate. rewrite IH.
    rewrite Z.add_mod_idemp_l by discriminate. f_equal. unfold c32. ring.
Qed.

Lemma step_mod a : Mulberry32.step (a mod two32) = Mulberry32.step a.
Proof.
  unfold Mulberry32.step. change Mulberry32.M with two32.
  now rewrite Z.add_mod_idemp_l by discriminate.
Qed.

(** Refinement: as long as the state stays below 2^53, every draw is the
    draw of Mulberry32. *)
Lemma draws_agree_below_two53 seed n :
  ToUint32 seed + (Z.of_N n + 1) * c32 < two53 ->
  SeededRandom.nth_draw n (SeededRandom.make seed)
  = Mulberry32.nth_draw n (SeededRandom.make seed).
Proof.
  intros H. unfold SeededRandom.nth_draw, Mulberry32.nth_draw, SeededRandom.make.
  pose proof (ToUint32_range seed) as Hr.
  assert (Hc : 0 < c32) by reflexivity.
  rewrite nth_state_exact by nia.
  rewrite random_bits_refines by nia. simpl. f_equal.
  unfold ToUint32 at 1. rewrite <- Mulberry32_nth_state.
  rewrite step_mod. reflexivity.
Qed.

Lemma random_bits_range st : 0 <= fst (SeededRandom.random_bits st) < two32.
Proof. unfold SeededRandom.random_bits. simpl. apply ToUint32_range. Qed.

Lemma first_draw_seed0 :
  SeededRandom.random_bits (SeededRandom.make 0) = (1144304738, 1831565813).
Proof. vm_compute. reflexivity. Qed.

Local Open Scope R_scope.

Lemma random_value st :
  fst (SeededRandom.random st)
  = IZR (fst (SeededRandom.random_bits st)) / 4294967296.
Proof.
  unfold SeededRandom.random. destruct (SeededRandom.random_bits st). reflexivity.
Qed.

Lemma random_state st :
  snd (SeededRandom.random st) = snd (SeededRandom.random_bits st).
Proof.
  unfold SeededRandom.random. destruct (SeededRandom.random_bits st). reflexivity.
Qed.

(** Every value of [random()] lies in [0, 1). *)
Lemma random_unit_interval st : 0 <= fst (SeededRandom.random st) < 1.
Proof.
  rewrite random_value.
  pose proof (random_bits_range st) as [Hlo Hhi].
  apply IZR_le in Hlo. apply IZR_lt in Hhi. unfold two32 in Hhi.
  split.
  - apply Rmult_le_pos; [exact Hlo | lra].
  - apply Rmult_lt_reg_r with 4294967296; [lra|].
    unfold Rdiv. rewrite Rmult_assoc, Rinv_l by lra. lra.
Qed.

Lemma uniform_value a b st :
  fst (SeededRandom.uniform a b st)
  = fst (SeededRandom.random st) * (b - a) + a.
Proof.
  unfold SeededRandom.uniform. destruct (SeededRandom.random st). reflexivity.
Qed.

Lemma uniform_state a b st :
  snd (SeededRandom.uniform a b st) = snd (SeededRandom.random st).
Proof.
  unfold SeededRandom.uniform. destruct (SeededRandom.random st). reflexivity.
Qed.

Lemma uniform_bits a b st :
  SeededRandom.uniform a b st
  = (IZR (fst (SeededRandom.random_bits st)) / 4294967296 * (b - a) + a,
     snd (SeededRandom.random_bits st)).
Proof.
  unfold SeededRandom.uniform, SeededRandom.random.
  destruct (SeededRandom.random_bits st). reflexivity.
Qed.

(** With ordered bounds, [uniform(min, max)] stays within them. *)
Lemma uniform_in_range a b st :
  a <= b -> a <= fst (SeededRandom.uniform a b st) <= b.
Proof.
  intros Hab. rewrite uniform_value.
  pose proof (random_unit_interval st) as [H0 H1]. nra.
Qed.

Lemma nth_draw_exact n st :
  (0 <= st)%Z -> (st + Z.of_N n * c32 < two53)%Z ->
  SeededRandom.nth_draw n st
  = fst (SeededRandom.random_bits (st + Z.of_N n * c32)%Z).
Proof.
  intros H0 H1. unfold SeededRandom.nth_draw.
  rewrite (nth_state_exact n st H0 H1). reflexivity.
Qed.

Lemma Mulberry32_nth_draw n a :
  Mulberry32.nth_draw n a
  = Mulberry32.mix (Mulberry32.step ((a + Z.of_N n * c32) mod two32)%Z).
Proof.
  unfold Mulberry32.nth_draw, Mulberry32.next. cbn [fst].
  rewrite <- (step_mod (Mulberry32.nth_state n a)), Mulberry32_nth_state.
  reflexivity.
Qed.

(** C2: the draws of [random()] leave the Mulberry32 sequence.  With seed 0
    the state is 9007197429407254 before call number 4917758 (counted
    from 0); the double addition [state += 0x6d2b79f5] rounds the odd sum
    9007199260973067, which is above 2^53, to 9007199260973068, and the
    call returns 2430946484 / 2^32 where Mulberry32 gives
    3767445004 / 2^32. *)
Theorem random_leaves_Mulberry32 :
  SeededRandom.nth_state 4917758 (SeededRandom.make 0) = 9007197429407254%Z
  /\ SeededRandom.random_bits 9007197429407254%Z
     = (2430946484%Z, 9007199260973068%Z)
  /\ SeededRandom.nth_draw 4917758 (SeededRandom.make 0) = 2430946484%Z
  /\ Mulberry32.nth_draw 4917758 (SeededRandom.make 0) = 3767445004%Z.
Proof.
  split; [| split; [| split]].
  - rewrite nth_state_exact.
    + vm_compute. reflexivity.
    + vm_compute. congruence.
    + vm_compute. reflexivity.
  - vm_compute. reflexivity.
  - rewrite nth_draw_exact.
    + vm_compute. reflexivity.
    + vm_compute. congruence.
    + vm_compute. reflexivity.
  - rewrite Mulberry32_nth_draw. vm_compute. reflexivity.
Qed.

(** C9, as the code has it: for [a > b], [uniform(a, b)] is
    [a - r * (a - b)] for the draw [r] of [random()], a value in (b, a];
    the call consumes exactly that one draw. *)
Theorem uniform_reversed_range a b st :
  a > b ->
  fst (SeededRandom.uniform a b st) = a - fst (SeededRandom.random st) * (a - b)
  /\ b < fst (SeededRandom.uniform a b st) <= a
  /\ snd (SeededRandom.uniform a b st) = snd (SeededRandom.random st).
Proof.
  intros Hab. rewrite uniform_value, uniform_state.
  pose proof (random_unit_interval st) as [H0 H1].
  repeat split; try nra.
Qed.

Lemma uniform_reversed_range_witness :
  1 > 0
  /\ 0 < fst (SeededRandom.uniform 1 0 (SeededRandom.make 0)) <= 1.
Proof.
  split; [lra|].
  apply (uniform_reversed_range 1 0 (SeededRandom.make 0)). lra.
Defined.

(** C9 as stated fails: [uniform(1, 0)] from seed 0 is not 1. *)
Lemma uniform_reversed_not_first_bound :
  ~ (forall a b st, a > b -> fst (SeededRandom.uniform a b st) = a).
Proof.
  intros H. specialize (H 1 0 (SeededRandom.make 0)).
  rewrite uniform_value, random_value, first_draw_seed0 in H. cbn [fst] in H.
  lra.
Qed.

End RandomFacts.

(* ================================================================== *)
(** ** The battery recurrence (both policies) *)
(* ================================================================== *)

Module BatteryFacts.









End BatteryFacts.

(* ================================================================== *)
(** ** The driver: global metrics, runs without sensors *)
(* ================================================================== *)

Module SimulatorFacts.

Lemma accumulate_sums l a b c :
  fold_left Simulator.accumulate l (a, b, c)
  = (a + Rsum (map (fun s => r_H_l s + r_H_o s + r_H_k s) l),
     b + Rsum (map (fun s => local_energy_J s + tx_energy_J s) l),
     c + Rsum (map (latencyTerm guardedRate) l)).
Proof.
  revert a b c. induction l as [|s l IH]; intros a b c.
  - cbn. f_equal; [f_equal|]; lra.
  - cbn [fold_left map]. unfold Simulator.accumulate at 2.
    rewrite IH. unfold Rsum. cbn [fold_right].
    unfold latencyTerm at 2, guardedRate at 2.
    f_equal; [f_equal|]; lra.
Qed.

(** C8, as the code has it: the average latency is the mean over the
    sensors of [(H_l + H_o + H_k) / rate * 1000] where the rate is the
    arrival [A] when [A > 0] and 10^5 otherwise; with no sensor it is NaN. *)
Theorem avg_latency_guarded results edge :
  avg_latency_ms (Simulator.calculateGlobalMetrics results edge)
  = match results with
    | [] => None
    | _ :: _ => Some (mean (map (latencyTerm guardedRate) results))
    end.
Proof.
  unfold Simulator.calculateGlobalMetrics.
  rewrite accumulate_sums. cbn [avg_latency_ms].
  destruct results as [|s l]; [reflexivity|].
  f_equal. unfold mean. rewrite length_map. f_equal. lra.
Qed.

(** C8 as stated fails: a sensor with 50000 bits of backlog and an arrival
    of 50000 bits has latency 1000 ms, not 50000 / max(50000, 10^5) * 1000
    = 500 ms. *)
Lemma avg_latency_not_floored :
  ~ (forall results edge,
       results <> [] ->
       avg_latency_ms (Simulator.calculateGlobalMetrics results edge)
       = Some (mean (map (latencyTerm flooredRate) results))).
Proof.
  intros H. specialize (H [halfRateResult] []).
  rewrite avg_latency_guarded in H.
  assert (Hne : [halfRateResult] <> []) by discriminate.
  specialize (H Hne). injection H as H.
  unfold mean, Rsum, latencyTerm, guardedRate, flooredRate in H.
  cbn in H.
  destruct (Rgt_dec 50000 0) as [_|n]; [|lra].
  rewrite Rmax_right in H by lra. lra.
Qed.

Section NoSensors.
Variable config : ExperimentConfig.
Variable env : Simulator.Environment.
Hypothesis no_sensors : sensors config = [].

Lemma slotBody_no_sensors slot run :
  Simulator.slotBody config env slot run
  = {| Simulator.state :=
         {| status := running; current_slot := slot;
            total_slots := total_slots (Simulator.state run);
            tsra_results :=
              tsra_results (Simulator.state run)
              ++ [Simulator.slotResultOf slot TSRA.emptyOutput TSRA_tag];
            ptsra_results :=
              ptsra_results (Simulator.state run)
              ++ [Simulator.slotResultOf slot TSRA.emptyOutput PTSRA_tag];
            optimizer_log := optimizer_log (Simulator.state run) ++ [] |};
       Simulator.tsraStates := [];
       Simulator.ptsraStates := [];
       Simulator.ptsraMem := Simulator.ptsraMem run |}.
Proof.
  unfold Simulator.slotBody. rewrite no_sensors. reflexivity.
Qed.

Lemma slotLoop_no_sensors n :
  forall slot run,
    let run' := Simulator.slotLoop config env n slot run in
    status (Simulator.state run') = status (Simulator.state run)
       \/ (n <> O /\ status (Simulator.state run') = running).
Proof.
  induction n as [|n IH]; intros slot run; cbn.
  - left. reflexivity.
  - rewrite slotBody_no_sensors. cbn [status Simulator.state].
    right. split; [discriminate|].
    match goal with |- status (Simulator.state (Simulator.slotLoop _ _ _ _ ?r)) = _ =>
      destruct (IH (S slot) r) as [H | [_ H]]; rewrite H; reflexivity end.
Qed.

Lemma slotLoop_no_sensors_results n :
  forall slot run,
    let run' := Simulator.slotLoop config env n slot run in
    List.length (tsra_results (Simulator.state run'))
      = (List.length (tsra_results (Simulator.state run)) + n)%nat
    /\ List.length (ptsra_results (Simulator.state run'))
      = (List.length (ptsra_results (Simulator.state run)) + n)%nat
    /\ (optimizer_log (Simulator.state run) = [] ->
        optimizer_log (Simulator.state run') = [])
    /\ (Forall quiet (tsra_results (Simulator.state run)) ->
        Forall quiet (tsra_results (Simulator.state run')))
    /\ (Forall quiet (ptsra_results (Simulator.state run)) ->
        Forall quiet (ptsra_results (Simulator.state run'))).
Proof.
  induction n as [|n IH]; intros slot run; cbn zeta.
  - cbn. repeat split; auto.
  - cbn [Simulator.slotLoop]. rewrite slotBody_no_sensors.
    cbn [status Simulator.state].
    match goal with |- context [Simulator.slotLoop _ _ _ _ ?r] =>
      specialize (IH (S slot) r) end.
    cbn zeta in IH. cbn [Simulator.state tsra_results ptsra_results optimizer_log] in IH.
    destruct IH as (H1 & H2 & H3 & H4 & H5).
    rewrite H1, H2, !length_app. cbn [List.length].
    repeat split; try lia.
    + intros E. apply H3. rewrite E. reflexivity.
    + intros F. apply H4. apply Forall_app. split; [exact F|].
      constructor; [split; reflexivity | constructor].
    + intros F. apply H5. apply Forall_app. split; [exact F|].
      constructor; [split; reflexivity | constructor].
Qed.

End NoSensors.

(** C6, as the code has it: [runSimulation] has no entry check.  With an
    empty sensor list it executes all [config.slots] slots, records for
    each slot and each policy a result without sensors, logs nothing and
    returns with status [completed]. *)
Theorem empty_sensor_list_runs config env :
  sensors config = [] ->
  let s := Simulator.runSimulation config env in
  status s = completed
  /\ List.length (tsra_results s) = slots config
  /\ List.length (ptsra_results s) = slots config
  /\ optimizer_log s = []
  /\ Forall quiet (tsra_results s ++ ptsra_results s).
Proof.
  intros Hs. cbn zeta. unfold Simulator.runSimulation.
  pose proof (slotLoop_no_sensors config env Hs (slots config) 0
                (Simulator.initialRun config)) as Hst.
  pose proof (slotLoop_no_sensors_results config env Hs (slots config) 0
                (Simulator.initialRun config)) as Hres.
  cbn zeta in Hst, Hres.
  set (run := Simulator.slotLoop config env (slots config) 0
                (Simulator.initialRun config)) in *.
  assert (Hrun : status (Simulator.state run) = running).
  { destruct Hst as [H | [_ H]]; [rewrite H; reflexivity | exact H]. }
  unfold Simulator.finish. rewrite Hrun.
  cbn [status tsra_results ptsra_results optimizer_log].
  destruct Hres as (H1 & H2 & H3 & H4 & H5).
  cbn in H1, H2.
  repeat split; auto.
  apply Forall_app. split; [apply H4 | apply H5]; constructor.
Qed.

Lemma empty_sensor_list_runs_witness :
  sensors noSensorConfig = []
  /\ status (Simulator.runSimulation noSensorConfig quietEnvironment) = completed
  /\ List.length
       (tsra_results (Simulator.runSimulation noSensorConfig quietEnvironment))
     = 2%nat.
Proof.
  split; [reflexivity|].
  pose proof (empty_sensor_list_runs noSensorConfig quietEnvironment eq_refl) as H.
  cbn zeta in H. destruct H as (H1 & H2 & _). split; [exact H1 | exact H2].
Defined.

(** C6 as stated fails: a run without sensors is not rejected; both slots
    are executed and the status is [completed]. *)
Lemma empty_sensor_list_not_rejected :
  status (Simulator.runSimulation noSensorConfig quietEnvironment) = completed
  /\ status (Simulator.runSimulation noSensorConfig quietEnvironment) <> error
  /\ List.length
       (tsra_results (Simulator.runSimulation noSensorConfig quietEnvironment))
     = 2%nat
  /\ List.length
       (ptsra_results (Simulator.runSimulation noSensorConfig quietEnvironment))
     = 2%nat.
Proof.
  assert (H : status (Simulator.runSimulation noSensorConfig quietEnvironment)
              = completed) by reflexivity.
  repeat split; try reflexivity.
  rewrite H. discriminate.
Qed.

End SimulatorFacts.

(* ================================================================== *)
(** ** Sub-problem 4: the edge allocation *)
(* ================================================================== *)

Module JsMapFacts.
Section Facts.
Variable V : Type.
Implicit Types (m : JsMap.t V) (k : string) (v : V).

Lemma get_set_same m k v : JsMap.get (JsMap.set m k v) k = Some v.
Proof.
  induction m as [|[k' v'] m IH]; cbn.
  - now rewrite String.eqb_refl.
  - destruct (String.eqb k k') eqn:E; cbn; rewrite E; [reflexivity | exact IH].
Qed.

Lemma get_set_other m k k' v :
  k' <> k -> JsMap.get (JsMap.set m k v) k' = JsMap.get m k'.
Proof.
  intros Hne. induction m as [|[k0 v0] m IH]; cbn.
  - destruct (String.eqb k' k) eqn:E; [|reflexivity].
    apply String.eqb_eq in E. contradiction.
  - destruct (String.eqb k k0) eqn:E; cbn.
    + apply String.eqb_eq in E. subst k0.
      destruct (String.eqb k' k) eqn:E'; [|reflexivity].
      apply String.eqb_eq in E'. contradiction.
    + destruct (String.eqb k' k0); [reflexivity | exact IH].
Qed.

Variable W : Type.
Variable f : W -> V.

Local Abbreviation setAll wb m :=
  (fold_left (fun acc iw => JsMap.set acc (fst iw) (f (snd iw))) wb m).

Lemma get_setAll_absent wb : forall m k,
  ~ In k (map fst wb) -> JsMap.get (setAll wb m) k = JsMap.get m k.
Proof.
  induction wb as [|[k1 w1] wb IH]; intros m k Hk; cbn.
  - reflexivity.
  - cbn in Hk. rewrite IH by tauto.
    apply get_set_other. intros ->. tauto.
Qed.

Lemma get_setAll_present wb : forall m k w,
  NoDup (map fst wb) -> In (k, w) wb ->
  JsMap.get (setAll wb m) k = Some (f w).
Proof.
  induction wb as [|[k1 w1] wb IH]; intros m k w Hnd Hin; cbn.
  - destruct Hin.
  - cbn in Hnd. inversion Hnd as [|? ? Hnotin Hnd']; subst.
    destruct Hin as [E | Hin].
    + inversion E; subst.
      rewrite get_setAll_absent by exact Hnotin. apply get_set_same.
    + apply (IH _ _ _ Hnd' Hin).
Qed.

End Facts.
End JsMapFacts.

Module EdgeFacts.

Local Abbreviation pairWeight :=
  (fun p : SensorConfig * SensorState => (id (fst p), weightOf (fst p) (snd p))).

Lemma weightedBacklogs_combine sensors : forall states,
  List.length states = List.length sensors ->
  TSRA.weightedBacklogs sensors states
  = Some (map pairWeight (combine sensors states)).
Proof.
  induction sensors as [|s ss IH]; intros [|st sts] Hlen; cbn in *;
    try discriminate; try reflexivity.
  rewrite IH by lia. reflexivity.
Qed.

Lemma totalWeight_sum wb :
  TSRA.totalWeight wb = Rsum (map snd wb).
Proof.
  unfold TSRA.totalWeight.
  assert (H : forall a, fold_left (fun acc iw => acc + snd iw) wb a
                        = a + Rsum (map snd wb)).
  { induction wb as [|x wb IH]; intros a; cbn.
    - unfold Rsum. cbn. lra.
    - rewrite IH. unfold Rsum. cbn. lra. }
  rewrite H. lra.
Qed.

Lemma Rsum_nonneg l : Forall (fun x => 0 <= x) l -> 0 <= Rsum l.
Proof.
  induction 1; unfold Rsum in *; cbn; lra.
Qed.

Lemma Rsum_bounds_member l x :
  Forall (fun y => 0 <= y) l -> In x l -> x <= Rsum l.
Proof.
  induction 1 as [|y l Hy Hl IH]; intros Hin; [destruct Hin|].
  pose proof (Rsum_nonneg l Hl). unfold Rsum in *. cbn.
  destruct Hin as [-> | Hin]; [lra | specialize (IH Hin); lra].
Qed.

Lemma Rsum_scale c l : Rsum (map (fun x => x * c) l) = Rsum l * c.
Proof.
  induction l as [|x l IH]; unfold Rsum in *; cbn; [lra | rewrite IH; lra].
Qed.

Lemma Rsum_const c (A : Type) (l : list A) :
  Rsum (map (fun _ => c) l) = INR (List.length l) * c.
Proof.
  induction l as [|x l IH]; unfold Rsum in *.
  - cbn. lra.
  - cbn [map fold_right List.length]. rewrite IH, S_INR. lra.
Qed.

Lemma Rsum_ext (A : Type) (f g : A -> R) l :
  (forall x, In x l -> f x = g x) -> Rsum (map f l) = Rsum (map g l).
Proof.
  intros H. f_equal. apply map_ext_in. exact H.
Qed.

Lemma INR_length_ge_1 (A : Type) (l : list A) :
  l <> [] -> 1 <= INR (List.length l).
Proof.
  destruct l as [|x l]; [contradiction|]. intros _.
  cbn [List.length]. rewrite S_INR. pose proof (pos_INR (List.length l)). lra.
Qed.

Section Allocation.
Variable sensors : list SensorConfig.
Variable states : list SensorState.
Hypothesis nonempty : sensors <> [].
Hypothesis same_length : List.length states = List.length sensors.
Hypothesis unique_ids : NoDup (map id sensors).
Hypothesis backlog_nonneg : Forall (fun st => 0 <= H_k st) states.
Hypothesis weight_nonneg : Forall (fun s => 0 <= priority_weight s) sensors.

Let pairs := combine sensors states.
Let total := totalWeightOf sensors states.
Let n := List.length sensors.

Lemma pairs_fst : map fst pairs = sensors.
Proof.
  unfold pairs. clear - same_length. revert states same_length.
  induction sensors as [|s ss IH]; intros [|st sts] H; cbn in *;
    try discriminate; try reflexivity.
  f_equal. apply IH. lia.
Qed.

Lemma weights_nonneg :
  Forall (fun y => 0 <= y) (map (fun p => weightOf (fst p) (snd p)) pairs).
Proof.
  apply Forall_map, Forall_forall. intros [s st] Hin. cbn.
  unfold weightOf.
  pose proof (in_combine_l _ _ _ _ Hin) as Hs.
  pose proof (in_combine_r _ _ _ _ Hin) as Hst.
  rewrite Forall_forall in backlog_nonneg, weight_nonneg.
  apply Rmult_le_pos; auto.
Qed.

Lemma n_pos : 0 < INR n.
Proof.
  pose proof (INR_length_ge_1 _ sensors nonempty). unfold n. lra.
Qed.

Lemma share_range p :
  In p pairs ->
  0 <= shareOf total n (weightOf (fst p) (snd p)) <= 1.
Proof.
  intros Hin. unfold shareOf.
  pose proof weights_nonneg as Hw.
  assert (Hp : In (weightOf (fst p) (snd p))
                  (map (fun p => weightOf (fst p) (snd p)) pairs)).
  { apply in_map_iff. exists p. split; [reflexivity | exact Hin]. }
  assert (Hle : weightOf (fst p) (snd p) <= total)
    by exact (Rsum_bounds_member _ _ Hw Hp).
  rewrite Forall_forall in Hw. specialize (Hw _ Hp).
  destruct (Rgt_dec total 0) as [Hpos | Hnpos].
  - split.
    + apply Rmult_le_pos; [exact Hw |]. left. apply Rinv_0_lt_compat. lra.
    + apply Rmult_le_reg_r with total; [lra|].
      unfold Rdiv. rewrite Rmult_assoc, Rinv_l by lra. lra.
  - pose proof n_pos as Hn. split.
    + apply Rmult_le_pos; [lra|]. left. apply Rinv_0_lt_compat. exact Hn.
    + assert (1 <= INR n) by (apply INR_length_ge_1; exact nonempty).
      apply Rmult_le_reg_r with (INR n); [lra|].
      unfold Rdiv. rewrite Rmult_assoc, Rinv_l by lra. lra.
Qed.

Lemma shares_sum :
  Rsum (map (fun p => shareOf total n (weightOf (fst p) (snd p))) pairs) = 1.
Proof.
  unfold shareOf. destruct (Rgt_dec total 0) as [Hpos | Hnpos].
  - unfold Rdiv.
    rewrite <- (map_map (fun p => weightOf (fst p) (snd p))
                        (fun w => w * / total)).
    rewrite Rsum_scale.
    change (total * / total = 1). apply Rinv_r. lra.
  - rewrite Rsum_const.
    assert (Hlen : List.length pairs = n).
    { unfold pairs, n. rewrite length_combine, same_length. apply Nat.min_id. }
    rewrite Hlen. pose proof n_pos. unfold Rdiv. rewrite Rmult_1_l.
    apply Rinv_r. lra.
Qed.

Lemma allocation_lookup allocs p :
  TSRA.edgeServerAllocation sensors states = Some allocs ->
  In p pairs ->
  TSRA.allocationFor allocs (id (fst p))
  = Rmin 1 (shareOf total n (weightOf (fst p) (snd p))).
Proof.
  unfold TSRA.edgeServerAllocation.
  rewrite weightedBacklogs_combine by exact same_length.
  intros H Hin. injection H as <-.
  unfold TSRA.allocationFor.
  rewrite (JsMapFacts.get_setAll_present R R
             (TSRA.allocationOf
                (TSRA.totalWeight (map pairWeight (combine sensors states)))
                (List.length sensors))
             (map pairWeight (combine sensors states)) JsMap.empty
             (id (fst p)) (weightOf (fst p) (snd p))).
  - unfold TSRA.allocationOf, shareOf. rewrite totalWeight_sum, map_map.
    reflexivity.
  - rewrite map_map. cbn [fst].
    rewrite <- (map_map fst id). fold pairs. rewrite pairs_fst. exact unique_ids.
  - apply in_map_iff. exists p. split; [reflexivity | exact Hin].
Qed.

(** C4, for sensors with distinct ids whose priority weights and edge
    backlogs are not negative, one state per sensor: the edge allocation
    gives every sensor its proportional share (the uniform share when the
    total weight is zero), clipped at 1; every share lies in [0, 1] and the
    shares sum to 1, within the tolerance. *)
Theorem edge_allocation_shares :
  exists allocs,
    TSRA.edgeServerAllocation sensors states = Some allocs
    /\ (forall s st, In (s, st) (combine sensors states) ->
          let xi := TSRA.allocationFor allocs (id s) in
          xi = Rmin 1 (shareOf total n (weightOf s st))
          /\ xi = (if Rgt_dec total 0 then weightOf s st / total
                   else 1 / INR n)
          /\ 0 <= xi <= 1)
    /\ (total <= 0 -> total = 0)
    /\ Rsum (map (fun s => TSRA.allocationFor allocs (id s)) sensors)
       <= 1 + / 1000000000.
Proof.
  destruct (TSRA.edgeServerAllocation sensors states) as [allocs|] eqn:E.
  2:{ unfold TSRA.edgeServerAllocation in E.
      rewrite weightedBacklogs_combine in E by exact same_length. discriminate. }
  exists allocs. split; [reflexivity|].
  assert (Hxi : forall p, In p pairs ->
            TSRA.allocationFor allocs (id (fst p))
            = shareOf total n (weightOf (fst p) (snd p))).
  { intros p Hin. rewrite (allocation_lookup allocs p E Hin).
    apply Rmin_right. apply (share_range p Hin). }
  split; [|split].
  - intros s st Hin. cbn zeta.
    pose proof (allocation_lookup allocs (s, st) E Hin) as H1.
    pose proof (Hxi (s, st) Hin) as H2.
    pose proof (share_range (s, st) Hin) as H3.
    cbn [fst snd] in *. repeat split; try assumption; rewrite H2; apply H3.
  - intros Hle. assert (H0 : 0 <= total) by exact (Rsum_nonneg _ weights_nonneg).
    lra.
  - rewrite <- pairs_fst at 1. rewrite map_map.
    rewrite (Rsum_ext _ _ (fun p => shareOf total n (weightOf (fst p) (snd p))))
      by exact Hxi.
    rewrite shares_sum. lra.
Qed.

End Allocation.

Lemma edge_allocation_shares_witness :
  exists allocs,
    TSRA.edgeServerAllocation [unitSensor; weightedSensor]
                              [edgeBacklogState; edgeBacklogState]
    = Some allocs
    /\ Rsum (map (fun s => TSRA.allocationFor allocs (id s))
                 [unitSensor; weightedSensor])
       <= 1 + / 1000000000.
Proof.
  assert (Hne : [unitSensor; weightedSensor] <> []) by discriminate.
  assert (Hlen : List.length [edgeBacklogState; edgeBacklogState]
                 = List.length [unitSensor; weightedSensor]) by reflexivity.
  assert (Hnd : NoDup (map id [unitSensor; weightedSensor])).
  { cbn. constructor.
    - intros [H | []]. discriminate.
    - constructor; [intros [] | constructor]. }
  assert (Hk : Forall (fun st => 0 <= H_k st)
                      [edgeBacklogState; edgeBacklogState]).
  { repeat constructor; cbn; lra. }
  assert (Hw : Forall (fun s => 0 <= priority_weight s)
                      [unitSensor; weightedSensor]).
  { repeat constructor; cbn; lra. }
  destruct (edge_allocation_shares [unitSensor; weightedSensor]
              [edgeBacklogState; edgeBacklogState] Hne Hlen Hnd Hk Hw)
    as (allocs & Ha & _ & _ & Hsum).
  exists allocs. split; [exact Ha | exact Hsum].
Defined.

(** C4 as stated fails for sensors that share an id.  The allocations are
    kept in a [Map] keyed by the id, so of two sensors under the id ["s1"]
    with priority weights 1 and 3 and the same edge backlog 1, both read
    the share 3/4 written last: the first is not given its own share 1/4,
    and the shares of the two sensors sum to 3/2. *)
Lemma edge_allocation_shared_id :
  ~ (forall sensors states,
       sensors <> [] ->
       List.length states = List.length sensors ->
       exists allocs,
         TSRA.edgeServerAllocation sensors states = Some allocs
         /\ (forall s st, In (s, st) (combine sensors states) ->
               TSRA.allocationFor allocs (id s)
               = Rmin 1 (shareOf (totalWeightOf sensors states)
                           (List.length sensors) (weightOf s st)))
         /\ Rsum (map (fun s => TSRA.allocationFor allocs (id s)) sensors)
            <= 1 + / 1000000000).
Proof.
  intros H.
  destruct (H [unitSensor; sharedIdSensor]
              [edgeBacklogState; edgeBacklogState])
    as (allocs & Ea & _ & Hsum); [discriminate | reflexivity |].
  unfold TSRA.edgeServerAllocation in Ea. cbn [TSRA.weightedBacklogs] in Ea.
  assert (Hal : TSRA.allocationFor allocs "s1" = 3 / 4).
  { pose proof (f_equal (fun o => match o with
                                    | Some a => TSRA.allocationFor a "s1"
                                    | None => 0
                                    end) Ea) as Hv.
    cbv beta iota in Hv. rewrite <- Hv.
    cbn [fold_left fst snd id unitSensor sharedIdSensor].
    unfold TSRA.allocationFor.
    rewrite JsMapFacts.get_set_same. unfold TSRA.allocationOf.
    assert (Ht : TSRA.totalWeight
                   [("s1"%string, H_k edgeBacklogState * priority_weight unitSensor);
                    ("s1"%string,
                     H_k edgeBacklogState * priority_weight sharedIdSensor)]
                 = 4).
    { unfold TSRA.totalWeight. cbn. lra. }
    rewrite Ht. destruct (Rgt_dec 4 0) as [_|Hc]; [|lra].
    cbn [H_k edgeBacklogState priority_weight sharedIdSensor].
    rewrite Rmin_right by lra. lra. }
  cbn [map id unitSensor sharedIdSensor] in Hsum.
  rewrite Hal in Hsum. unfold Rsum in Hsum. cbn [fold_right] in Hsum. lra.
Qed.

End EdgeFacts.

(* ================================================================== *)
(** ** The genetic optimizer: genes stay within their bounds *)
(* ================================================================== *)

Module OptimizerFacts.
Import GeneticOptimizer.

Lemma succeeds_ret (A : Type) (a : A) (P : A -> Prop) :
  P a -> succeeds (ret a) P.
Proof. intros H st. exists a, st. split; [reflexivity | exact H]. Qed.

Lemma succeeds_bind (A B : Type) (c : M A) (k : A -> M B)
    (P : A -> Prop) (Q : B -> Prop) :
  succeeds c P -> (forall a, P a -> succeeds (k a) Q) -> succeeds (bind c k) Q.
Proof.
  intros Hc Hk st. destruct (Hc st) as (a & st1 & E & Ha).
  destruct (Hk a Ha st1) as (b & st2 & E' & Hb).
  exists b, st2. unfold bind. rewrite E. split; assumption.
Qed.

Lemma succeeds_draw (A : Type) (f : SeededRandom.t -> A * SeededRandom.t)
    (P : A -> Prop) :
  (forall st, P (fst (f st))) -> succeeds (draw f) P.
Proof.
  intros H st. exists (fst (f st)), (snd (f st)). unfold draw.
  split; [destruct (f st); reflexivity | apply H].
Qed.

Lemma succeeds_weaken (A : Type) (c : M A) (P Q : A -> Prop) :
  succeeds c P -> (forall a, P a -> Q a) -> succeeds c Q.
Proof.
  intros Hc HPQ st. destruct (Hc st) as (a & st' & E & Ha).
  exists a, st'. split; [exact E | apply HPQ, Ha].
Qed.

(** What a successful computation returned satisfies its postcondition. *)
Lemma succeeds_result (A : Type) (c : M A) (P : A -> Prop) st a st' :
  succeeds c P -> c st = Some (a, st') -> P a.
Proof.
  intros Hc E. destruct (Hc st) as (a0 & st0 & E0 & Ha).
  rewrite E in E0. injection E0 as -> ->. exact Ha.
Qed.

Lemma in_bounds_length g bounds : in_bounds g bounds -> List.length g = List.length bounds.
Proof. apply Forall2_length. Qed.

Lemma clip_in_range min max x :
  min <= max -> min <= Rmax min (Rmin max x) <= max.
Proof.
  intros H. split; [apply Rmax_l|].
  apply Rmax_lub; [exact H | apply Rmin_l].
Qed.

Lemma clampGene_in_range min max g mutation :
  min <= max -> min <= clampGene min max g mutation <= max.
Proof.
  intros H. unfold clampGene.
  destruct mutation as [x| | |]; cbn [JsNum.add JsNum.min JsNum.max].
  - apply clip_in_range. exact H.
  - unfold Rmax. destruct (Rle_dec min max); lra.
  - lra.
  - lra.
Qed.

(** An infinite mutation puts the gene on a bound. *)
Lemma clampGene_infinite min max g :
  min <= max ->
  clampGene min max g JsNum.PosInf = max
  /\ clampGene min max g JsNum.NegInf = min.
Proof.
  intros H. unfold clampGene. cbn [JsNum.add JsNum.min JsNum.max].
  split; [apply Rmax_right; exact H | reflexivity].
Qed.

Lemma nth_error_middle (A : Type) (pre : list A) b rest :
  nth_error (pre ++ b :: rest) (List.length pre) = Some b.
Proof.
  rewrite nth_error_app2 by lia. rewrite Nat.sub_diag. reflexivity.
Qed.

Lemma app_cons_assoc (A : Type) (pre : list A) b rest :
  pre ++ b :: rest = (pre ++ [b]) ++ rest.
Proof. rewrite <- app_assoc. reflexivity. Qed.

(** [geneLoop] draws one gene per remaining bound. *)
Lemma geneLoop_in_bounds rest : forall pre,
  ordered_bounds rest ->
  succeeds (geneLoop (List.length rest) (List.length pre) (pre ++ rest))
           (fun g => in_bounds g rest).
Proof.
  induction rest as [|[mn mx] rest IH]; intros pre Hord; cbn [List.length geneLoop].
  - apply succeeds_ret. constructor.
  - rewrite nth_error_middle.
    inversion Hord as [|? ? Hb Hord']; subst. cbn [fst snd] in Hb.
    eapply succeeds_bind.
    { apply succeeds_draw with (P := fun x => mn <= x <= mx).
      intros st. apply RandomFacts.uniform_in_range. exact Hb. }
    intros g Hg. eapply succeeds_bind.
    { rewrite app_cons_assoc.
      replace (S (List.length pre)) with (List.length (pre ++ [(mn, mx)]))
        by (rewrite length_app; cbn; lia).
      apply IH. exact Hord'. }
    intros gs Hgs. apply succeeds_ret. constructor; [exact Hg | exact Hgs].
Qed.

Lemma populationLoop_in_bounds bounds n :
  ordered_bounds bounds ->
  succeeds (populationLoop n (List.length bounds) bounds)
           (fun pop => List.length pop = n
                       /\ Forall (fun g => in_bounds g bounds) pop).
Proof.
  intros Hord. induction n as [|n IH]; cbn [populationLoop].
  - apply succeeds_ret. split; [reflexivity | constructor].
  - eapply succeeds_bind.
    { apply (geneLoop_in_bounds bounds [] Hord). }
    intros g Hg. eapply succeeds_bind; [exact IH|].
    intros pop [Hlen Hpop]. apply succeeds_ret.
    split; [cbn; lia | constructor; assumption].
Qed.

Lemma randomIndex_lt len :
  (0 < len)%nat -> succeeds (randomIndex len) (fun i => (i < len)%nat).
Proof.
  intros Hlen. unfold randomIndex. apply succeeds_draw. intros st.
  pose proof (RandomFacts.random_bits_range st) as Hr.
  destruct (SeededRandom.random_bits st) as [u st']. cbn [fst] in *.
  unfold JsInt.two32 in Hr.
  assert (Hl : (0 < Z.of_nat len)%Z) by lia.
  assert (H : (u * Z.of_nat len / 4294967296 < Z.of_nat len)%Z).
  { apply Z.div_lt_upper_bound; [lia|].
    apply Z.mul_lt_mono_pos_r; lia. }
  assert (H0 : (0 <= u * Z.of_nat len / 4294967296)%Z).
  { apply Z.div_pos; [|lia]. apply Z.mul_nonneg_nonneg; lia. }
  lia.
Qed.

Section Breeding.
Variable this : t.
Variable bounds : Bounds.
Hypothesis this_constructed : constructed this.
Hypothesis bounds_ordered : ordered_bounds bounds.

Local Abbreviation ok := (individual_in_bounds bounds).

Lemma tournamentLoop_member population n : forall best,
  population <> [] ->
  match best with Some b => In b population | None => n <> O end ->
  succeeds (tournamentLoop n population best)
           (fun r => exists b, r = Some b /\ In b population).
Proof.
  induction n as [|n IH]; intros best Hne Hbest; cbn [tournamentLoop].
  - apply succeeds_ret. destruct best as [b|]; [|contradiction].
    exists b. split; [reflexivity | exact Hbest].
  - eapply succeeds_bind.
    { apply randomIndex_lt. destruct population; [contradiction | cbn; lia]. }
    intros idx Hidx. cbv beta in Hidx |- *.
    destruct (nth_error population idx) as [candidate|] eqn:E.
    2:{ apply nth_error_None in E. lia. }
    apply nth_error_In in E.
    apply IH; [exact Hne|].
    destruct best as [b|]; [|exact E].
    destruct (Rlt_dec (fitness candidate) (fitness b)); assumption.
Qed.

Lemma tournamentSelect_member population :
  population <> [] ->
  succeeds (tournamentSelect this population) (fun b => In b population).
Proof.
  intros Hne. unfold tournamentSelect.
  eapply succeeds_bind.
  { apply tournamentLoop_member; [exact Hne|].
    destruct this_constructed as [-> _]. discriminate. }
  intros r (b & -> & Hb). apply succeeds_ret. exact Hb.
Qed.

Lemma crossoverGenes_in_bounds bs : forall g1 g2,
  in_bounds g1 bs -> in_bounds g2 bs ->
  succeeds (crossoverGenes g1 g2) (fun g => in_bounds g bs).
Proof.
  induction bs as [|b bs IH]; intros g1 g2 H1 H2;
    inversion H1; subst; inversion H2; subst; cbn [crossoverGenes].
  - apply succeeds_ret. constructor.
  - eapply succeeds_bind.
    { apply succeeds_draw with (P := fun _ => True). intros; exact I. }
    intros r _. cbn [hd tl].
    eapply succeeds_bind; [apply IH; eassumption|].
    intros rest Hrest. apply succeeds_ret.
    constructor; [|exact Hrest].
    destruct (Rlt_dec r (1 / 2)); assumption.
Qed.

Lemma mutateGenes_in_bounds rest : forall pre gs,
  ordered_bounds rest -> in_bounds gs rest ->
  succeeds (mutateGenes this gs (List.length pre) (pre ++ rest))
           (fun g => in_bounds g rest).
Proof.
  induction rest as [|[mn mx] rest IH]; intros pre gs Hord Hgs;
    inversion Hgs as [|g ? gs' ? Hg Hgs']; subst; cbn [mutateGenes].
  - apply succeeds_ret. constructor.
  - inversion Hord as [|? ? Hb Hord']; subst. cbn [fst snd] in Hb, Hg.
    eapply succeeds_bind.
    { apply succeeds_draw with (P := fun _ => True). intros; exact I. }
    intros r _.
    eapply succeeds_bind with (P := fun x => mn <= x <= mx).
    { destruct (Rlt_dec r (mutationProb this)).
      - rewrite nth_error_middle.
        eapply succeeds_bind.
        { apply succeeds_draw with (P := fun _ => True). intros; exact I. }
        intros mutation _. apply succeeds_ret. apply clampGene_in_range.
        exact Hb.
      - apply succeeds_ret. exact Hg. }
    intros g' Hg'.
    eapply succeeds_bind.
    { rewrite app_cons_assoc.
      replace (S (List.length pre)) with (List.length (pre ++ [(mn, mx)]))
        by (rewrite length_app; cbn; lia).
      apply IH; assumption. }
    intros gs'' Hgs''. apply succeeds_ret. constructor; assumption.
Qed.

Lemma breedLoop_in_bounds population n :
  population <> [] -> Forall ok population ->
  succeeds (breedLoop this n population bounds)
           (fun children => List.length children = n
                            /\ Forall (fun g => in_bounds g bounds) children).
Proof.
  intros Hne Hpop. rewrite Forall_forall in Hpop.
  induction n as [|n IH]; cbn [breedLoop].
  - apply succeeds_ret. split; [reflexivity | constructor].
  - eapply succeeds_bind; [apply tournamentSelect_member, Hne|].
    intros parent1 Hp1.
    eapply succeeds_bind; [apply tournamentSelect_member, Hne|].
    intros parent2 Hp2.
    eapply succeeds_bind.
    { unfold crossover. apply (crossoverGenes_in_bounds bounds);
        [apply (Hpop _ Hp1) | apply (Hpop _ Hp2)]. }
    intros child Hchild.
    eapply succeeds_bind.
    { unfold mutate. apply (mutateGenes_in_bounds bounds [] child);
        assumption. }
    intros child' Hchild'.
    eapply succeeds_bind; [exact IH|].
    intros rest [Hlen Hrest]. apply succeeds_ret.
    split; [cbn; lia | constructor; assumption].
Qed.

Lemma eliteLoop_in_bounds population n : forall i elites,
  Forall ok population ->
  eliteLoop n i population = Some elites ->
  List.length elites = n /\ Forall (fun g => in_bounds g bounds) elites.
Proof.
  induction n as [|n IH]; intros i elites Hpop E; cbn [eliteLoop] in E.
  - injection E as <-. split; [reflexivity | constructor].
  - destruct (nth_error population i) as [ind|] eqn:Ei; [|discriminate].
    destruct (eliteLoop n (S i) population) as [rest|] eqn:Er; [|discriminate].
    injection E as <-. destruct (IH _ _ Hpop Er) as [Hlen Hrest].
    split; [cbn; lia|]. constructor; [|exact Hrest].
    rewrite Forall_forall in Hpop. apply (Hpop ind). eapply nth_error_In, Ei.
Qed.

Lemma eliteLoop_total population n : forall i,
  (i + n <= List.length population)%nat ->
  exists elites, eliteLoop n i population = Some elites.
Proof.
  induction n as [|n IH]; intros i Hlen; cbn [eliteLoop].
  - eexists. reflexivity.
  - destruct (nth_error population i) as [ind|] eqn:Ei.
    2:{ apply nth_error_None in Ei. lia. }
    destruct (IH (S i)) as [rest Er]; [lia|]. rewrite Er. eexists. reflexivity.
Qed.

(** Whatever [newPopulation] returns is within bounds. *)
Lemma newPopulation_in_bounds population st fresh st' :
  Forall ok population ->
  newPopulation this population bounds st = Some (fresh, st') ->
  Forall (fun g => in_bounds g bounds) fresh
  /\ List.length fresh
     = (eliteCount this + (populationSize this - eliteCount this))%nat.
Proof.
  intros Hpop E. unfold newPopulation in E.
  destruct (eliteLoop (eliteCount this) 0 population) as [elites|] eqn:Ee;
    [|discriminate].
  destruct (eliteLoop_in_bounds _ _ _ _ Hpop Ee) as [Hlen Hel].
  assert (Hne : population <> []).
  { intros ->. destruct this_constructed as [_ Hc]. rewrite Hc in Ee.
    destruct (Nat.max 2 (populationSize this / 10)) eqn:Em; [lia|].
    cbn in Ee. discriminate. }
  pose proof (breedLoop_in_bounds population
                (populationSize this - List.length elites) Hne Hpop) as Hb.
  unfold bind in E.
  destruct (Hb st) as (children & st1 & Eb & Hclen & Hch).
  rewrite Eb in E. unfold ret in E. injection E as <- <-.
  split; [apply Forall_app; split; assumption|].
  rewrite length_app, Hclen, Hlen. reflexivity.
Qed.

Lemma newPopulation_total population st :
  Forall ok population ->
  (eliteCount this <= List.length population)%nat ->
  exists fresh st', newPopulation this population bounds st = Some (fresh, st').
Proof.
  intros Hpop Hlen. unfold newPopulation.
  destruct (eliteLoop_total population (eliteCount this) 0) as [elites Ee];
    [lia|].
  rewrite Ee.
  assert (Hne : population <> []).
  { intros ->. destruct this_constructed as [_ Hc]. cbn in Hlen. lia. }
  pose proof (breedLoop_in_bounds population
                (populationSize this - List.length elites) Hne Hpop) as Hb.
  destruct (Hb st) as (children & st1 & Eb & _).
  unfold bind. rewrite Eb. unfold ret. eexists. eexists. reflexivity.
Qed.

End Breeding.

Section Generations.
Variable this : t.
Variable bounds : Bounds.
Variable fitnessFunc : list R -> R.
Hypothesis this_constructed : constructed this.
Hypothesis bounds_ordered : ordered_bounds bounds.

Local Abbreviation ok := (individual_in_bounds bounds).

Lemma evaluatePopulation_fst population :
  fst (evaluatePopulation fitnessFunc population)
  = map (evaluate fitnessFunc) population.
Proof. reflexivity. Qed.

Lemma evaluated_in_bounds population :
  Forall (fun g => in_bounds g bounds) population ->
  Forall ok (map (evaluate fitnessFunc) population).
Proof.
  intros H. apply Forall_map. exact H.
Qed.

Lemma insertByFitness_Forall (P : Individual -> Prop) x l :
  P x -> Forall P l -> Forall P (insertByFitness x l).
Proof.
  intros Hx. induction 1 as [|y l Hy Hl IH]; cbn.
  - constructor; [exact Hx | constructor].
  - destruct (Rle_dec (fitness x) (fitness y)).
    + constructor; [exact Hx | constructor; assumption].
    + constructor; assumption.
Qed.

Lemma insertByFitness_length x l :
  List.length (insertByFitness x l) = S (List.length l).
Proof.
  induction l as [|y l IH]; cbn; [reflexivity|].
  destruct (Rle_dec (fitness x) (fitness y)); cbn; [reflexivity | now rewrite IH].
Qed.

Lemma sortByFitness_Forall (P : Individual -> Prop) l :
  Forall P l -> Forall P (sortByFitness l).
Proof.
  unfold sortByFitness.
  induction 1; cbn [fold_right];
    [constructor | apply insertByFitness_Forall; assumption].
Qed.

Lemma sortByFitness_length l :
  List.length (sortByFitness l) = List.length l.
Proof.
  unfold sortByFitness.
  induction l as [|x l IH]; cbn [fold_right List.length]; [reflexivity|].
  rewrite insertByFitness_length, IH. reflexivity.
Qed.

(** One generation, as [generationLoop] unfolds it. *)
Lemma generationLoop_step n gen ls st :
  generationLoop this fitnessFunc (S n) gen bounds ls st
  = match ls_population ls with
    | [] => ([], None)
    | first :: _ =>
        let rec :=
          {| gr_generation := gen;
             gr_bestFitness := fitness first;
             gr_avgFitness := avgFitness (ls_population ls);
             gr_infeasibleCount := ls_infeasibleCount ls |} in
        let improved := Rlt_dec (fitness first) (fitness (ls_bestEver ls)) in
        let bestEver1 := if improved then first else ls_bestEver ls in
        let stagnation1 :=
          if improved then O else S (ls_stagnationCount ls) in
        if Nat.leb (maxStagnation this) stagnation1
        then ([rec],
              Some ({| ls_population := ls_population ls;
                       ls_infeasibleCount := ls_infeasibleCount ls;
                       ls_bestEver := bestEver1;
                       ls_stagnationCount := stagnation1;
                       ls_totalEvaluations := ls_totalEvaluations ls |}, st))
        else
          match newPopulation this (ls_population ls) bounds st with
          | None => ([rec], None)
          | Some (fresh, st') =>
              match sortByFitness (map (evaluate fitnessFunc) fresh) with
              | [] => ([rec], None)
              | first' :: rest' =>
                  let ls2 :=
                    {| ls_population := first' :: rest';
                       ls_infeasibleCount :=
                         snd (evaluatePopulation fitnessFunc fresh);
                       ls_bestEver :=
                         if Rlt_dec (fitness first') (fitness bestEver1)
                         then first' else bestEver1;
                       ls_stagnationCount := stagnation1;
                       ls_totalEvaluations :=
                         (ls_totalEvaluations ls + populationSize this)%nat |} in
                  (rec :: fst (generationLoop this fitnessFunc n (S gen)
                                              bounds ls2 st'),
                   snd (generationLoop this fitnessFunc n (S gen)
                                       bounds ls2 st'))
              end
          end
    end.
Proof.
  cbn [generationLoop].
  destruct (ls_population ls) as [|first rest]; [reflexivity|].
  cbv zeta.
  destruct (Nat.leb _ _); [reflexivity|].
  destruct (newPopulation this (first :: rest) bounds st) as [[fresh st']|];
    [|reflexivity].
  unfold evaluatePopulation. cbn [snd].
  destruct (sortByFitness (map (evaluate fitnessFunc) fresh)) as [|f' r'];
    [reflexivity|].
  destruct (generationLoop this fitnessFunc n (S gen) bounds _ st');
    reflexivity.
Qed.

(** The invariant of the generation loop: the population and the best-ever
    individual are within bounds. *)
Lemma generationLoop_in_bounds n : forall gen ls st ls' st',
  Forall ok (ls_population ls) -> ok (ls_bestEver ls) ->
  snd (generationLoop this fitnessFunc n gen bounds ls st) = Some (ls', st') ->
  ok (ls_bestEver ls').
Proof.
  induction n as [|n IH]; intros gen ls st ls' st' Hpop Hbest E.
  - cbn in E. injection E as <- <-. exact Hbest.
  - rewrite generationLoop_step in E.
    destruct (ls_population ls) as [|first rest] eqn:Ep; [discriminate|].
    cbv zeta in E.
    assert (Hfirst : ok first) by (inversion Hpop; assumption).
    assert (Hb1 : ok (if Rlt_dec (fitness first) (fitness (ls_bestEver ls))
                      then first else ls_bestEver ls)).
    { destruct (Rlt_dec _ _); assumption. }
    destruct (Nat.leb _ _).
    { cbn in E. injection E as <- <-. exact Hb1. }
    destruct (newPopulation this (first :: rest) bounds st)
      as [[fresh st1]|] eqn:En; [|discriminate].
    destruct (newPopulation_in_bounds this bounds this_constructed
                bounds_ordered _ _ _ _ Hpop En) as [Hfresh _].
    pose proof (sortByFitness_Forall ok _ (evaluated_in_bounds _ Hfresh)) as Hs.
    destruct (sortByFitness (map (evaluate fitnessFunc) fresh))
      as [|first' rest'] eqn:Es; [discriminate|].
    cbn [snd] in E.
    eapply IH; [| | exact E]; cbn [ls_population ls_bestEver].
    + exact Hs.
    + destruct (Rlt_dec _ _); [inversion Hs; assumption | exact Hb1].
Qed.

Lemma eliteCount_le_population :
  (2 <= populationSize this)%nat ->
  (eliteCount this <= populationSize this)%nat.
Proof.
  intros H. destruct this_constructed as [_ ->].
  apply Nat.max_lub; [exact H|].
  apply Nat.Div0.div_le_upper_bound. lia.
Qed.

Lemma generationLoop_total n : forall gen ls st,
  (2 <= populationSize this)%nat ->
  Forall ok (ls_population ls) ->
  List.length (ls_population ls) = populationSize this ->
  exists ls' st',
    snd (generationLoop this fitnessFunc n gen bounds ls st) = Some (ls', st').
Proof.
  induction n as [|n IH]; intros gen ls st HP Hpop Hlen.
  - cbn. eexists. eexists. reflexivity.
  - rewrite generationLoop_step.
    destruct (ls_population ls) as [|first rest] eqn:Ep; [cbn in Hlen; lia|].
    cbv zeta.
    destruct (Nat.leb _ _).
    { cbn. eexists. eexists. reflexivity. }
    pose proof (eliteCount_le_population HP) as Hel.
    destruct (newPopulation_total this bounds this_constructed bounds_ordered
                (first :: rest) st Hpop) as (fresh & st1 & En);
      [rewrite Hlen; exact Hel|].
    rewrite En.
    destruct (newPopulation_in_bounds this bounds this_constructed
                bounds_ordered _ _ _ _ Hpop En) as [Hfresh Hflen].
    pose proof (sortByFitness_Forall ok _ (evaluated_in_bounds _ Hfresh)) as Hs.
    pose proof (sortByFitness_length (map (evaluate fitnessFunc) fresh)) as Hsl.
    rewrite length_map, Hflen in Hsl.
    destruct (sortByFitness (map (evaluate fitnessFunc) fresh))
      as [|first' rest'] eqn:Es; [cbn in Hsl; lia|].
    cbn [snd].
    apply IH; cbn [ls_population]; [exact HP | exact Hs | lia].
Qed.

(** Whatever [optimize] returns, its best individual is within bounds. *)
Lemma optimize_in_bounds st result st' :
  snd (optimize this fitnessFunc (List.length bounds) bounds st)
  = Some (result, st') ->
  ok (best result).
Proof.
  unfold optimize, initializePopulation. intros E.
  pose proof (populationLoop_in_bounds bounds (populationSize this)
                bounds_ordered) as Hinit.
  destruct (populationLoop (populationSize this) (List.length bounds) bounds st)
    as [[fresh st0]|] eqn:Ei; [|discriminate].
  destruct (succeeds_result _ _ _ _ _ _ Hinit Ei) as [_ Hfresh].
  unfold evaluatePopulation in E.
  pose proof (sortByFitness_Forall ok _ (evaluated_in_bounds _ Hfresh)) as Hs.
  destruct (sortByFitness (map (evaluate fitnessFunc) fresh))
    as [|first rest] eqn:Es; [discriminate|].
  match type of E with
  | context [generationLoop this fitnessFunc ?n ?g bounds ?ls ?s] =>
      pose proof (generationLoop_in_bounds n g ls s) as Hloop;
      destruct (generationLoop this fitnessFunc n g bounds ls s)
        as [recs [[ls' st1]|]] eqn:El; [|discriminate]
  end.
  cbn [snd] in E. injection E as <- <-. cbn [best].
  apply (Hloop ls' st1); cbn [ls_population ls_bestEver];
    [exact Hs | inversion Hs; assumption | reflexivity].
Qed.

(** With a population of at least two, [optimize] returns a result. *)
Lemma optimize_total st :
  (2 <= populationSize this)%nat ->
  exists result st',
    snd (optimize this fitnessFunc (List.length bounds) bounds st)
    = Some (result, st').
Proof.
  intros HP. unfold optimize, initializePopulation.
  pose proof (populationLoop_in_bounds bounds (populationSize this)
                bounds_ordered) as Hinit.
  destruct (Hinit st) as (fresh & st0 & Ei & Hlen & Hfresh). rewrite Ei.
  unfold evaluatePopulation.
  pose proof (sortByFitness_Forall ok _ (evaluated_in_bounds _ Hfresh)) as Hs.
  pose proof (sortByFitness_length (map (evaluate fitnessFunc) fresh)) as Hsl.
  rewrite length_map, Hlen in Hsl.
  destruct (sortByFitness (map (evaluate fitnessFunc) fresh))
    as [|first rest] eqn:Es; [cbn in Hsl; lia|].
  match goal with
  | |- context [generationLoop this fitnessFunc ?n ?g bounds ?ls ?s] =>
      destruct (generationLoop_total n g ls s HP) as (ls' & st1 & El);
      [exact Hs | exact Hsl |];
      destruct (generationLoop this fitnessFunc n g bounds ls s)
        as [recs r] eqn:Eg
  end.
  cbn [snd] in El. subst r. cbn [snd]. eexists. eexists. reflexivity.
Qed.

End Generations.

End OptimizerFacts.

(* ================================================================== *)
(** ** The two policies: state invariant, fallback, scheduling bit *)
(* ================================================================== *)

Module PolicyFacts.

Lemma ln_2_pos : 0 < ln 2.
Proof. rewrite <- ln_1. apply ln_increasing; lra. Qed.

Lemma log2_nonneg x : 1 <= x -> 0 <= JsMath.log2 x.
Proof.
  intros Hx. unfold JsMath.log2.
  apply Rmult_le_pos.
  - rewrite <- ln_1. destruct Hx as [Hx | <-]; [|lra].
    left. apply ln_increasing; lra.
  - left. apply Rinv_0_lt_compat, ln_2_pos.
Qed.

Lemma log2_1 : JsMath.log2 1 = 0.
Proof. unfold JsMath.log2. rewrite ln_1. lra. Qed.

Lemma kappaR_cases k : kappaR k = 0 \/ kappaR k = 1.
Proof. destruct k; cbn; auto. Qed.

Lemma kappaR_range k : 0 <= kappaR k <= 1.
Proof. destruct k; cbn; lra. Qed.

Lemma updateState_nonneg state a arrival harvest C_l C_o C_k E :
  0 <= a <= 1 -> 0 <= arrival -> 0 <= harvest -> 0 <= C_o ->
  nonneg_state (TSRA.updateState state a arrival harvest C_l C_o C_k E).
Proof.
  intros Ha HA Hh Hc. unfold nonneg_state, TSRA.updateState. cbn.
  pose proof (Rmax_l 0 (H_l state - C_l)).
  pose proof (Rmax_l 0 (H_o state - C_o)).
  pose proof (Rmax_l 0 (H_k state - C_k)).
  pose proof (Rmax_l 0 (B_u state - E)).
  repeat split; nra.
Qed.

Lemma pushOutput_newStates o rest :
  newStates (TSRA.pushOutput o rest) = snd (fst o) :: newStates rest.
Proof. destruct o as [[d s] r]. reflexivity. Qed.

Lemma pushOutput_decisions o rest :
  decisions (TSRA.pushOutput o rest) = fst (fst o) :: decisions rest.
Proof. destruct o as [[d s] r]. reflexivity. Qed.

Section Policy.
Variable a : TSRA.t.
Hypothesis a_wf : wf_policy a.

Lemma transmissionRate_nonneg p g :
  0 <= p -> 0 < g -> 0 <= TSRA.calculateTransmissionRate a p g.
Proof.
  intros Hp Hg. destruct a_wf as (_ & Htau & Hb & _ & Hs).
  unfold TSRA.calculateTransmissionRate.
  assert (Hsnr : 0 <= p * g / noise_power_W (TSRA.globalParams a)).
  { apply Rmult_le_pos; [nra|]. left. apply Rinv_0_lt_compat, Hs. }
  pose proof (log2_nonneg (1 + p * g / noise_power_W (TSRA.globalParams a))).
  apply Rmult_le_pos; [apply Rmult_le_pos|]; lra.
Qed.

Lemma transmissionPower_nonneg sensor state g :
  0 <= TSRA.transmissionPowerAllocation a sensor state g.
Proof.
  unfold TSRA.transmissionPowerAllocation.
  destruct (Rle_dec (H_o state) (H_k state)); [lra | apply Rmax_l].
Qed.

Lemma sensorSlot_nonneg sensor state ev allocs es :
  events_ok ev ->
  nonneg_state (snd (fst (TSRA.sensorSlot a sensor state ev allocs es))).
Proof.
  intros (HA & Hh & Hg). unfold TSRA.sensorSlot. cbn [fst snd].
  apply updateState_nonneg; try assumption.
  - apply kappaR_range.
  - apply transmissionRate_nonneg; [apply transmissionPower_nonneg | exact Hg].
Qed.

Lemma baseline_slotLoop_nonneg env allocs es sensors : forall states i out,
  (forall j, events_ok (env j)) ->
  TSRA.slotLoop a sensors states env i allocs es = Some out ->
  Forall nonneg_state (newStates out)
  /\ List.length (newStates out) = List.length sensors.
Proof.
  induction sensors as [|s ss IH]; intros states i out Henv E;
    cbn [TSRA.slotLoop] in E.
  - injection E as <-. cbn. split; [constructor | reflexivity].
  - destruct states as [|st sts]; [discriminate|].
    destruct (TSRA.slotLoop a ss sts env (S i) allocs es) as [rest|] eqn:Er;
      [|discriminate].
    assert (Ho : out = TSRA.pushOutput
                         (TSRA.sensorSlot a s st (env i) allocs es) rest)
      by congruence.
    subst out.
    pose proof (sensorSlot_nonneg s st (env i) allocs es (Henv i)) as Hn.
    destruct (IH _ _ _ Henv Er) as [Hrest Hlen].
    rewrite pushOutput_newStates. cbn [List.length].
    split; [constructor; assumption | lia].
Qed.

Lemma executeSlot_nonneg sensors states es env out :
  (forall j, events_ok (env j)) ->
  TSRA.executeSlot a sensors states es env = Some out ->
  Forall nonneg_state (newStates out)
  /\ List.length (newStates out) = List.length sensors.
Proof.
  intros Henv E. unfold TSRA.executeSlot in E.
  destruct (TSRA.edgeServerAllocation sensors states) as [allocs|];
    [|discriminate].
  destruct sensors as [|s ss].
  - injection E as <-. cbn. split; [constructor | reflexivity].
  - destruct es as [es|]; [|discriminate].
    destruct (TSRA.slotLoop a (s :: ss) states env 0 allocs es) as [o|] eqn:El;
      [|discriminate].
    injection E as <-. cbn [newStates]. exact (baseline_slotLoop_nonneg _ _ _ _ _ _ _ Henv El).
Qed.

End Policy.

(* ------------------------------------------------------------------ *)
(** *** The fallback of the Predictive policy (horizon 0) *)

Section Fallback.
Variable this : PTSRA.t.
Hypothesis no_horizon : PTSRA.horizon this = O.

Lemma choose_fallback m sensor state ev predictions slot :
  PTSRA.choose this m sensor state ev predictions slot
  = ([],
     Some (kappaR (TSRA.taskSchedulingDecision state),
           TSRA.localCPUFrequencyAllocation (PTSRA.base this) sensor state,
           TSRA.transmissionPowerAllocation (PTSRA.base this) sensor state
             (ev_channelGain ev),
           PTSRA.rng m)).
Proof. unfold PTSRA.choose. rewrite no_horizon. reflexivity. Qed.

Lemma threshold_of_bit k :
  (if Rge_dec (kappaR k) (1 / 2) then K1 else K0) = k.
Proof.
  destruct k; cbn; destruct (Rge_dec _ _); try reflexivity; lra.
Qed.

Lemma commit_fallback sensor state ev allocs es :
  let '(dp, newp, _) :=
    PTSRA.commit this sensor state ev
      (kappaR (TSRA.taskSchedulingDecision state))
      (TSRA.localCPUFrequencyAllocation (PTSRA.base this) sensor state)
      (TSRA.transmissionPowerAllocation (PTSRA.base this) sensor state
         (ev_channelGain ev))
      allocs es in
  let '(db, newb, _) :=
    TSRA.sensorSlot (PTSRA.base this) sensor state ev allocs es in
  same_decision dp db /\ newp = newb.
Proof.
  unfold PTSRA.commit, TSRA.sensorSlot, same_decision. cbn.
  rewrite threshold_of_bit. repeat split.
Qed.

Lemma slotLoop_fallback env noise slot allocs es sensors :
  forall states i m,
    match TSRA.slotLoop (PTSRA.base this) sensors states env i allocs es,
          PTSRA.slotLoop this sensors states env noise i slot allocs (Some es) m
    with
    | Some b, (logs, Some (p, m')) =>
        logs = []
        /\ Forall2 same_decision (decisions p) (decisions b)
        /\ newStates p = newStates b
        /\ PTSRA.rng m' = PTSRA.rng m
    | None, (logs, None) => logs = []
    | _, _ => False
    end.
Proof.
  induction sensors as [|s ss IH]; intros states i m; cbn [TSRA.slotLoop PTSRA.slotLoop].
  - cbn. repeat split. constructor.
  - destruct states as [|st sts]; [reflexivity|].
    rewrite choose_fallback.
    set (m1 := PTSRA.updateHistory m (id s) (ev_arrival (env i))
                 (ev_harvest (env i)) (ev_channelGain (env i))).
    cbn [PTSRA.rng] in *.
    specialize (IH sts (S i) (PTSRA.withRng m1 (PTSRA.rng m1))).
    pose proof (commit_fallback s st (env i) allocs es) as Hc.
    destruct (TSRA.slotLoop (PTSRA.base this) ss sts env (S i) allocs es)
      as [b|];
      destruct (PTSRA.slotLoop this ss sts env noise (S i) slot allocs (Some es)
                  (PTSRA.withRng m1 (PTSRA.rng m1))) as [logs [[p m']|]];
      try contradiction.
    + destruct IH as (-> & Hd & Hn & Hr).
      destruct (PTSRA.commit this s st (env i) _ _ _ allocs es) as [[dp newp] rp].
      destruct (TSRA.sensorSlot (PTSRA.base this) s st (env i) allocs es)
        as [[db newb] rb].
      destruct Hc as [Hsd ->]. cbn.
      repeat split; [constructor; assumption | now f_equal | exact Hr].
    + subst logs. reflexivity.
Qed.

Lemma slotLoop_no_edge env noise slot allocs sensors states m :
  PTSRA.slotLoop this sensors states env noise 0 slot allocs None m
  = ([], match sensors with [] => Some (TSRA.emptyOutput, m) | _ :: _ => None end).
Proof.
  destruct sensors as [|s ss]; cbn [PTSRA.slotLoop]; [reflexivity|].
  destruct states as [|st sts]; [reflexivity|].
  rewrite choose_fallback. reflexivity.
Qed.

End Fallback.

(** C3: with horizon 0 the Predictive policy does not call the optimizer
    (no log entry, generator untouched) and, on the same state and the same
    draws, decides as the Baseline: same bit, [alpha] equal to that bit,
    same [f_u], [p_u] and [xi_u]; the committed states are the same, and
    it throws exactly when the Baseline does. *)
Theorem fallback_is_baseline this sensors states es slot env noise m :
  PTSRA.horizon this = O ->
  fst (PTSRA.executeSlotPredictive this sensors states es slot env noise m) = []
  /\ match TSRA.executeSlot (PTSRA.base this) sensors states es env,
           snd (PTSRA.executeSlotPredictive this sensors states es slot env
                                            noise m)
     with
     | Some b, Some (p, m') =>
         Forall2 same_decision (decisions p) (decisions b)
         /\ newStates p = newStates b
         /\ edgeResult p = edgeResult b
         /\ PTSRA.rng m' = PTSRA.rng m
     | None, None => True
     | _, _ => False
     end.
Proof.
  intros H0. unfold PTSRA.executeSlotPredictive, TSRA.executeSlot.
  destruct (TSRA.edgeServerAllocation sensors states) as [allocs|];
    [|split; [reflexivity | exact I]].
  destruct es as [es|].
  - pose proof (slotLoop_fallback this H0 env noise slot allocs es sensors
                  states 0%nat m) as H.
    destruct sensors as [|s ss].
    + cbn. repeat split. constructor.
    + destruct (TSRA.slotLoop (PTSRA.base this) (s :: ss) states env 0 allocs es)
        as [b|];
        destruct (PTSRA.slotLoop this (s :: ss) states env noise 0 slot allocs
                    (Some es) m) as [logs [[p m']|]];
        try contradiction.
      * destruct H as (-> & Hd & Hn & Hr). cbn. repeat split; assumption.
      * subst logs. cbn. split; [reflexivity | exact I].
  - rewrite (slotLoop_no_edge this H0).
    destruct sensors as [|s ss]; cbn; repeat split. constructor.
Qed.

Lemma fallback_is_baseline_witness :
  PTSRA.horizon fallbackPredictive = O
  /\ fst (PTSRA.executeSlotPredictive fallbackPredictive [unitSensor]
            [drainedState] (Some unitEdge) 0 (fun _ => quietEvents)
            (fun _ _ => (0, 0, 0)) (PTSRA.initialMem 43))
     = [].
Proof.
  split; [reflexivity|].
  exact (proj1 (fallback_is_baseline fallbackPredictive [unitSensor]
                  [drainedState] (Some unitEdge) 0%nat (fun _ => quietEvents)
                  (fun _ _ => (0, 0, 0)) (PTSRA.initialMem 43) eq_refl)).
Defined.

(* ------------------------------------------------------------------ *)
(** *** The Predictive policy with the optimizer *)

Lemma action_bounds_ordered : ordered_bounds PTSRA.bounds.
Proof. unfold PTSRA.bounds. repeat constructor; cbn; lra. Qed.

Lemma in_bounds_genes g :
  in_bounds g PTSRA.bounds ->
  0 <= nth 0 g 0 <= 1 /\ 1 / 10 <= nth 1 g 0 <= 1 /\ 0 <= nth 2 g 0 <= 1.
Proof.
  unfold in_bounds, PTSRA.bounds. intros H.
  inversion H as [|g0 ? r0 ? H0 Hr0]; subst.
  inversion Hr0 as [|g1 ? r1 ? H1 Hr1]; subst.
  inversion Hr1 as [|g2 ? r2 ? H2 Hr2]; subst.
  cbn in *. repeat split; lra.
Qed.

Lemma make_constructed P G mu : constructed (GeneticOptimizer.make P G mu).
Proof. split; reflexivity. Qed.

Section Predictive.
Variable this : PTSRA.t.
Hypothesis optimizer_constructed : constructed (PTSRA.optimizer this).

Lemma optimizeAlpha_range sensor state predictions slot st a f p st' :
  0 <= p_max_W sensor ->
  snd (PTSRA.optimizeAlpha this sensor state predictions slot st)
  = Some (a, f, p, st') ->
  0 <= a <= 1 /\ 0 <= p.
Proof.
  intros Hp E. unfold PTSRA.optimizeAlpha in E.
  match type of E with
  | context [GeneticOptimizer.optimize ?o ?ff 3 PTSRA.bounds st] =>
      pose proof (OptimizerFacts.optimize_in_bounds o PTSRA.bounds ff
                    optimizer_constructed action_bounds_ordered st) as Hb;
      change (List.length PTSRA.bounds) with 3%nat in Hb;
      destruct (GeneticOptimizer.optimize o ff 3 PTSRA.bounds st)
        as [recs [[result st1]|]]; [|discriminate]
  end.
  cbn [snd] in E, Hb. injection E as <- <- <- <-.
  specialize (Hb result st1 eq_refl).
  destruct (in_bounds_genes _ Hb) as (Ha & _ & Hp2).
  split; [exact Ha | nra].
Qed.

Lemma optimizeAlpha_alpha_range sensor state predictions slot st a f p st' :
  snd (PTSRA.optimizeAlpha this sensor state predictions slot st)
  = Some (a, f, p, st') ->
  0 <= a <= 1.
Proof.
  intros E. unfold PTSRA.optimizeAlpha in E.
  match type of E with
  | context [GeneticOptimizer.optimize ?o ?ff 3 PTSRA.bounds st] =>
      pose proof (OptimizerFacts.optimize_in_bounds o PTSRA.bounds ff
                    optimizer_constructed action_bounds_ordered st) as Hb;
      change (List.length PTSRA.bounds) with 3%nat in Hb;
      destruct (GeneticOptimizer.optimize o ff 3 PTSRA.bounds st)
        as [recs [[result st1]|]]; [|discriminate]
  end.
  cbn [snd] in E, Hb. injection E as <- <- <- <-.
  specialize (Hb result st1 eq_refl).
  destruct (in_bounds_genes _ Hb) as (Ha & _ & _). exact Ha.
Qed.

(** With a horizon above 0 the choice is the optimizer's: [alpha] is gene 0
    of its best individual, [f_u] and [p_u] genes 1 and 2 scaled. *)
Lemma choose_uses_optimizer m sensor state ev predictions slot :
  (0 < PTSRA.horizon this)%nat ->
  PTSRA.choose this m sensor state ev predictions slot
  = PTSRA.optimizeAlpha this sensor state predictions slot (PTSRA.rng m).
Proof.
  intros H. unfold PTSRA.choose.
  destruct (Nat.ltb_spec 0 (PTSRA.horizon this)); [reflexivity | lia].
Qed.

Lemma optimizeAlpha_total sensor state predictions slot st :
  (2 <= GeneticOptimizer.populationSize (PTSRA.optimizer this))%nat ->
  exists a f p st',
    snd (PTSRA.optimizeAlpha this sensor state predictions slot st)
    = Some (a, f, p, st').
Proof.
  intros HP. unfold PTSRA.optimizeAlpha.
  match goal with
  | |- context [GeneticOptimizer.optimize ?o ?ff 3 PTSRA.bounds st] =>
      pose proof (OptimizerFacts.optimize_total o PTSRA.bounds ff
                    optimizer_constructed action_bounds_ordered st HP) as Hb;
      change (List.length PTSRA.bounds) with 3%nat in Hb;
      destruct (GeneticOptimizer.optimize o ff 3 PTSRA.bounds st)
        as [recs r]
  end.
  cbn [snd] in Hb. destruct Hb as (result & st1 & ->). cbn [snd].
  repeat eexists.
Qed.

Lemma choose_range m sensor state ev predictions slot a f p st' :
  0 <= p_max_W sensor ->
  snd (PTSRA.choose this m sensor state ev predictions slot)
  = Some (a, f, p, st') ->
  0 <= a <= 1 /\ 0 <= p.
Proof.
  intros Hp E. unfold PTSRA.choose in E.
  destruct (Nat.ltb 0 (PTSRA.horizon this)).
  - exact (optimizeAlpha_range _ _ _ _ _ _ _ _ _ Hp E).
  - cbn [snd] in E. injection E as <- _ <- _.
    split; [apply kappaR_range | apply transmissionPower_nonneg].
Qed.

Lemma choose_alpha_range m sensor state ev predictions slot a f p st' :
  snd (PTSRA.choose this m sensor state ev predictions slot)
  = Some (a, f, p, st') ->
  0 <= a <= 1.
Proof.
  intros E. unfold PTSRA.choose in E.
  destruct (Nat.ltb 0 (PTSRA.horizon this)).
  - exact (optimizeAlpha_alpha_range _ _ _ _ _ _ _ _ _ E).
  - cbn [snd] in E. injection E as <- _ _ _. apply kappaR_range.
Qed.

Lemma choose_total m sensor state ev predictions slot :
  (2 <= GeneticOptimizer.populationSize (PTSRA.optimizer this))%nat ->
  exists a f p st',
    snd (PTSRA.choose this m sensor state ev predictions slot)
    = Some (a, f, p, st').
Proof.
  intros HP. unfold PTSRA.choose.
  destruct (Nat.ltb 0 (PTSRA.horizon this)).
  - apply optimizeAlpha_total. exact HP.
  - cbn [snd]. repeat eexists.
Qed.

Lemma commit_decision sensor state ev a f p allocs es :
  0 <= a <= 1 ->
  thresholded (fst (fst (PTSRA.commit this sensor state ev a f p allocs es))).
Proof.
  intros Ha. unfold PTSRA.commit, thresholded. cbn.
  destruct (Rge_dec a (1 / 2)); repeat split; try lra; try discriminate;
    try reflexivity; intros; try lra; try discriminate.
Qed.

Lemma commit_nonneg sensor state ev a f p allocs es :
  wf_policy (PTSRA.base this) -> events_ok ev ->
  0 <= a <= 1 -> 0 <= p ->
  nonneg_state (snd (fst (PTSRA.commit this sensor state ev a f p allocs es))).
Proof.
  intros Hwf (HA & Hh & Hg) Ha Hp. unfold PTSRA.commit. cbn [fst snd].
  apply updateState_nonneg; try assumption.
  exact (transmissionRate_nonneg (PTSRA.base this) Hwf p _ Hp Hg).
Qed.

(** One sensor of the loop of [executeSlotPredictive], as it unfolds. *)
Lemma predictive_slotLoop_step env noise slot allocs es s ss st sts i m :
  PTSRA.slotLoop this (s :: ss) (st :: sts) env noise i slot allocs es m
  = let ev := env i in
    let m1 := PTSRA.updateHistory m (id s) (ev_arrival ev) (ev_harvest ev)
                                  (ev_channelGain ev) in
    let predictions :=
      PTSRA.predictFuture m1 s (PTSRA.horizon this) (noise i) in
    let c := PTSRA.choose this m1 s st ev predictions slot in
    match snd c with
    | None => (fst c, None)
    | Some (a, f, p, st') =>
        match es with
        | None => (fst c, None)
        | Some e =>
            let r := PTSRA.slotLoop this ss sts env noise (S i) slot allocs es
                                    (PTSRA.withRng m1 st') in
            (fst c ++ fst r,
             match snd r with
             | None => None
             | Some (rest, m') =>
                 Some (TSRA.pushOutput
                         (PTSRA.commit this s st ev a f p allocs e) rest, m')
             end)
        end
    end.
Proof.
  cbn [PTSRA.slotLoop]. cbv zeta.
  destruct (PTSRA.choose this _ s st (env i) _ slot) as [logs [[[[a f] p] st']|]];
    cbn [fst snd]; [|reflexivity].
  destruct es as [e|]; [|reflexivity].
  destruct (PTSRA.slotLoop this ss sts env noise (S i) slot allocs (Some e) _)
    as [logs' [[rest m']|]]; reflexivity.
Qed.

Lemma predictive_slotLoop_invariant env noise slot allocs es sensors :
  wf_policy (PTSRA.base this) ->
  Forall wf_sensor sensors ->
  (forall j, events_ok (env j)) ->
  forall states i m out m',
    snd (PTSRA.slotLoop this sensors states env noise i slot allocs es m)
    = Some (out, m') ->
    Forall nonneg_state (newStates out)
    /\ List.length (newStates out) = List.length sensors
    /\ Forall thresholded (decisions out)
    /\ List.length (decisions out) = List.length sensors.
Proof.
  intros Hwf Hs Henv. induction Hs as [|s ss Hws Hss IH];
    intros states i m out m' E.
  - cbn in E. injection E as <- <-. cbn. repeat split; constructor.
  - destruct states as [|st sts]; [discriminate|].
    rewrite predictive_slotLoop_step in E. cbv zeta in E.
    match type of E with
    | context [PTSRA.choose this ?m1 s st ?ev ?pr slot] =>
        pose proof (choose_range m1 s st ev pr slot) as Hc;
        destruct (PTSRA.choose this m1 s st ev pr slot)
          as [logs [[[[a f] p] st']|]]
    end; cbn [fst snd] in E; [|discriminate].
    destruct Hws as [_ Hpmax].
    destruct (Hc a f p st' Hpmax eq_refl) as [Ha Hp].
    destruct es as [e|]; [|discriminate]. cbn [snd] in E.
    match type of E with
    | context [PTSRA.slotLoop this ss sts env noise (S i) slot allocs ?e ?m2] =>
        specialize (IH sts (S i) m2);
        destruct (PTSRA.slotLoop this ss sts env noise (S i) slot allocs e m2)
          as [logs' [[rest m3]|]]
    end; cbn [snd] in E, IH; [|discriminate].
    destruct (IH rest m3 eq_refl) as (H1 & H2 & H3 & H4).
    assert (Ho : out = TSRA.pushOutput
                         (PTSRA.commit this s st (env i) a f p allocs e) rest)
      by congruence.
    subst out. rewrite pushOutput_newStates, pushOutput_decisions.
    cbn [List.length].
    repeat split; try lia.
    + constructor; [|exact H1].
      apply commit_nonneg; [exact Hwf | apply Henv | exact Ha | exact Hp].
    + constructor; [|exact H3]. apply commit_decision. exact Ha.
Qed.

Lemma slotLoop_bits env noise slot allocs es sensors :
  forall states i m out m',
    snd (PTSRA.slotLoop this sensors states env noise i slot allocs es m)
    = Some (out, m') ->
    List.length (decisions out) = List.length sensors
    /\ Forall thresholded (decisions out).
Proof.
  induction sensors as [|s ss IH]; intros states i m out m' El.
  - cbn in El. injection El as <- <-. cbn. split; [reflexivity | constructor].
  - destruct states as [|st sts]; [discriminate|].
    rewrite predictive_slotLoop_step in El. cbv zeta in El.
    match type of El with
    | context [PTSRA.choose this ?m1 s st ?ev ?pr slot] =>
        pose proof (choose_alpha_range m1 s st ev pr slot) as Hc;
        destruct (snd (PTSRA.choose this m1 s st ev pr slot))
          as [[[[a f] p] st']|]
    end; [|discriminate].
    specialize (Hc a f p st' eq_refl).
    destruct es as [e|]; [|discriminate].
    cbn [snd] in El.
    match type of El with
    | context [PTSRA.slotLoop this ss sts env noise (S i) slot allocs _ ?m2] =>
        specialize (IH sts (S i) m2);
        destruct (snd (PTSRA.slotLoop this ss sts env noise (S i) slot allocs
                         (Some e) m2)) as [[rest m3]|]
    end; [|discriminate].
    destruct (IH rest m3 eq_refl) as [H1 H2].
    assert (Ho : out = TSRA.pushOutput
                         (PTSRA.commit this s st (env i) a f p allocs e) rest)
      by congruence.
    subst out. rewrite pushOutput_decisions. cbn [List.length].
    split; [lia|]. constructor; [|exact H2].
    apply commit_decision. exact Hc.
Qed.

Lemma predictive_slotLoop_total env noise slot allocs e sensors :
  (2 <= GeneticOptimizer.populationSize (PTSRA.optimizer this))%nat ->
  forall states i m,
    List.length states = List.length sensors ->
    exists out m',
      snd (PTSRA.slotLoop this sensors states env noise i slot allocs (Some e) m)
      = Some (out, m').
Proof.
  intros HP. induction sensors as [|s ss IH]; intros states i m Hlen.
  - cbn. repeat eexists.
  - destruct states as [|st sts]; [discriminate|].
    rewrite predictive_slotLoop_step. cbv zeta.
    match goal with
    | |- context [PTSRA.choose this ?m1 s st ?ev ?pr slot] =>
        destruct (choose_total m1 s st ev pr slot HP) as (a & f & p & st' & Ec)
    end.
    rewrite Ec. cbn [snd].
    match goal with
    | |- context [PTSRA.slotLoop this ss sts env noise (S i) slot allocs ?es ?m2] =>
        destruct (IH sts (S i) m2) as (rest & m3 & Er); [cbn in Hlen; lia|]
    end.
    rewrite Er. repeat eexists.
Qed.

Lemma executeSlotPredictive_unfold sensors states es slot env noise m :
  snd (PTSRA.executeSlotPredictive this sensors states es slot env noise m)
  = match TSRA.edgeServerAllocation sensors states with
    | None => None
    | Some allocs =>
        match snd (PTSRA.slotLoop this sensors states env noise 0 slot
                                  allocs es m) with
        | None => None
        | Some (out, m') =>
            match sensors, es with
            | _ :: _, None => None
            | [], _ => Some (TSRA.emptyOutput, m')
            | _ :: _, Some e =>
                Some ({| decisions := decisions out;
                         newStates := newStates out;
                         sensorResults := sensorResults out;
                         edgeResult :=
                           TSRA.edgeResultOf (PTSRA.base this) sensors allocs e |},
                      m')
            end
        end
    end.
Proof.
  unfold PTSRA.executeSlotPredictive.
  destruct (TSRA.edgeServerAllocation sensors states) as [allocs|];
    [|reflexivity].
  destruct (PTSRA.slotLoop this sensors states env noise 0 slot allocs es m)
    as [logs [[out m']|]]; [|reflexivity].
  destruct sensors; destruct es; reflexivity.
Qed.

Lemma executeSlotPredictive_invariant sensors states es slot env noise m out m' :
  wf_policy (PTSRA.base this) ->
  Forall wf_sensor sensors ->
  (forall j, events_ok (env j)) ->
  snd (PTSRA.executeSlotPredictive this sensors states es slot env noise m)
  = Some (out, m') ->
  Forall nonneg_state (newStates out)
  /\ List.length (newStates out) = List.length sensors
  /\ Forall thresholded (decisions out)
  /\ List.length (decisions out) = List.length sensors.
Proof.
  intros Hwf Hs Henv E. rewrite executeSlotPredictive_unfold in E.
  destruct (TSRA.edgeServerAllocation sensors states) as [allocs|];
    [|discriminate].
  pose proof (predictive_slotLoop_invariant env noise slot allocs es sensors Hwf Hs Henv
                states 0%nat m) as Hl.
  destruct (snd (PTSRA.slotLoop this sensors states env noise 0 slot allocs es m))
    as [[o m1]|]; [|discriminate].
  specialize (Hl o m1 eq_refl).
  destruct sensors as [|s ss].
  - injection E as <- <-. cbn. repeat split; constructor.
  - destruct es as [e|]; [|discriminate].
    injection E as <- <-. cbn [newStates decisions]. exact Hl.
Qed.

(** With a horizon above 0 the decisions of the sensor loop are the
    optimizer's. *)
Lemma slotLoop_decides env noise slot allocs es sensors :
  (0 < PTSRA.horizon this)%nat ->
  forall states i m out m',
    snd (PTSRA.slotLoop this sensors states env noise i slot allocs es m)
    = Some (out, m') ->
    optimizer_decides this sensors states env noise i m (decisions out).
Proof.
  intros Hh. induction sensors as [|s ss IH]; intros states i m out m' El.
  - cbn in El. injection El as <- <-. cbn. exact I.
  - destruct states as [|st sts]; [discriminate|].
    rewrite predictive_slotLoop_step in El. cbv zeta in El.
    rewrite choose_uses_optimizer in El by exact Hh.
    unfold PTSRA.optimizeAlpha in El.
    match type of El with
    | context [GeneticOptimizer.optimize ?o ?ff 3 PTSRA.bounds ?st0] =>
        destruct (GeneticOptimizer.optimize o ff 3 PTSRA.bounds st0)
          as [recs [[result st1]|]] eqn:Eo
    end; cbn [fst snd] in El; [|discriminate].
    destruct es as [e|]; [|discriminate]. cbn [snd] in El.
    match type of El with
    | context [PTSRA.slotLoop this ss sts env noise (S i) slot allocs _ ?m2] =>
        specialize (IH sts (S i) m2);
        destruct (snd (PTSRA.slotLoop this ss sts env noise (S i) slot allocs
                         (Some e) m2)) as [[rest m3]|]
    end; [|discriminate].
    specialize (IH rest m3 eq_refl).
    match type of El with
    | Some (?o, _) = _ => assert (Ho : out = o) by congruence
    end.
    subst out. clear El.
    rewrite pushOutput_decisions. cbn [optimizer_decides]. cbv zeta.
    exists recs, result, st1.
    split; [exact Eo|]. split; [|exact IH].
    unfold reports_best, bestOffload, PTSRA.commit.
    cbn [fst kappa alpha f_u p_u].
    split; [reflexivity|].
    destruct (Rge_dec (nth 0 (GeneticOptimizer.genes
                                (GeneticOptimizer.best result)) 0) (1 / 2))
      as [Hge|Hlt].
    + split; [split; [intros _; exact Hge | reflexivity]|].
      split; [split; [discriminate | intros Hc; lra]|].
      split; reflexivity.
    + split; [split; [discriminate | intros Hc; contradiction]|].
      split; [split; [intros _; lra | reflexivity]|].
      split; reflexivity.
Qed.

End Predictive.

(** C10: in a slot of the Predictive policy with a horizon above 0, the
    decision reported for each sensor is the optimizer's: [alpha] is gene 0
    of the best individual that [GeneticOptimizer.optimize] returns for the
    fitness of that sensor, and the bit [kappa] is 1 exactly when that
    [alpha] is at least 1/2 and 0 otherwise, with [alpha] in [0, 1] (the
    bit follows [alpha] in this way for every horizon); and the slot does
    report one decision per sensor as soon as the population has two
    individuals, each sensor has a state and there is an edge server. *)
Theorem predictive_bit_is_threshold this sensors states es slot env noise m :
  constructed (PTSRA.optimizer this) ->
  (forall out m',
     snd (PTSRA.executeSlotPredictive this sensors states es slot env noise m)
     = Some (out, m') ->
     List.length (decisions out) = List.length sensors
     /\ Forall thresholded (decisions out)
     /\ ((0 < PTSRA.horizon this)%nat ->
         optimizer_decides this sensors states env noise 0 m (decisions out)))
  /\ ((2 <= GeneticOptimizer.populationSize (PTSRA.optimizer this))%nat ->
      List.length states = List.length sensors ->
      es <> None ->
      exists out m',
        snd (PTSRA.executeSlotPredictive this sensors states es slot env
                                         noise m)
        = Some (out, m')).
Proof.
  intros Hc. rewrite (executeSlotPredictive_unfold this). split.
  - intros out m' E.
    destruct (TSRA.edgeServerAllocation sensors states) as [allocs|];
      [|discriminate].
    pose proof (slotLoop_bits this Hc env noise slot allocs es sensors states
                  0%nat m) as Hb.
    pose proof (fun Hh => slotLoop_decides this env noise slot allocs es
                            sensors Hh states 0%nat m) as Hd.
    destruct (snd (PTSRA.slotLoop this sensors states env noise 0 slot allocs
                     es m)) as [[o m1]|]; [|discriminate].
    specialize (Hb o m1 eq_refl).
    destruct sensors as [|s ss].
    + injection E as <- <-. cbn.
      split; [reflexivity|]. split; [constructor | intros _; exact I].
    + destruct es as [e|]; [|discriminate].
      injection E as <- <-. cbn [decisions].
      split; [exact (proj1 Hb)|]. split; [exact (proj2 Hb)|].
      intros Hh. exact (Hd Hh o m1 eq_refl).
  - intros HP Hlen Hes. destruct es as [e|]; [|contradiction].
    unfold TSRA.edgeServerAllocation.
    rewrite (EdgeFacts.weightedBacklogs_combine sensors states Hlen).
    match goal with
    | |- context [PTSRA.slotLoop this sensors states env noise 0 slot ?al
                                 (Some e) m] =>
        destruct (predictive_slotLoop_total this Hc env noise slot al e sensors
                    HP states 0%nat m Hlen) as (out & m' & El)
    end.
    rewrite El. destruct sensors; eexists; eexists; reflexivity.
Qed.

Lemma predictive_bit_is_threshold_witness :
  constructed (PTSRA.optimizer smallPredictive)
  /\ exists out m',
       snd (PTSRA.executeSlotPredictive smallPredictive [unitSensor]
              [drainedState] (Some unitEdge) 0 (fun _ => quietEvents)
              (fun _ _ => (0, 0, 0)) (PTSRA.initialMem 43))
       = Some (out, m')
       /\ List.length (decisions out) = 1%nat
       /\ Forall thresholded (decisions out)
       /\ optimizer_decides smallPredictive [unitSensor] [drainedState]
            (fun _ => quietEvents) (fun _ _ => (0, 0, 0)) 0
            (PTSRA.initialMem 43) (decisions out).
Proof.
  assert (Hc : constructed (PTSRA.optimizer smallPredictive))
    by (split; reflexivity).
  split; [exact Hc|].
  destruct (predictive_bit_is_threshold smallPredictive [unitSensor]
              [drainedState] (Some unitEdge) 0%nat (fun _ => quietEvents)
              (fun _ _ => (0, 0, 0)) (PTSRA.initialMem 43) Hc)
    as [Hpartial Htotal].
  destruct Htotal as (out & m' & E).
  - cbn. lia.
  - reflexivity.
  - discriminate.
  - exists out, m'. split; [exact E|].
    destruct (Hpartial out m' E) as (H1 & H2 & H3).
    split; [exact H1|]. split; [exact H2|]. apply H3. cbn. lia.
Defined.

End PolicyFacts.

(* ================================================================== *)
(** ** The fitness function of the Predictive policy *)
(* ================================================================== *)

Module FitnessFacts.

(** The battery test of the rollout never fires: the simulated battery is
    [max(0, ...) + harvest], which is not negative. *)
Lemma rollout_battery_test_dead n : forall h alpha f_u p_u sensor predictions
    V tau bandwidth globalParams simState totalCost,
  (forall k, 0 <= nth k (PTSRA.harvests predictions) 0) ->
  PTSRA.rollout n h alpha f_u p_u sensor predictions V tau bandwidth
                globalParams simState totalCost
  = rolloutNoBatteryTest n h alpha f_u p_u sensor predictions V tau bandwidth
                         globalParams simState totalCost.
Proof.
  induction n as [|n IH]; intros h alpha f_u p_u sensor predictions V tau
    bandwidth globalParams simState totalCost Hh;
    cbn [PTSRA.rollout rolloutNoBatteryTest]; [reflexivity|].
  cbv zeta. cbn [B_u].
  match goal with
  | |- context [Rlt_dec ?b 0] =>
      destruct (Rlt_dec b 0) as [Hneg | _]
  end.
  - exfalso. revert Hneg.
    match goal with
    | |- Rmax 0 ?x + _ < 0 -> _ => pose proof (Rmax_l 0 x)
    end.
    specialize (Hh h). lra.
  - apply IH. exact Hh.
Qed.

(** C7, on the code: a candidate that runs the CPU at full speed on an
    empty battery (local energy 1 J, battery 0 J, harvest 0 J) gets fitness
    -1; no penalty of 10^6 is added. *)
Theorem fitness_without_battery_penalty :
  let f_u := 1 * f_max_Hz unitSensor in
  TSRA.calculateLocalEnergy unitPolicy f_u
    > B_u drainedState + nth 0 (PTSRA.harvests quietPrediction) 0
  /\ PTSRA.fitnessFunction smallPredictive [0; 1; 0] unitSensor
       drainedState quietPrediction 1 1 1
       (TSRA.globalParams unitPolicy)
     = -1.
Proof.
  cbv zeta. split.
  - unfold TSRA.calculateLocalEnergy. cbn. lra.
  - unfold PTSRA.fitnessFunction. cbn.
    replace (1 + 0 * 0 * 1 / 1) with 1 by lra.
    rewrite PolicyFacts.log2_1.
    repeat match goal with
           | |- context [Rmax ?a ?b] =>
               first [ rewrite (Rmax_left a b) by lra
                     | rewrite (Rmax_right a b) by lra ]
           end.
    repeat match goal with
           | |- context [Rlt_dec ?a ?b] => destruct (Rlt_dec a b); try lra
           | |- context [Rgt_dec ?a ?b] => destruct (Rgt_dec a b); try lra
           end.
Qed.

End FitnessFacts.

(* ================================================================== *)
(** ** The state invariant along a run *)
(* ================================================================== *)

Module InvariantFacts.

Lemma initial_states_nonneg sensors :
  Forall (fun s => 0 <= initial_queue_bits s /\ 0 <= battery_J s) sensors ->
  Forall nonneg_state (TSRA.initializeSensorStates sensors).
Proof.
  intros H. unfold TSRA.initializeSensorStates. apply Forall_map.
  eapply Forall_impl; [|exact H]. intros s [Hq Hb].
  unfold nonneg_state. cbn. repeat split; lra.
Qed.

Section Run.
Variable config : ExperimentConfig.
Variable env : Simulator.Environment.
Hypothesis config_wf : wf_config config.
Hypothesis env_wf : env_ok env.

Local Abbreviation inv run :=
  (Forall nonneg_state (Simulator.tsraStates run)
   /\ Forall nonneg_state (Simulator.ptsraStates run)).

Lemma slotBody_invariant slot run :
  inv run -> inv (Simulator.slotBody config env slot run).
Proof.
  intros [Ht Hp]. destruct config_wf as (Hwf & Hs & _).
  unfold Simulator.slotBody.
  destruct (TSRA.executeSlot (Simulator.tsra config) (sensors config)
              (Simulator.tsraStates run) (Simulator.edgeServer config)
              (Simulator.tsraEvents env slot)) as [tsraResult|] eqn:Et.
  2:{ cbn. split; assumption. }
  assert (Ht' : Forall nonneg_state (newStates tsraResult)).
  { eapply PolicyFacts.executeSlot_nonneg; [exact Hwf | | exact Et].
    intros j. apply env_wf. }
  destruct (PTSRA.executeSlotPredictive (Simulator.ptsra config)
              (sensors config) (Simulator.ptsraStates run)
              (Simulator.edgeServer config) slot
              (Simulator.ptsraEvents env slot) (Simulator.noise env slot)
              (Simulator.ptsraMem run)) as [logs [[ptsraResult mem']|]] eqn:Ep.
  2:{ cbn. split; assumption. }
  cbn. split; [exact Ht'|].
  eapply (PolicyFacts.executeSlotPredictive_invariant (Simulator.ptsra config)).
  - apply PolicyFacts.make_constructed.
  - exact Hwf.
  - exact Hs.
  - intros j. apply env_wf.
  - rewrite Ep. reflexivity.
Qed.

Lemma run_invariant n : forall slot run,
  inv run -> inv (Simulator.slotLoop config env n slot run).
Proof.
  induction n as [|n IH]; intros slot run Hinv; cbn [Simulator.slotLoop].
  - exact Hinv.
  - pose proof (slotBody_invariant slot run Hinv) as Hb.
    destruct (status (Simulator.state (Simulator.slotBody config env slot run)));
      [apply IH; exact Hb | exact Hb ..].
Qed.

(** C1, within the ranges of the data model: for a configuration with
    [V], [tau], [W], [theta] and [sigma2] above 0, every sensor with
    [delta] above 0, [p_max] not negative and initial queues and battery
    not negative ([wf_config]), and for events whose arrivals and harvests
    are not negative and whose channel gains are above 0 ([env_ok]): along
    a run of the driver, after any number of slots, the four state
    components of every sensor are non-negative under both policies (the
    Baseline's states and the Predictive's states). *)
Theorem states_nonneg_every_slot n :
  let run := Simulator.slotLoop config env n 0 (Simulator.initialRun config) in
  Forall nonneg_state (Simulator.tsraStates run)
  /\ Forall nonneg_state (Simulator.ptsraStates run).
Proof.
  apply run_invariant. destruct config_wf as (_ & _ & Hi).
  cbn. split; apply initial_states_nonneg; exact Hi.
Qed.

End Run.

Lemma oneSensorConfig_wf : wf_config oneSensorConfig.
Proof.
  unfold wf_config, wf_policy, wf_sensor. cbn.
  repeat split; try lra; repeat constructor; cbn; lra.
Qed.

Lemma quietEnvironment_ok : env_ok quietEnvironment.
Proof.
  intros slot i. unfold events_ok. cbn. repeat split; lra.
Qed.

Lemma states_nonneg_every_slot_witness :
  wf_config oneSensorConfig /\ env_ok quietEnvironment
  /\ Forall nonneg_state
       (Simulator.tsraStates
          (Simulator.slotLoop oneSensorConfig quietEnvironment 3 0
             (Simulator.initialRun oneSensorConfig)))
  /\ Forall nonneg_state
       (Simulator.ptsraStates
          (Simulator.slotLoop oneSensorConfig quietEnvironment 3 0
             (Simulator.initialRun oneSensorConfig))).
Proof.
  split; [exact oneSensorConfig_wf|]. split; [exact quietEnvironment_ok|].
  exact (states_nonneg_every_slot oneSensorConfig quietEnvironment
           oneSensorConfig_wf quietEnvironment_ok 3).
Defined.

End InvariantFacts.

(* ================================================================== *)
(** ** More on the generator: first draws, ranges, shuffling, Poisson *)
(* ================================================================== *)

Module RandomOpsFacts.
Import JsInt.

(** X1: For every seed the generator is Mulberry32 on its first 4917756
    calls: call number [n] returns the draw of Mulberry32 and leaves the
    state at [seed >>> 0] plus [n + 1] increments, without any wrap. *)
Theorem first_draws_are_Mulberry32 seed n :
  (n < 4917756)%N ->
  SeededRandom.nth_draw n (SeededRandom.make seed)
  = Mulberry32.nth_draw n (SeededRandom.make seed)
  /\ SeededRandom.nth_state (N.succ n) (SeededRandom.make seed)
     = (ToUint32 seed + (Z.of_N n + 1) * c32)%Z.
Proof.
  intros Hn.
  pose proof (RandomFacts.ToUint32_range seed) as Hr. unfold two32 in Hr.
  assert (Hb : (ToUint32 seed + (Z.of_N n + 1) * c32 < two53)%Z).
  { unfold two53, c32. lia. }
  split.
  - apply RandomFacts.draws_agree_below_two53. exact Hb.
  - unfold SeededRandom.make.
    rewrite RandomFacts.nth_state_exact; rewrite ?N2Z.inj_succ;
      unfold two53, c32 in *; lia.
Qed.

Lemma first_draws_are_Mulberry32_witness :
  (999 < 4917756)%N
  /\ SeededRandom.nth_draw 999 (SeededRandom.make 42)
     = Mulberry32.nth_draw 999 (SeededRandom.make 42).
Proof.
  split; [reflexivity|].
  exact (proj1 (first_draws_are_Mulberry32 42 999 eq_refl)).
Defined.

(** X2: [bernoulli(p)] never succeeds for [p <= 0] and always succeeds for
    [p >= 1]. *)
Theorem bernoulli_extremes p st :
  (p <= 0 -> fst (RandomOps.bernoulli p st) = false)
  /\ (1 <= p -> fst (RandomOps.bernoulli p st) = true).
Proof.
  unfold RandomOps.bernoulli.
  pose proof (RandomFacts.random_unit_interval st) as [H0 H1].
  destruct (SeededRandom.random st) as [r st']. cbn [fst] in *.
  split; intros Hp; destruct (Rlt_dec r p); try reflexivity; lra.
Qed.

(* ------------------------------------------------------------------ *)
(** *** Rounding to a double and scaled draws *)

Lemma fl53_nonneg z : (0 <= z -> 0 <= fl53 z)%Z.
Proof.
  intros Hz. unfold fl53. cbv zeta.
  destruct (Z.ltb_spec (Z.abs z) two53); [exact Hz|].
  assert (Hp : (0 < 2 ^ (Z.log2 (Z.abs z) - 52))%Z).
  { apply Z.pow_pos_nonneg; [lia|].
    assert (Z.log2 two53 <= Z.log2 (Z.abs z))%Z by (apply Z.log2_le_mono; lia).
    change (Z.log2 two53) with 53%Z in *. lia. }
  assert (Hq : (0 <= Z.abs z / 2 ^ (Z.log2 (Z.abs z) - 52))%Z)
    by (apply Z.div_pos; lia).
  assert (Hs : (0 <= Z.sgn z)%Z) by lia.
  apply Z.mul_nonneg_nonneg; [exact Hs|].
  apply Z.mul_nonneg_nonneg; [|lia].
  repeat match goal with
         | |- context [if ?c then _ else _] => destruct c
         end; lia.
Qed.

(** Rounding moves a non-negative integer up by less than one part in
    2^52. *)
Lemma fl53_upper z :
  (0 <= z -> 2 ^ 52 * fl53 z <= (2 ^ 52 + 1) * z)%Z.
Proof.
  intros Hz. unfold fl53. cbv zeta.
  destruct (Z.ltb_spec (Z.abs z) two53); [nia|].
  rewrite Z.abs_eq in * by exact Hz.
  assert (Hzpos : (0 < z)%Z) by (unfold two53 in *; lia).
  rewrite Z.sgn_pos by exact Hzpos.
  set (e := (Z.log2 z - 52)%Z).
  assert (He : (1 <= e)%Z).
  { assert (Z.log2 two53 <= Z.log2 z)%Z by (apply Z.log2_le_mono; lia).
    change (Z.log2 two53) with 53%Z in *. unfold e. lia. }
  assert (Hpe : (0 < 2 ^ e)%Z) by (apply Z.pow_pos_nonneg; lia).
  assert (Hlog : (2 ^ 52 * 2 ^ e <= z)%Z).
  { rewrite <- Z.pow_add_r by lia. replace (52 + e)%Z with (Z.log2 z) by (unfold e; lia).
    apply Z.log2_spec. exact Hzpos. }
  pose proof (Z.div_mod z (2 ^ e) ltac:(lia)) as Hdm.
  pose proof (Z.mod_pos_bound z (2 ^ e) Hpe) as Hmod.
  set (q := (z / 2 ^ e)%Z) in *. set (r := (z mod 2 ^ e)%Z) in *.
  assert (Hq' : forall q', (q' <= q + 1)%Z ->
                  (2 ^ 52 * (1 * (q' * 2 ^ e)) <= (2 ^ 52 + 1) * z)%Z).
  { intros q' Hle.
    assert ((q' * 2 ^ e <= z + 2 ^ e)%Z) by nia.
    nia. }
  repeat match goal with
         | |- context [if ?c then _ else _] => destruct c
         end; apply Hq'; lia.
Qed.

(** A scaled draw [Math.floor(random() * k)] is an index below [k]. *)
Lemma scaledDraw_range k st :
  (0 < k)%Z -> (0 <= fst (RandomOps.scaledDraw k st) < k)%Z.
Proof.
  intros Hk. unfold RandomOps.scaledDraw.
  pose proof (RandomFacts.random_bits_range st) as Hu.
  destruct (SeededRandom.random_bits st) as [u st']. cbn [fst] in *.
  unfold two32 in *.
  assert (Hz : (0 <= u * k)%Z) by nia.
  pose proof (fl53_nonneg _ Hz) as H0.
  pose proof (fl53_upper _ Hz) as H1.
  split.
  - apply Z.div_pos; lia.
  - apply Z.div_lt_upper_bound; [lia|].
    assert ((2 ^ 52 + 1) * (u * k) < 2 ^ 52 * (4294967296 * k))%Z; [|lia].
    assert ((2 ^ 52 + 1) * u < 2 ^ 52 * 4294967296)%Z by lia.
    nia.
Qed.

Lemma nextInt_bounds min max st :
  (- 2 ^ 51 <= min)%Z -> (min <= max)%Z -> (max <= 2 ^ 51)%Z ->
  (min <= fst (RandomOps.nextInt min max st) <= max)%Z.
Proof.
  intros Hlo Hle Hhi. unfold RandomOps.nextInt.
  change (2 ^ 51)%Z with 2251799813685248%Z in *.
  assert (Hk : add (RandomOps.sub max min) 1 = (max - min + 1)%Z).
  { unfold RandomOps.sub, add.
    rewrite (RandomFacts.fl53_small (max - min)) by (unfold two53; lia).
    apply RandomFacts.fl53_small. unfold two53. lia. }
  rewrite Hk.
  pose proof (scaledDraw_range (max - min + 1) st ltac:(lia)) as Hq.
  destruct (RandomOps.scaledDraw (max - min + 1) st) as [q st'].
  cbn [fst] in *. unfold add. rewrite RandomFacts.fl53_small; unfold two53; lia.
Qed.

(** X3: [nextInt(min, max)] with [min <= max] returns an integer between
    [min] and [max], both included, for bounds up to [2^51] in size, and
    makes one draw. *)
Theorem nextInt_range min max st :
  (- 2 ^ 51 <= min)%Z -> (min <= max)%Z -> (max <= 2 ^ 51)%Z ->
  (min <= fst (RandomOps.nextInt min max st) <= max)%Z
  /\ snd (RandomOps.nextInt min max st)
     = snd (SeededRandom.random_bits st).
Proof.
  intros Hlo Hle Hhi. split; [apply nextInt_bounds; assumption|].
  unfold RandomOps.nextInt, RandomOps.scaledDraw.
  destruct (SeededRandom.random_bits st). reflexivity.
Qed.

Lemma nextInt_range_witness :
  (- 2 ^ 51 <= 800)%Z /\ (800 <= 1500)%Z /\ (1500 <= 2 ^ 51)%Z
  /\ (800 <= fst (RandomOps.nextInt 800 1500 (SeededRandom.make 42)) <= 1500)%Z.
Proof.
  assert (H1 : (- 2 ^ 51 <= 800)%Z) by lia.
  assert (H2 : (800 <= 1500)%Z) by lia.
  assert (H3 : (1500 <= 2 ^ 51)%Z) by lia.
  split; [exact H1|]. split; [exact H2|]. split; [exact H3|].
  exact (proj1 (nextInt_range 800 1500 (SeededRandom.make 42) H1 H2 H3)).
Defined.

(* ------------------------------------------------------------------ *)
(** *** [shuffle] and [sample] *)

Section ArrayFacts.
Variable T : Type.
Implicit Types (l : list T) (x y : T).

Lemma update_length l : forall i x,
  List.length (RandomOps.update l i x) = List.length l.
Proof.
  induction l as [|h t IH]; intros [|i] x; cbn; try reflexivity.
  now rewrite IH.
Qed.

Lemma nth_error_update_same l : forall i x,
  (i < List.length l)%nat -> nth_error (RandomOps.update l i x) i = Some x.
Proof.
  induction l as [|h t IH]; intros [|i] x Hi; cbn in *; try lia;
    [reflexivity | apply IH; lia].
Qed.

Lemma nth_error_update_other l : forall i j x,
  i <> j -> nth_error (RandomOps.update l i x) j = nth_error l j.
Proof.
  induction l as [|h t IH]; intros [|i] [|j] x Hij; cbn; try reflexivity;
    try contradiction.
  apply IH. lia.
Qed.

(** Overwriting [x] by [y] trades one for the other. *)
Lemma update_trades l : forall i x y,
  nth_error l i = Some x ->
  Permutation (y :: l) (x :: RandomOps.update l i y).
Proof.
  induction l as [|h t IH]; intros [|i] x y H; cbn in *; try discriminate.
  - injection H as ->. apply perm_swap.
  - specialize (IH i x y H).
    transitivity (h :: y :: t); [apply perm_swap|].
    transitivity (h :: x :: RandomOps.update t i y);
      [apply perm_skip; exact IH | apply perm_swap].
Qed.

Lemma swap_permutation l i j : Permutation (RandomOps.swap l i j) l.
Proof.
  unfold RandomOps.swap.
  destruct (nth_error l i) as [x|] eqn:Ei; [|reflexivity].
  destruct (nth_error l j) as [y|] eqn:Ej; [|reflexivity].
  assert (Hi : (i < List.length l)%nat)
    by (apply nth_error_Some; congruence).
  assert (Hj : (j < List.length l)%nat)
    by (apply nth_error_Some; congruence).
  pose proof (update_trades l j y x Ej) as H1.
  assert (E1 : nth_error (RandomOps.update l j x) i = Some x).
  { destruct (Nat.eq_dec j i) as [->|Hne].
    - apply nth_error_update_same. exact Hi.
    - rewrite nth_error_update_other by exact Hne. exact Ei. }
  pose proof (update_trades (RandomOps.update l j x) i x y E1) as H2.
  apply Permutation_cons_inv with (a := x).
  symmetry. transitivity (y :: RandomOps.update l j x); assumption.
Qed.

Lemma swap_length l i j : List.length (RandomOps.swap l i j) = List.length l.
Proof. apply Permutation_length, swap_permutation. Qed.

(** Inside [shuffle] the swapped positions are inside the array: the
    drawn index [j] is at most [i]. *)
Lemma shuffleLoop_index i st :
  (Z.to_nat (fst (RandomOps.scaledDraw (Z.of_nat i + 1) st)) <= i)%nat.
Proof.
  pose proof (scaledDraw_range (Z.of_nat i + 1) st ltac:(lia)). lia.
Qed.

Lemma shuffleLoop_permutation i : forall l st,
  Permutation (fst (RandomOps.shuffleLoop i l st)) l.
Proof.
  induction i as [|i IH]; intros l st; cbn [RandomOps.shuffleLoop].
  - reflexivity.
  - destruct (RandomOps.scaledDraw (Z.of_nat (S i) + 1) st) as [j st'].
    transitivity (RandomOps.swap l (S i) (Z.to_nat j));
      [apply IH | apply swap_permutation].
Qed.

(** The loop of [shuffle] consumes one draw per position above 0. *)
Lemma shuffleLoop_state i : forall l st,
  snd (RandomOps.shuffleLoop i l st)
  = SeededRandom.nth_state (N.of_nat i) st.
Proof.
  induction i as [|i IH]; intros l st; cbn [RandomOps.shuffleLoop].
  - reflexivity.
  - unfold RandomOps.scaledDraw.
    destruct (SeededRandom.random_bits st) as [u st'] eqn:E.
    rewrite IH. rewrite Nat2N.inj_succ.
    unfold SeededRandom.nth_state. rewrite N.iter_succ_r, E. reflexivity.
Qed.

(** X4: [shuffle] returns a rearrangement of its argument: the same elements
    with the same multiplicities, none lost, none added; it makes one draw
    per element but the first. *)
Theorem shuffle_permutation l st :
  Permutation (fst (RandomOps.shuffle l st)) l
  /\ List.length (fst (RandomOps.shuffle l st)) = List.length l
  /\ snd (RandomOps.shuffle l st)
     = SeededRandom.nth_state (N.of_nat (List.length l - 1)) st.
Proof.
  unfold RandomOps.shuffle.
  pose proof (shuffleLoop_permutation (List.length l - 1) l st) as H.
  repeat split; [exact H | apply Permutation_length, H | apply shuffleLoop_state].
Qed.

(** X5: [sample(array, n)] returns [min(n, length)] elements taken from the
    array without replacement: together with the elements it leaves out
    they rearrange the array. *)
Theorem sample_without_replacement l n st :
  List.length (fst (RandomOps.sample l n st)) = Nat.min n (List.length l)
  /\ exists rest, Permutation (fst (RandomOps.sample l n st) ++ rest) l.
Proof.
  unfold RandomOps.sample, RandomOps.shuffle.
  pose proof (shuffleLoop_permutation (List.length l - 1) l st) as Hp.
  pose proof (Permutation_length Hp) as Hl.
  destruct (RandomOps.shuffleLoop (List.length l - 1) l st)
    as [shuffled st']. cbn [fst] in *.
  split.
  - rewrite length_firstn, Hl. reflexivity.
  - exists (skipn n shuffled). rewrite firstn_skipn. exact Hp.
Qed.

End ArrayFacts.

(* ------------------------------------------------------------------ *)
(** *** [poisson] *)

(** The largest value of [random()]. *)
Lemma random_le_max st :
  fst (SeededRandom.random st) <= 4294967295 / 4294967296.
Proof.
  rewrite RandomFacts.random_value.
  pose proof (RandomFacts.random_bits_range st) as [_ Hhi].
  unfold two32 in Hhi.
  assert (H : (fst (SeededRandom.random_bits st) <= 4294967295)%Z) by lia.
  apply IZR_le in H. lra.
Qed.

Lemma poissonLoop_enough fuel : forall L k p st,
  0 <= p -> (0 < fuel)%nat ->
  p * (4294967295 / 4294967296) ^ fuel <= L ->
  exists k' st',
    RandomOps.poissonLoop fuel L k p st = Value (k', st')
    /\ (k < k' <= k + fuel)%nat.
Proof.
  induction fuel as [|fuel IH]; intros L k p st Hp Hf Hq; [lia|].
  cbn [RandomOps.poissonLoop].
  pose proof (RandomFacts.random_unit_interval st) as [Hr0 _].
  pose proof (random_le_max st) as Hr1.
  destruct (SeededRandom.random st) as [r st']. cbn [fst] in *.
  assert (Hq0 : 0 <= (4294967295 / 4294967296) ^ fuel)
    by (apply pow_le; lra).
  destruct (Rgt_dec (p * r) L) as [Hgt|Hle].
  - destruct fuel as [|fuel'].
    + exfalso. cbn in Hq. nra.
    + destruct (IH L (S k) (p * r) st') as (k' & st2 & E & Hk).
      * nra.
      * lia.
      * change ((4294967295 / 4294967296) ^ S (S fuel'))
          with (4294967295 / 4294967296 * (4294967295 / 4294967296) ^ S fuel')
          in Hq.
        set (Q := (4294967295 / 4294967296) ^ S fuel') in *.
        assert (p * r * Q <= p * (4294967295 / 4294967296 * Q)); [|lra].
        rewrite Rmult_assoc. apply Rmult_le_compat_l; [exact Hp|].
        apply Rmult_le_compat_r; [exact Hq0 | exact Hr1].
      * exists k', st2. split; [exact E | lia].
  - exists (S k), st'. split; [reflexivity | lia].
Qed.

Lemma poissonLoop_more_fuel fuel : forall L k p st v m,
  RandomOps.poissonLoop fuel L k p st = Value v ->
  RandomOps.poissonLoop (fuel + m) L k p st = Value v.
Proof.
  induction fuel as [|fuel IH]; intros L k p st v m E; [discriminate|].
  cbn [RandomOps.poissonLoop Nat.add] in *.
  destruct (SeededRandom.random st) as [r st'].
  destruct (Rgt_dec (p * r) L); [apply IH; exact E | exact E].
Qed.

Local Abbreviation q32 := (4294967295 / 4294967296).

Lemma exp_pow_INR y n : exp y ^ n = exp (INR n * y).
Proof.
  induction n as [|n IH].
  - cbn. rewrite Rmult_0_l, exp_0. reflexivity.
  - rewrite S_INR. cbn [pow]. rewrite IH, <- exp_plus. f_equal. ring.
Qed.

(** [(1 - 2^-32)^(30 * 2^32) <= exp(-30)] *)
Lemma q32_pow_fuel : q32 ^ poissonFuel <= exp (- 30).
Proof.
  assert (Hq : q32 <= exp (- / 4294967296)).
  { pose proof (exp_ineq1_le (- / 4294967296)). lra. }
  apply Rle_trans with (exp (- / 4294967296) ^ poissonFuel).
  - apply pow_incr. split; [lra | exact Hq].
  - rewrite exp_pow_INR. right. f_equal.
    unfold poissonFuel. rewrite INR_IZR_INZ, Z2Nat.id by lia. field.
Qed.

Lemma q32_pow_antitone n m : (n <= m)%nat -> q32 ^ m <= q32 ^ n.
Proof.
  intros H. replace m with (n + (m - n))%nat by lia. rewrite pow_add.
  assert (H0 : 0 <= q32 ^ n) by (apply pow_le; lra).
  assert (H1 : q32 ^ (m - n) <= 1).
  { rewrite <- (pow1 (m - n)). apply pow_incr. lra. }
  nra.
Qed.

(** Whatever the state, the loop of [poisson] ends within [poissonFuel]
    iterations when its threshold is at least [exp(-30)]. *)
Lemma poissonLoop_uniform fuel L k p st :
  (poissonFuel <= fuel)%nat -> exp (- 30) <= L -> 0 <= p <= 1 ->
  exists k' st',
    RandomOps.poissonLoop fuel L k p st = Value (k', st') /\ (k < k')%nat.
Proof.
  intros Hf HL Hp.
  assert (Hpos : (0 < poissonFuel)%nat).
  { unfold poissonFuel. lia. }
  destruct (poissonLoop_enough fuel L k p st) as (k' & st' & E & Hk).
  - lra.
  - lia.
  - pose proof q32_pow_fuel. pose proof (q32_pow_antitone _ _ Hf).
    assert (0 <= q32 ^ fuel) by (apply pow_le; lra). nra.
  - exists k', st'. split; [exact E | lia].
Qed.

(** Box-Muller gives a finite number unless its first draw is 0. *)
Lemma gaussian_finite mean std st :
  fst (SeededRandom.random st) <> 0 ->
  exists x,
    SeededRandom.gaussian mean (JsNum.Fin std) st
    = (JsNum.Fin x, snd (SeededRandom.random (snd (SeededRandom.random st)))).
Proof.
  intros Hu. unfold SeededRandom.gaussian, SeededRandom.boxMuller.
  destruct (SeededRandom.random st) as [u1 st1]. cbn [fst snd] in *.
  destruct (SeededRandom.random st1) as [u2 st2]. cbn [fst snd].
  destruct (Req_dec_T u1 0) as [E|_]; [contradiction|].
  cbn [JsNum.mul JsNum.add]. eexists. reflexivity.
Qed.

(** With [poissonFuel] iterations or more, [poisson] returns a count that
    is not negative, or plus infinity in its Gaussian branch; more fuel
    does not change what it returns. *)
Lemma poisson_enough_fuel lambda st fuel :
  (poissonFuel <= fuel)%nat ->
  RandomOps.poisson fuel lambda st = RandomOps.poisson poissonFuel lambda st
  /\ ((exists k st', RandomOps.poisson fuel lambda st = Value (k, st')
                     /\ (0 <= k)%Z)
      \/ (30 <= lambda
          /\ RandomOps.poisson fuel lambda st = NonFinite)).
Proof.
  intros Hf. unfold RandomOps.poisson.
  destruct (Rlt_dec lambda 30) as [Hsmall|Hlarge].
  - assert (HL : exp (- 30) <= exp (- lambda)).
    { left. apply exp_increasing. lra. }
    destruct (poissonLoop_uniform poissonFuel (exp (- lambda)) 0 1 st
                (le_n _) HL ltac:(lra)) as (k' & st' & E & Hk).
    replace fuel with (poissonFuel + (fuel - poissonFuel))%nat by lia.
    rewrite (poissonLoop_more_fuel _ _ _ _ _ _ (fuel - poissonFuel) E), E.
    split; [reflexivity|]. left. exists (Z.of_nat k' - 1)%Z, st'.
    split; [reflexivity | lia].
  - split; [reflexivity|].
    destruct (SeededRandom.gaussian lambda (JsNum.Fin (sqrt lambda)) st)
      as [[g| | |] st'].
    + left. exists (Z.max 0 (RandomOps.round g)), st'.
      split; [reflexivity | apply Z.le_max_l].
    + right. split; [lra | reflexivity].
    + left. exists 0%Z, st'. split; [reflexivity | lia].
    + right. split; [lra | reflexivity].
Qed.

(** [poisson] does not run into an infinity unless the first draw of its
    Gaussian branch is 0. *)
Lemma poisson_finite lambda st :
  fst (SeededRandom.random st) <> 0 ->
  exists k st',
    RandomOps.poisson poissonFuel lambda st = Value (k, st') /\ (0 <= k)%Z.
Proof.
  intros Hu.
  destruct (poisson_enough_fuel lambda st poissonFuel (le_n _))
    as [_ [H | [Hl E]]]; [exact H|].
  exfalso. unfold RandomOps.poisson in E.
  destruct (Rlt_dec lambda 30) as [Hs|_]; [lra|].
  destruct (gaussian_finite lambda (sqrt lambda) st Hu) as (x & Ex).
  rewrite Ex in E. discriminate.
Qed.

(** X6: [poisson(lambda)] terminates: with the product [p] of the draws taken
    exactly, its loop makes at most [30 * 2^32] iterations whatever
    [lambda] and the generator state, so that with that much fuel the
    model does not run out, more fuel does not change the result, the
    result is a count that is not negative, and for [lambda < 30] there
    always is one. *)
Theorem poisson_terminates lambda st fuel :
  (poissonFuel <= fuel)%nat ->
  RandomOps.poisson fuel lambda st = RandomOps.poisson poissonFuel lambda st
  /\ RandomOps.poisson fuel lambda st <> OutOfFuel
  /\ (forall k st', RandomOps.poisson fuel lambda st = Value (k, st') ->
        (0 <= k)%Z)
  /\ (lambda < 30 ->
      exists k st', RandomOps.poisson fuel lambda st = Value (k, st')).
Proof.
  intros Hf.
  destruct (poisson_enough_fuel lambda st fuel Hf)
    as [Hsame [(k & st' & E & Hk) | [Hl E]]].
  - split; [exact Hsame|]. rewrite E.
    repeat split; [discriminate | | intros _; eauto].
    intros k2 st2 Ev. injection Ev as <- _. exact Hk.
  - split; [exact Hsame|]. rewrite E.
    repeat split; [discriminate | discriminate | intros Hc; lra].
Qed.

Lemma poisson_terminates_witness :
  (poissonFuel <= poissonFuel)%nat
  /\ RandomOps.poisson poissonFuel 1 (SeededRandom.make 42) <> OutOfFuel.
Proof.
  split; [exact (le_n _)|].
  exact (proj1 (proj2 (poisson_terminates 1 (SeededRandom.make 42)
                         poissonFuel (le_n _)))).
Defined.

End RandomOpsFacts.

(* ================================================================== *)
(** ** The event generators and the random sensor *)
(* ================================================================== *)

Module GeneratorFacts.
Import JsInt.

Lemma orElse_nonneg x d : nonneg_opt x -> 0 <= d -> 0 <= orElse x d.
Proof.
  intros Hx Hd. unfold orElse. destruct x as [v|]; [|exact Hd].
  destruct (Req_dec_T v 0); [exact Hd | exact Hx].
Qed.

(** A count returned by the loop of [poisson] is above the count it was
    entered with. *)
Lemma poissonLoop_value fuel : forall L k p st k' st',
  RandomOps.poissonLoop fuel L k p st = Value (k', st') -> (k < k')%nat.
Proof.
  induction fuel as [|fuel IH]; intros L k p st k' st' E;
    cbn [RandomOps.poissonLoop] in E; [discriminate|].
  destruct (SeededRandom.random st) as [r st1].
  destruct (Rgt_dec (p * r) L).
  - apply IH in E. lia.
  - injection E as <- _. lia.
Qed.

Lemma poisson_value_nonneg fuel lambda st k st' :
  RandomOps.poisson fuel lambda st = Value (k, st') -> (0 <= k)%Z.
Proof.
  unfold RandomOps.poisson. intros E.
  destruct (Rlt_dec lambda 30).
  - destruct (RandomOps.poissonLoop fuel (exp (- lambda)) 0 1 st)
      as [[k0 st0]| |] eqn:El; try discriminate.
    apply poissonLoop_value in El. injection E as <- _. lia.
  - destruct (SeededRandom.gaussian lambda (JsNum.Fin (sqrt lambda)) st)
      as [[g| | |] st0]; try discriminate.
    + injection E as <- _. apply Z.le_max_l.
    + injection E as <- _. lia.
Qed.

Lemma generateArrival_nonneg fuel s st a st' :
  nonneg_models s ->
  TSRAEvents.generateArrival fuel s st = Value (a, st') -> 0 <= a.
Proof.
  intros (HJ & _ & Hv & Hmin & Hmax & _) E.
  unfold TSRAEvents.generateArrival in E.
  destruct (arrival_type (arrival_model s)).
  - destruct (RandomOps.poisson fuel (orElse (lambda (arrival_model s)) 1) st)
      as [[k st0]| |] eqn:Ep; try discriminate.
    apply poisson_value_nonneg in Ep. apply IZR_le in Ep.
    injection E as <- _. apply Rmult_le_pos; assumption.
  - injection E as <- _. apply orElse_nonneg; assumption.
  - set (lo := orElse (min_bits (arrival_model s))
                (J_mean_bits_per_slot (spec_config s) * (5 / 10))) in *.
    set (hi := orElse (max_bits (arrival_model s))
                (J_mean_bits_per_slot (spec_config s) * (15 / 10))) in *.
    assert (Hlo : 0 <= lo) by (apply orElse_nonneg; [assumption | lra]).
    assert (Hhi : 0 <= hi) by (apply orElse_nonneg; [assumption | lra]).
    pose proof (RandomFacts.uniform_value lo hi st) as Hu.
    pose proof (RandomFacts.random_unit_interval st) as [H0 H1].
    destruct (SeededRandom.uniform lo hi st) as [u st0]. cbn [fst] in Hu.
    assert (Ha : a = u) by congruence.
    rewrite Ha, Hu.
    nra.
Qed.

Lemma generateArrival_fuel fuel s st :
  (poissonFuel <= fuel)%nat ->
  TSRAEvents.generateArrival fuel s st <> OutOfFuel.
Proof.
  intros Hf. unfold TSRAEvents.generateArrival.
  destruct (arrival_type (arrival_model s)); try discriminate.
  destruct (RandomOpsFacts.poisson_enough_fuel
              (orElse (lambda (arrival_model s)) 1) st fuel Hf)
    as [_ [(k & st' & E & _) | [_ E]]]; rewrite E; discriminate.
Qed.

Lemma generateHarvest_nonneg s st h st' :
  nonneg_models s ->
  TSRAEvents.generateHarvest s st = Value (h, st') -> 0 <= h.
Proof.
  intros (_ & Hm & _ & _ & _ & Hv) E.
  pose proof (orElse_nonneg _ _ Hv Hm) as Hval.
  unfold TSRAEvents.generateHarvest in E.
  destruct (harvest_type (harvest_model s)).
  - destruct (SeededRandom.random st) as [r st0].
    injection E as <- _. destruct (Rlt_dec r _); [exact Hval | lra].
  - injection E as <- _. exact Hval.
  - destruct (SeededRandom.gaussian _ _ st) as [[g| | |] st0];
      cbn [JsNum.max finite] in E; try discriminate.
    + injection E as <- _. apply Rmax_l.
    + injection E as <- _. lra.
Qed.

Lemma finite_fuel x : finite x <> OutOfFuel.
Proof. destruct x as [[v| | |] st]; discriminate. Qed.

Lemma generateHarvest_fuel s st :
  TSRAEvents.generateHarvest s st <> OutOfFuel.
Proof.
  unfold TSRAEvents.generateHarvest.
  destruct (harvest_type (harvest_model s)); try discriminate.
  destruct (SeededRandom.gaussian _ _ st). apply finite_fuel.
Qed.

Lemma generateChannelGain_floor s st g st' :
  TSRAEvents.generateChannelGain s st = Value (g, st') ->
  / 10000000000 <= g.
Proof.
  unfold TSRAEvents.generateChannelGain. intros E.
  destruct (SeededRandom.gaussian _ _ st) as [[g0| | |] st0];
    cbn [JsNum.max finite] in E; try discriminate.
  - injection E as <- _. apply Rmax_l.
  - injection E as <- _. lra.
Qed.

Lemma generateChannelGain_fuel s st :
  TSRAEvents.generateChannelGain s st <> OutOfFuel.
Proof.
  unfold TSRAEvents.generateChannelGain.
  destruct (SeededRandom.gaussian _ _ st). apply finite_fuel.
Qed.

(** *** Where the generators give a finite number *)

Lemma generateArrival_finite s st :
  fst (SeededRandom.random st) <> 0 ->
  exists a st',
    TSRAEvents.generateArrival poissonFuel s st = Value (a, st').
Proof.
  intros Hu. unfold TSRAEvents.generateArrival.
  destruct (arrival_type (arrival_model s)).
  - destruct (RandomOpsFacts.poisson_finite
                (orElse (lambda (arrival_model s)) 1) st Hu)
      as (k & st' & E & _).
    rewrite E. eauto.
  - eauto.
  - destruct (SeededRandom.uniform _ _ st) as [u st']. eauto.
Qed.

Lemma generateHarvest_finite s st :
  fst (SeededRandom.random st) <> 0 ->
  exists h st', TSRAEvents.generateHarvest s st = Value (h, st').
Proof.
  intros Hu. unfold TSRAEvents.generateHarvest.
  destruct (harvest_type (harvest_model s)).
  - destruct (SeededRandom.random st) as [r st']. eauto.
  - eauto.
  - match goal with |- context [SeededRandom.gaussian ?m (JsNum.Fin ?sd) st] =>
      destruct (RandomOpsFacts.gaussian_finite m sd st Hu) as (x & ->)
    end.
    cbn [JsNum.max finite]. eauto.
Qed.

Lemma generateChannelGain_finite s st :
  fst (SeededRandom.random st) <> 0 ->
  0 <= channel_variance (spec_config s) ->
  exists g st', TSRAEvents.generateChannelGain s st = Value (g, st').
Proof.
  intros Hu Hv. unfold TSRAEvents.generateChannelGain, JsNum.sqrt.
  destruct (Rlt_dec (channel_variance (spec_config s)) 0) as [Hc|_]; [lra|].
  match goal with |- context [SeededRandom.gaussian ?m (JsNum.Fin ?sd) st] =>
    destruct (RandomOpsFacts.gaussian_finite m sd st Hu) as (x & ->)
  end.
  cbn [JsNum.max finite]. eauto.
Qed.

(** At the draw [u1 = 0] a channel without variance has the gain NaN:
    [Infinity * 0]. *)
Lemma generateChannelGain_nan s st :
  fst (SeededRandom.random st) = 0 ->
  channel_variance (spec_config s) = 0 ->
  TSRAEvents.generateChannelGain s st = NonFinite.
Proof.
  intros Hu Hv.
  unfold TSRAEvents.generateChannelGain, JsNum.sqrt, SeededRandom.gaussian,
    SeededRandom.boxMuller.
  rewrite Hv.
  destruct (Rlt_dec 0 0) as [Hc|_]; [lra|].
  destruct (SeededRandom.random st) as [u1 st1]. cbn [fst] in Hu.
  destruct (SeededRandom.random st1) as [u2 st2].
  destruct (Req_dec_T u1 0) as [_|Hc]; [|contradiction].
  rewrite sqrt_0.
  repeat match goal with
         | |- context [Rlt_dec ?x ?y] => destruct (Rlt_dec x y)
         end; cbn [JsNum.mul];
  repeat match goal with
         | |- context [Rlt_dec ?x ?y] => destruct (Rlt_dec x y)
         end; try lra; reflexivity.
Qed.

Lemma drawEvents_events_ok fuel s st ev st' :
  nonneg_models s ->
  TSRAEvents.drawEvents fuel s st = Value (ev, st') ->
  events_ok ev /\ / 10000000000 <= ev_channelGain ev.
Proof.
  intros Hs E. unfold TSRAEvents.drawEvents in E.
  destruct (TSRAEvents.generateArrival fuel s st) as [[a st1]| |] eqn:Ea;
    try discriminate.
  destruct (TSRAEvents.generateHarvest s st1) as [[h st2]| |] eqn:Eh;
    try discriminate.
  destruct (TSRAEvents.generateChannelGain s st2) as [[g st3]| |] eqn:Eg;
    try discriminate.
  injection E as <- _. unfold events_ok. cbn.
  pose proof (generateArrival_nonneg _ _ _ _ _ Hs Ea).
  pose proof (generateHarvest_nonneg _ _ _ _ Hs Eh).
  pose proof (generateChannelGain_floor _ _ _ _ Eg).
  repeat split; try assumption. lra.
Qed.

Lemma drawEvents_fuel fuel s st :
  (poissonFuel <= fuel)%nat -> TSRAEvents.drawEvents fuel s st <> OutOfFuel.
Proof.
  intros Hf. unfold TSRAEvents.drawEvents.
  pose proof (generateArrival_fuel fuel s st Hf) as Ha.
  destruct (TSRAEvents.generateArrival fuel s st) as [[a st1]| |];
    [|discriminate|contradiction].
  pose proof (generateHarvest_fuel s st1) as Hh.
  destruct (TSRAEvents.generateHarvest s st1) as [[h st2]| |];
    [|discriminate|contradiction].
  pose proof (generateChannelGain_fuel s st2) as Hg.
  destruct (TSRAEvents.generateChannelGain s st2) as [[g st3]| |];
    [discriminate|discriminate|contradiction].
Qed.

(** At the draw [u1 = 0] with a second draw between 1/4 and 3/4 the cosine
    is negative and the Gaussian is minus infinity: on a channel with a
    positive variance the gain is the floor [1e-10]. *)
Lemma generateChannelGain_floor_at_zero s st :
  fst (SeededRandom.random st) = 0 ->
  0 < channel_variance (spec_config s) ->
  1 / 4 < fst (SeededRandom.random (snd (SeededRandom.random st))) < 3 / 4 ->
  TSRAEvents.generateChannelGain s st
  = Value (/ 10000000000,
           snd (SeededRandom.random (snd (SeededRandom.random st)))).
Proof.
  intros Hu Hv Hu2.
  unfold TSRAEvents.generateChannelGain, JsNum.sqrt, SeededRandom.gaussian,
    SeededRandom.boxMuller.
  destruct (Rlt_dec (channel_variance (spec_config s)) 0) as [Hc|_]; [lra|].
  destruct (SeededRandom.random st) as [u1 st1]. cbn [fst snd] in *.
  destruct (SeededRandom.random st1) as [u2 st2]. cbn [fst snd] in *.
  destruct (Req_dec_T u1 0) as [_|Hc]; [|contradiction].
  assert (Hcos : cos (2 * PI * u2) < 0).
  { pose proof PI_RGT_0 as Hpi. apply cos_lt_0; nra. }
  destruct (Rlt_dec 0 (cos (2 * PI * u2))) as [Hc|_]; [lra|].
  destruct (Rlt_dec (cos (2 * PI * u2)) 0) as [_|Hc]; [|contradiction].
  pose proof (sqrt_lt_R0 _ Hv) as Hs.
  cbn [JsNum.mul].
  destruct (Rlt_dec 0 (sqrt (channel_variance (spec_config s))))
    as [_|Hc]; [|contradiction].
  reflexivity.
Qed.

(** X7: The draws of the three generators for a sensor whose models have no
    negative size.  A draw that is a finite number is an arrival and a
    harvest that are not negative and a channel gain of at least [1e-10];
    with [poissonFuel] iterations the draws do not run out of fuel.  A
    generator does give a finite number when the first [random()] it takes
    is not 0 and, for the channel gain, the variance is not negative;
    otherwise the draw can be an infinity or NaN ([NonFinite]), as is the
    gain of a channel of variance 0 at a first draw of 0, where
    [Math.max(1e-10, NaN)] is NaN.  With a positive variance, a first draw
    of 0 and a second draw between 1/4 and 3/4 the gain is the floor
    [1e-10]. *)
Theorem generated_events_ok fuel s st :
  nonneg_models s ->
  (forall a st', TSRAEvents.generateArrival fuel s st = Value (a, st') ->
     0 <= a)
  /\ (forall h st', TSRAEvents.generateHarvest s st = Value (h, st') ->
        0 <= h)
  /\ (forall g st', TSRAEvents.generateChannelGain s st = Value (g, st') ->
        / 10000000000 <= g)
  /\ (forall ev st', TSRAEvents.drawEvents fuel s st = Value (ev, st') ->
        0 <= ev_arrival ev /\ 0 <= ev_harvest ev
        /\ / 10000000000 <= ev_channelGain ev)
  /\ ((poissonFuel <= fuel)%nat ->
      TSRAEvents.drawEvents fuel s st <> OutOfFuel)
  /\ (fst (SeededRandom.random st) <> 0 ->
      (exists a st',
         TSRAEvents.generateArrival poissonFuel s st = Value (a, st'))
      /\ (exists h st', TSRAEvents.generateHarvest s st = Value (h, st'))
      /\ (0 <= channel_variance (spec_config s) ->
          exists g st', TSRAEvents.generateChannelGain s st = Value (g, st')))
  /\ (fst (SeededRandom.random st) = 0 ->
      channel_variance (spec_config s) = 0 ->
      TSRAEvents.generateChannelGain s st = NonFinite)
  /\ (fst (SeededRandom.random st) = 0 ->
      0 < channel_variance (spec_config s) ->
      1 / 4 < fst (SeededRandom.random (snd (SeededRandom.random st)))
      < 3 / 4 ->
      TSRAEvents.generateChannelGain s st
      = Value (/ 10000000000,
               snd (SeededRandom.random (snd (SeededRandom.random st))))).
Proof.
  intros Hs.
  split; [intros a st' E; exact (generateArrival_nonneg _ _ _ _ _ Hs E)|].
  split; [intros h st' E; exact (generateHarvest_nonneg _ _ _ _ Hs E)|].
  split; [intros g st' E; exact (generateChannelGain_floor _ _ _ _ E)|].
  split.
  { intros ev st' E.
    destruct (drawEvents_events_ok _ _ _ _ _ Hs E) as [(Ha & Hh & _) Hg].
    split; [exact Ha|]. split; [exact Hh | exact Hg]. }
  split; [apply drawEvents_fuel|].
  split.
  { intros Hu.
    split; [exact (generateArrival_finite s st Hu)|].
    split; [exact (generateHarvest_finite s st Hu)|].
    exact (generateChannelGain_finite s st Hu). }
  split; [exact (generateChannelGain_nan s st)|].
  exact (generateChannelGain_floor_at_zero s st).
Qed.

Lemma steadySpec_nonneg : nonneg_models steadySpec.
Proof. unfold nonneg_models, steadySpec; cbn. repeat split; lra. Qed.

Lemma zeroDrawSeed_draw :
  fst (SeededRandom.random (SeededRandom.make zeroDrawSeed)) = 0.
Proof.
  rewrite RandomFacts.random_value.
  replace (fst (SeededRandom.random_bits (SeededRandom.make zeroDrawSeed)))
    with 0%Z by (vm_compute; reflexivity).
  unfold Rdiv. apply Rmult_0_l.
Qed.

Lemma generated_events_ok_witness :
  nonneg_models steadySpec
  /\ TSRAEvents.generateChannelGain steadySpec
       (SeededRandom.make zeroDrawSeed) = NonFinite.
Proof.
  split; [exact steadySpec_nonneg|].
  exact (proj1 (proj2 (proj2 (proj2 (proj2 (proj2 (proj2
           (generated_events_ok poissonFuel steadySpec
              (SeededRandom.make zeroDrawSeed) steadySpec_nonneg)))))))
           zeroDrawSeed_draw eq_refl).
Defined.

(** *** A whole slot drawn from the policy's generator *)



End GeneratorFacts.

(* ================================================================== *)
(** ** The Baseline policy: decisions, service and errors *)
(* ================================================================== *)

Module BaselineFacts.

Lemma pow_frac_nonneg x y : 0 <= JsMath.pow_frac x y.
Proof.
  unfold JsMath.pow_frac. destruct (Rlt_dec 0 x); [|lra].
  left. unfold Rpower. apply exp_pos.
Qed.

Lemma min3_le_1 a b c : JsMath.min3 a b c <= a.
Proof. unfold JsMath.min3. apply Rmin_l. Qed.

Lemma min3_le_2 a b c : JsMath.min3 a b c <= b.
Proof.
  unfold JsMath.min3. eapply Rle_trans; [apply Rmin_r | apply Rmin_l].
Qed.

Lemma min3_le_3 a b c : JsMath.min3 a b c <= c.
Proof.
  unfold JsMath.min3. eapply Rle_trans; [apply Rmin_r | apply Rmin_r].
Qed.

Lemma min3_glb a b c x : x <= a -> x <= b -> x <= c -> x <= JsMath.min3 a b c.
Proof.
  intros. unfold JsMath.min3. repeat apply Rmin_glb; assumption.
Qed.

Section Decisions.
Variable a : TSRA.t.
Hypothesis a_wf : wf_policy a.
Variable sensor : SensorConfig.
Hypothesis delta_pos : 0 < delta_cycles_per_bit sensor.
Variable state : SensorState.
Hypothesis state_nonneg : nonneg_state state.

Lemma queueConstraint_nonneg :
  0 <= H_l state * delta_cycles_per_bit sensor / TSRA.tau a.
Proof.
  destruct a_wf as (_ & Htau & _). destruct state_nonneg as (Hl & _).
  apply Rmult_le_pos; [apply Rmult_le_pos; lra|].
  left. apply Rinv_0_lt_compat, Htau.
Qed.

(** The frequency never exceeds [f_max] nor the queue constraint
    [H_l * delta / tau], and is not negative when [f_max] is not. *)
Lemma frequency_bounds :
  TSRA.localCPUFrequencyAllocation a sensor state <= f_max_Hz sensor
  /\ TSRA.localCPUFrequencyAllocation a sensor state
     <= H_l state * delta_cycles_per_bit sensor / TSRA.tau a
  /\ (0 <= f_max_Hz sensor ->
      0 <= TSRA.localCPUFrequencyAllocation a sensor state).
Proof.
  pose proof queueConstraint_nonneg as Hq.
  unfold TSRA.localCPUFrequencyAllocation.
  set (bT := JsMath.pow_frac _ (1 / 3)).
  set (lyap := JsMath.pow_frac _ (1 / 2)).
  set (qC := H_l state * delta_cycles_per_bit sensor / TSRA.tau a) in *.
  assert (Hlyap : 0 <= lyap) by apply pow_frac_nonneg.
  destruct (Rle_dec bT (Rmin (f_max_Hz sensor) qC)) as [Hb|Hb].
  - destruct (Rle_dec lyap bT) as [Hl|Hl].
    + rewrite (Rmax_right 0 lyap) by exact Hlyap.
      pose proof (Rmin_r (f_max_Hz sensor) qC).
      pose proof (Rmin_l (f_max_Hz sensor) lyap).
      pose proof (Rmin_r (f_max_Hz sensor) lyap).
      repeat split; [lra | lra |].
      intros Hf. apply Rmin_glb; assumption.
    + repeat split;
        [apply min3_le_1 | apply min3_le_2 | intros Hf; apply min3_glb; assumption].
  - repeat split; [apply Rmin_l | apply Rmin_r |].
    intros Hf. apply Rmin_glb; assumption.
Qed.

Lemma Rpower_2_ge_1 x : 0 <= x -> 1 <= Rpower 2 x.
Proof.
  intros Hx. unfold Rpower. rewrite <- exp_0.
  destruct Hx as [Hx|<-].
  - left. apply exp_increasing. apply Rmult_lt_0_compat; [exact Hx|].
    apply PolicyFacts.ln_2_pos.
  - rewrite Rmult_0_l. lra.
Qed.

Lemma log2_Rpower_2 x : JsMath.log2 (Rpower 2 x) = x.
Proof.
  unfold JsMath.log2, Rpower. rewrite ln_exp. field.
  pose proof PolicyFacts.ln_2_pos. lra.
Qed.

Lemma log2_monotone x y : 0 < x -> x <= y -> JsMath.log2 x <= JsMath.log2 y.
Proof.
  intros Hx Hxy. unfold JsMath.log2.
  apply Rmult_le_compat_r.
  - left. apply Rinv_0_lt_compat, PolicyFacts.ln_2_pos.
  - destruct Hxy as [Hlt|<-]; [left; apply ln_increasing; assumption | lra].
Qed.

(** The power is between 0 and [p_max], and what it transmits in the slot
    is at most the offload backlog. *)
Lemma power_bounds g :
  0 < g ->
  0 <= TSRA.transmissionPowerAllocation a sensor state g
  /\ (0 <= p_max_W sensor ->
      TSRA.transmissionPowerAllocation a sensor state g <= p_max_W sensor)
  /\ TSRA.calculateTransmissionRate a
       (TSRA.transmissionPowerAllocation a sensor state g) g
     <= H_o state.
Proof.
  intros Hg.
  destruct a_wf as (HV & Htau & Hb & Hth & Hs).
  destruct state_nonneg as (_ & Ho & _).
  split; [apply PolicyFacts.transmissionPower_nonneg|].
  unfold TSRA.transmissionPowerAllocation.
  destruct (Rle_dec (H_o state) (H_k state)) as [Hle|Hgt].
  - split; [intros; assumption|].
    unfold TSRA.calculateTransmissionRate.
    replace (1 + 0 * g / noise_power_W (TSRA.globalParams a)) with 1
      by (unfold Rdiv; ring).
    rewrite PolicyFacts.log2_1. lra.
  - set (wL := _ - _).
    set (x := H_o state / (TSRA.bandwidth a * TSRA.tau a)).
    set (mRC := (Rpower 2 x - 1) * noise_power_W (TSRA.globalParams a) / g).
    set (p := Rmax 0 (JsMath.min3 (p_max_W sensor) wL mRC)).
    assert (Hbt : 0 < TSRA.bandwidth a * TSRA.tau a)
      by (apply Rmult_lt_0_compat; assumption).
    assert (Hx : 0 <= x).
    { unfold x. apply Rmult_le_pos; [exact Ho|].
      left. apply Rinv_0_lt_compat, Hbt. }
    assert (HmRC : 0 <= mRC).
    { unfold mRC. pose proof (Rpower_2_ge_1 x Hx).
      apply Rmult_le_pos; [apply Rmult_le_pos; lra|].
      left. apply Rinv_0_lt_compat, Hg. }
    assert (Hp0 : 0 <= p) by apply Rmax_l.
    assert (HpM : p <= mRC).
    { unfold p. apply Rmax_lub; [exact HmRC | apply min3_le_3]. }
    split.
    + intros Hpm. unfold p. apply Rmax_lub; [exact Hpm | apply min3_le_1].
    + unfold TSRA.calculateTransmissionRate.
      set (snr := p * g / noise_power_W (TSRA.globalParams a)).
      assert (Hsnr0 : 0 <= snr).
      { unfold snr. apply Rmult_le_pos; [apply Rmult_le_pos; lra|].
        left. apply Rinv_0_lt_compat, Hs. }
      assert (Hsnr : 1 + snr <= Rpower 2 x).
      { assert (snr <= Rpower 2 x - 1); [|lra].
        unfold snr.
        apply Rle_trans with (mRC * g / noise_power_W (TSRA.globalParams a)).
        - apply Rmult_le_compat_r;
            [left; apply Rinv_0_lt_compat, Hs|].
          apply Rmult_le_compat_r; lra.
        - unfold mRC. right. field. split; lra. }
      pose proof (log2_monotone (1 + snr) (Rpower 2 x) ltac:(lra) Hsnr) as Hl.
      rewrite log2_Rpower_2 in Hl.
      pose proof (PolicyFacts.log2_nonneg (1 + snr) ltac:(lra)) as Hl0.
      assert (Hx' : x * (TSRA.bandwidth a * TSRA.tau a) = H_o state).
      { unfold x. field. lra. }
      rewrite <- Hx'. nra.
Qed.

End Decisions.

(** X8: The decisions of the Baseline for a sensor with [delta > 0] in a
    non-negative state, on a channel of positive gain: the frequency is at
    most [f_max] and the power is not negative, and both are within
    [0, f_max] and [0, p_max] when these bounds are not negative. *)
Theorem baseline_decision_bounds a sensor state ev allocs es :
  wf_policy a -> 0 < delta_cycles_per_bit sensor -> nonneg_state state ->
  0 < ev_channelGain ev ->
  let d := fst (fst (TSRA.sensorSlot a sensor state ev allocs es)) in
  f_u d <= f_max_Hz sensor
  /\ 0 <= p_u d
  /\ (0 <= f_max_Hz sensor -> 0 <= f_u d)
  /\ (0 <= p_max_W sensor -> p_u d <= p_max_W sensor).
Proof.
  intros Ha Hd Hs Hg. cbn zeta. unfold TSRA.sensorSlot. cbn [fst f_u p_u].
  destruct (frequency_bounds a Ha sensor Hd state Hs) as (Hf1 & _ & Hf0).
  destruct (power_bounds a Ha sensor state Hs (ev_channelGain ev) Hg)
    as (Hp0 & Hp1 & _).
  repeat split; assumption.
Qed.

Lemma unitPolicy_wf : wf_policy unitPolicy.
Proof. unfold wf_policy, unitPolicy; cbn. repeat split; lra. Qed.

Lemma drainedState_nonneg : nonneg_state drainedState.
Proof. unfold nonneg_state, drainedState; cbn. repeat split; lra. Qed.

Lemma baseline_decision_bounds_witness :
  let d := fst (fst (TSRA.sensorSlot unitPolicy unitSensor drainedState
                       quietEvents JsMap.empty unitEdge)) in
  f_u d <= 1 /\ 0 <= p_u d.
Proof.
  pose proof (baseline_decision_bounds unitPolicy unitSensor drainedState
                quietEvents JsMap.empty unitEdge unitPolicy_wf
                ltac:(cbn; lra) drainedState_nonneg ltac:(cbn; lra)) as H.
  cbn zeta in *. destruct H as (H1 & H2 & _). split; assumption.
Defined.

(** X9: The Baseline keeps its two allocations within the constraints it
    derives from the backlogs: the frequency is at most the queue
    constraint [H_l * delta / tau]; the power is 0 when the offload backlog
    does not exceed the edge backlog, and at most the maximum-rate
    constraint [(2^(H_o / (W * tau)) - 1) * sigma2 / g] otherwise. *)
Theorem baseline_within_constraints a sensor state ev allocs es :
  wf_policy a -> 0 < delta_cycles_per_bit sensor -> nonneg_state state ->
  0 < ev_channelGain ev ->
  let d := fst (fst (TSRA.sensorSlot a sensor state ev allocs es)) in
  f_u d <= H_l state * delta_cycles_per_bit sensor / TSRA.tau a
  /\ (H_o state <= H_k state -> p_u d = 0)
  /\ (H_k state < H_o state ->
      p_u d <= (Rpower 2 (H_o state / (TSRA.bandwidth a * TSRA.tau a)) - 1)
               * noise_power_W (TSRA.globalParams a) / ev_channelGain ev).
Proof.
  intros Ha Hd Hs Hg. cbn zeta. unfold TSRA.sensorSlot. cbn [fst f_u p_u].
  destruct (frequency_bounds a Ha sensor Hd state Hs) as (_ & Hq & _).
  split; [exact Hq|].
  unfold TSRA.transmissionPowerAllocation.
  destruct (Rle_dec (H_o state) (H_k state)) as [Hle|Hgt].
  - split; [reflexivity | intros Hc; lra].
  - split; [intros Hc; contradiction|]. intros _.
    destruct Ha as (HV & Htau & Hb & Hth & Hsg).
    destruct Hs as (_ & Ho & _).
    set (x := H_o state / (TSRA.bandwidth a * TSRA.tau a)).
    assert (Hbt : 0 < TSRA.bandwidth a * TSRA.tau a)
      by (apply Rmult_lt_0_compat; assumption).
    assert (Hx : 0 <= x).
    { unfold x. apply Rmult_le_pos; [exact Ho|].
      left. apply Rinv_0_lt_compat, Hbt. }
    pose proof (Rpower_2_ge_1 x Hx) as Hp.
    apply Rmax_lub; [|apply min3_le_3].
    apply Rmult_le_pos; [apply Rmult_le_pos; lra|].
    left. apply Rinv_0_lt_compat, Hg.
Qed.

Lemma baseline_within_constraints_witness :
  let d := fst (fst (TSRA.sensorSlot unitPolicy unitSensor drainedState
                       quietEvents JsMap.empty unitEdge)) in
  f_u d <= 3 * 1 / 1.
Proof.
  exact (proj1 (baseline_within_constraints unitPolicy unitSensor
                  drainedState quietEvents JsMap.empty unitEdge unitPolicy_wf
                  ltac:(cbn; lra) drainedState_nonneg ltac:(cbn; lra))).
Defined.

(** *** When [executeSlot] throws, and the shape of what it returns *)

Lemma weightedBacklogs_none sensors : forall states,
  TSRA.weightedBacklogs sensors states = None
  <-> (List.length states < List.length sensors)%nat.
Proof.
  induction sensors as [|s ss IH]; intros states; cbn [TSRA.weightedBacklogs].
  - cbn. split; [discriminate | lia].
  - destruct states as [|st sts]; cbn [List.length].
    + split; [lia | reflexivity].
    + specialize (IH sts).
      destruct (TSRA.weightedBacklogs ss sts).
      * split; [discriminate|]. intros H.
        assert (Hc : (List.length sts < List.length ss)%nat) by lia.
        apply IH in Hc. discriminate.
      * split; [|reflexivity]. intros _.
        pose proof (proj1 IH eq_refl). lia.
Qed.

Lemma edgeServerAllocation_none sensors states :
  TSRA.edgeServerAllocation sensors states = None
  <-> (List.length states < List.length sensors)%nat.
Proof.
  unfold TSRA.edgeServerAllocation.
  rewrite <- weightedBacklogs_none.
  destruct (TSRA.weightedBacklogs sensors states);
    split; intros; try discriminate; reflexivity.
Qed.

Lemma slotLoop_shape a allocs es env sensors : forall states i,
  match TSRA.slotLoop a sensors states env i allocs es with
  | None => (List.length states < List.length sensors)%nat
  | Some out =>
      (List.length sensors <= List.length states)%nat
      /\ List.length (decisions out) = List.length sensors
      /\ List.length (newStates out) = List.length sensors
      /\ map r_id (sensorResults out) = map id sensors
  end.
Proof.
  induction sensors as [|s ss IH]; intros states i; cbn [TSRA.slotLoop].
  - cbn. repeat split. lia.
  - destruct states as [|st sts]; [cbn; lia|].
    specialize (IH sts (S i)).
    destruct (TSRA.slotLoop a ss sts env (S i) allocs es) as [rest|].
    + destruct IH as (H1 & H2 & H3 & H4).
      unfold TSRA.pushOutput, TSRA.sensorSlot.
      cbn [decisions newStates sensorResults map List.length r_id].
      repeat split; [lia | lia | lia | rewrite H4; reflexivity].
    + cbn [List.length]. lia.
Qed.

Lemma edgeResultOf_ids a sensors allocs es :
  map sensor_id (TSRA.edgeResultOf a sensors allocs es) = map id sensors.
Proof.
  unfold TSRA.edgeResultOf. rewrite map_map. reflexivity.
Qed.

(** X10: [executeSlot] throws exactly when a sensor has no state or when there
    are sensors and no edge server; otherwise it returns one decision, one
    new state, one record and one edge allocation per sensor, in the order
    of the sensors. *)
Theorem executeSlot_returns a sensors states es env :
  (TSRA.executeSlot a sensors states es env = None
   <-> (List.length states < List.length sensors)%nat
       \/ (sensors <> [] /\ es = None))
  /\ (forall out,
        TSRA.executeSlot a sensors states es env = Some out ->
        List.length (decisions out) = List.length sensors
        /\ List.length (newStates out) = List.length sensors
        /\ map r_id (sensorResults out) = map id sensors
        /\ map sensor_id (edgeResult out) = map id sensors).
Proof.
  unfold TSRA.executeSlot.
  pose proof (edgeServerAllocation_none sensors states) as Hn.
  destruct (TSRA.edgeServerAllocation sensors states) as [allocs|].
  - assert (Hlen : ~ (List.length states < List.length sensors)%nat).
    { intros Hc. apply Hn in Hc. discriminate. }
    destruct sensors as [|s ss].
    + split.
      * split; [discriminate|]. intros [Hc | [Hc _]]; [cbn in Hc; lia | congruence].
      * intros out E. injection E as <-. cbn. repeat split.
    + destruct es as [es|].
      * pose proof (slotLoop_shape a allocs es env (s :: ss) states 0%nat) as Hs.
        destruct (TSRA.slotLoop a (s :: ss) states env 0 allocs es) as [o|].
        -- split.
           ++ split; [discriminate|].
              intros [Hc | [_ Hc]]; [contradiction | discriminate].
           ++ intros out E. injection E as <-.
              cbn [decisions newStates sensorResults edgeResult].
              destruct Hs as (_ & H2 & H3 & H4).
              repeat split; try assumption.
              exact (edgeResultOf_ids a (s :: ss) allocs es).
        -- contradiction.
      * split; [|discriminate].
        split; [|reflexivity]. intros _. right. split; [discriminate | reflexivity].
  - split; [|discriminate].
    split; [|reflexivity]. intros _. left. apply Hn. reflexivity.
Qed.







End BaselineFacts.

(* ================================================================== *)
(** ** [generateRandomSensor] *)
(* ================================================================== *)

Module RandomSensorFacts.
Import JsInt.

Local Abbreviation next := (fun st => snd (SeededRandom.random_bits st)).

Lemma orDraw_spec x a b st :
  a < b ->
  drawn_or_given x a b (fst (RandomSensor.orDraw x a b st))
  /\ snd (RandomSensor.orDraw x a b st)
     = match x with Some _ => st | None => next st end.
Proof.
  intros Hab. unfold RandomSensor.orDraw, drawn_or_given.
  destruct x as [v|]; cbn [fst snd]; [split; reflexivity|].
  split.
  - rewrite RandomFacts.uniform_value.
    pose proof (RandomFacts.random_unit_interval st) as [H0 H1]. nra.
  - rewrite RandomFacts.uniform_state, RandomFacts.random_state. reflexivity.
Qed.

Lemma uniform_spec a b st :
  a < b ->
  a <= fst (SeededRandom.uniform a b st) <= b
  /\ snd (SeededRandom.uniform a b st) = next st.
Proof.
  intros Hab. split.
  - rewrite RandomFacts.uniform_value.
    pose proof (RandomFacts.random_unit_interval st) as [H0 H1]. nra.
  - rewrite RandomFacts.uniform_state, RandomFacts.random_state. reflexivity.
Qed.

Lemma nextInt_state lo hi st :
  snd (RandomOps.nextInt lo hi st) = next st.
Proof.
  unfold RandomOps.nextInt, RandomOps.scaledDraw.
  destruct (SeededRandom.random_bits st). reflexivity.
Qed.

Ltac step_orDraw H st' v :=
  match goal with
  | |- context [RandomSensor.orDraw ?x ?a ?b ?st] =>
      pose proof (orDraw_spec x a b st ltac:(lra)) as H;
      destruct (RandomSensor.orDraw x a b st) as [v st'];
      cbn [fst snd] in H
  end.

Ltac step_uniform H st' v :=
  match goal with
  | |- context [SeededRandom.uniform ?a ?b ?st] =>
      pose proof (uniform_spec a b st ltac:(lra)) as H;
      destruct (SeededRandom.uniform a b st) as [v st'];
      cbn [fst snd] in H
  end.

(** Without defaults [generateRandomSensor] makes twelve draws. *)
Lemma random_sensor_draws sid st :
  snd (RandomSensor.generateRandomSensor sid st RandomSensor.noDefaults)
  = SeededRandom.nth_state 12 st.
Proof.
  unfold RandomSensor.generateRandomSensor.
  cbn [RandomSensor.noDefaults RandomSensor.d_J_mean_bits_per_slot
    RandomSensor.d_battery_J RandomSensor.d_harvest_mean_J_per_slot
    RandomSensor.d_f_max_Hz RandomSensor.d_p_max_W
    RandomSensor.d_channel_mean_gain].
  step_orDraw H1 st1 J_mean.
  step_orDraw H2 st2 battery.
  step_orDraw H3 st3 harvest_mean.
  step_orDraw H4 st4 f_max.
  step_orDraw H5 st5 p_max.
  step_orDraw H6 st6 gain.
  step_uniform H7 st7 lam.
  step_uniform H8 st8 p.
  step_uniform H9 st9 v.
  pose proof (nextInt_state 800 1500 st9) as H10s.
  destruct (RandomOps.nextInt 800 1500 st9) as [delta st10].
  cbn [fst snd] in H10s.
  step_uniform H11 st11 cv.
  step_uniform H12 st12 w.
  destruct H1 as [_ S1], H2 as [_ S2], H3 as [_ S3], H4 as [_ S4],
    H5 as [_ S5], H6 as [_ S6], H7 as [_ S7], H8 as [_ S8],
    H9 as [_ S9], H11 as [_ S11], H12 as [_ S12].
  cbn [snd].
  rewrite S12, S11, H10s, S9, S8, S7, S6, S5, S4, S3, S2, S1.
  unfold SeededRandom.nth_state. cbn [N.iter Pos.iter]. reflexivity.
Qed.

(** X12: A sensor made by [generateRandomSensor]: each of the six fields that
    may be given is the given value, or else drawn from its range;
    [delta_cycles_per_bit] is an integer from 800 to 1500, the channel
    variance is between 1% and 10% of the mean gain, the weight is between
    0.5 and 2, the queue starts empty, arrivals are Poisson with a rate
    between 0.5 and 2 and the harvest is Bernoulli with a probability
    between 0.05 and 0.2 and a value of 1.5 to 3 times the mean.  Without
    defaults the call makes twelve draws. *)
Theorem random_sensor_ranges sid st d :
  let s := fst (RandomSensor.generateRandomSensor sid st d) in
  let c := spec_config s in
  drawn_or_given (RandomSensor.d_J_mean_bits_per_slot d) 50000 200000
    (J_mean_bits_per_slot c)
  /\ drawn_or_given (RandomSensor.d_battery_J d) (1 / 10) 1 (battery_J c)
  /\ drawn_or_given (RandomSensor.d_harvest_mean_J_per_slot d)
       (5 / 1000) (2 / 100) (harvest_mean_J_per_slot c)
  /\ drawn_or_given (RandomSensor.d_f_max_Hz d) 500000000 2000000000
       (f_max_Hz c)
  /\ drawn_or_given (RandomSensor.d_p_max_W d) (2 / 100) (1 / 10) (p_max_W c)
  /\ drawn_or_given (RandomSensor.d_channel_mean_gain d)
       (/ 10000000) (5 / 1000000) (channel_mean_gain c)
  /\ (exists n, delta_cycles_per_bit c = IZR n /\ (800 <= n <= 1500)%Z)
  /\ (exists cv, channel_variance c = channel_mean_gain c * cv
                 /\ 1 / 100 <= cv <= 1 / 10)
  /\ 5 / 10 <= priority_weight c <= 2
  /\ initial_queue_bits c = 0 /\ id c = sid
  /\ offload_mode c = fractional
  /\ arrival_type (arrival_model s) = poisson_arrival
  /\ (exists lam, lambda (arrival_model s) = Some lam /\ 5 / 10 <= lam <= 2)
  /\ harvest_type (harvest_model s) = bernoulli_harvest
  /\ (exists p, hm_p (harvest_model s) = Some p /\ 5 / 100 <= p <= 2 / 10)
  /\ (exists v, value_J (harvest_model s) = Some (harvest_mean_J_per_slot c * v)
                /\ 15 / 10 <= v <= 3)
  /\ snd (RandomSensor.generateRandomSensor sid st RandomSensor.noDefaults)
     = SeededRandom.nth_state 12 st.
Proof.
  cbn zeta. pose proof (random_sensor_draws sid st) as Hdraws.
  unfold RandomSensor.generateRandomSensor.
  step_orDraw H1 st1 J_mean.
  step_orDraw H2 st2 battery.
  step_orDraw H3 st3 harvest_mean.
  step_orDraw H4 st4 f_max.
  step_orDraw H5 st5 p_max.
  step_orDraw H6 st6 gain.
  step_uniform H7 st7 lam.
  step_uniform H8 st8 p.
  step_uniform H9 st9 v.
  pose proof (RandomOpsFacts.nextInt_bounds 800 1500 st9
                ltac:(lia) ltac:(lia) ltac:(lia)) as H10.
  pose proof (nextInt_state 800 1500 st9) as H10s.
  destruct (RandomOps.nextInt 800 1500 st9) as [delta st10].
  cbn [fst snd] in H10, H10s.
  step_uniform H11 st11 cv.
  step_uniform H12 st12 w.
  cbn [fst snd spec_config arrival_model harvest_model J_mean_bits_per_slot
       battery_J harvest_mean_J_per_slot f_max_Hz p_max_W channel_mean_gain
       delta_cycles_per_bit channel_variance priority_weight
       initial_queue_bits id offload_mode arrival_type lambda harvest_type
       hm_p value_J].
  destruct H1 as [H1 S1], H2 as [H2 S2], H3 as [H3 S3], H4 as [H4 S4],
    H5 as [H5 S5], H6 as [H6 S6], H7 as [H7 S7], H8 as [H8 S8],
    H9 as [H9 S9], H11 as [H11 S11], H12 as [H12 S12].
  repeat match goal with |- _ /\ _ => split end; try assumption;
    try reflexivity; try lra;
    try (eexists; split; [reflexivity | assumption]).
Qed.

(** X13: Without defaults the generated sensor is within the ranges the
    decision engine and the generators need: [delta > 0], [p_max >= 0] and
    models without negative sizes. *)
Theorem random_sensor_wellformed sid st :
  let s := fst (RandomSensor.generateRandomSensor sid st
                  RandomSensor.noDefaults) in
  wf_sensor (spec_config s) /\ nonneg_models s
  /\ 0 < f_max_Hz (spec_config s) /\ 0 < channel_variance (spec_config s).
Proof.
  cbn zeta. unfold RandomSensor.generateRandomSensor.
  step_orDraw H1 st1 J_mean.
  step_orDraw H2 st2 battery.
  step_orDraw H3 st3 harvest_mean.
  step_orDraw H4 st4 f_max.
  step_orDraw H5 st5 p_max.
  step_orDraw H6 st6 gain.
  step_uniform H7 st7 lam.
  step_uniform H8 st8 p.
  step_uniform H9 st9 v.
  pose proof (RandomOpsFacts.nextInt_bounds 800 1500 st9
                ltac:(lia) ltac:(lia) ltac:(lia)) as H10.
  destruct (RandomOps.nextInt 800 1500 st9) as [delta st10].
  cbn [fst snd] in H10.
  step_uniform H11 st11 cv.
  step_uniform H12 st12 w.
  unfold wf_sensor, nonneg_models, nonneg_opt, drawn_or_given in *.
  cbn in H1, H2, H3, H4, H5, H6 |- *.
  destruct H10 as [H10 _]. apply IZR_le in H10.
  assert (0 < / 10000000) by (apply Rinv_0_lt_compat; lra).
  repeat match goal with |- _ /\ _ => split end; try lra; try nra; exact I.
Qed.

End RandomSensorFacts.

(* ================================================================== *)
(** ** The genetic optimizer: how a run ends *)
(* ================================================================== *)

Module OptimizerRunFacts.
Import GeneticOptimizer.

Section Runs.
Variable this : t.
Variable bounds : Bounds.
Variable fitnessFunc : list R -> R.
Hypothesis this_constructed : constructed this.
Hypothesis bounds_ordered : ordered_bounds bounds.

Local Abbreviation ok := (individual_in_bounds bounds).
Local Abbreviation evald := (evaluated_by fitnessFunc).
Local Abbreviation P := (populationSize this).
Local Abbreviation m := (maxStagnation this).

Lemma evaluated_all population :
  Forall evald (map (evaluate fitnessFunc) population).
Proof.
  apply Forall_forall. intros ind Hin. apply in_map_iff in Hin.
  destruct Hin as (g & <- & _). reflexivity.
Qed.

(** At the head of every generation the best-ever individual is at least
    as good as the first of the population, so the test for an improvement
    fails, the stagnation counter goes up by one, and the loop stops when
    the counter reaches [maxStagnation]. *)
Lemma generationLoop_run n : forall gen ls st,
  (2 <= P)%nat ->
  Forall ok (ls_population ls) -> List.length (ls_population ls) = P ->
  ok (ls_bestEver ls) -> evald (ls_bestEver ls) ->
  Forall evald (ls_population ls) ->
  (forall first, hd_error (ls_population ls) = Some first ->
     fitness (ls_bestEver ls) <= fitness first) ->
  (ls_stagnationCount ls < m)%nat -> (m - ls_stagnationCount ls <= n)%nat ->
  exists recs ls' st',
    generationLoop this fitnessFunc n gen bounds ls st
    = (recs, Some (ls', st'))
    /\ List.length recs = (m - ls_stagnationCount ls)%nat
    /\ map gr_generation recs = seq gen (m - ls_stagnationCount ls)
    /\ ls_stagnationCount ls' = m
    /\ ls_totalEvaluations ls'
       = (ls_totalEvaluations ls + P * (m - ls_stagnationCount ls - 1))%nat
    /\ ok (ls_bestEver ls') /\ evald (ls_bestEver ls')
    /\ fitness (ls_bestEver ls') <= fitness (ls_bestEver ls)
    /\ Forall (fun r => fitness (ls_bestEver ls') <= gr_bestFitness r) recs.
Proof.
  induction n as [|n IH];
    intros gen ls st HP Hpop Hlen Hbok Hbev Hpev Hhd Hs Hn; [lia|].
  rewrite OptimizerFacts.generationLoop_step.
  destruct (ls_population ls) as [|first rest] eqn:Ep; [cbn in Hlen; lia|].
  cbv zeta.
  specialize (Hhd first eq_refl).
  destruct (Rlt_dec (fitness first) (fitness (ls_bestEver ls))) as [Hc|_];
    [lra|].
  destruct (Nat.leb m (S (ls_stagnationCount ls))) eqn:El.
  - apply Nat.leb_le in El.
    assert (Hone : (m - ls_stagnationCount ls = 1)%nat) by lia.
    rewrite Hone. eexists. eexists. eexists.
    split; [reflexivity|].
    cbn [List.length map seq gr_generation ls_stagnationCount
         ls_totalEvaluations ls_bestEver gr_bestFitness].
    repeat split; try assumption; try lia; try lra.
    constructor; [exact Hhd | constructor].
  - apply Nat.leb_gt in El.
    pose proof (OptimizerFacts.eliteCount_le_population this this_constructed HP)
      as Hel.
    destruct (OptimizerFacts.newPopulation_total this bounds this_constructed
                bounds_ordered (first :: rest) st Hpop)
      as (fresh & st1 & En); [rewrite Hlen; exact Hel|].
    rewrite En.
    destruct (OptimizerFacts.newPopulation_in_bounds this bounds
                this_constructed bounds_ordered _ _ _ _ Hpop En)
      as [Hfresh Hflen].
    pose proof (OptimizerFacts.sortByFitness_Forall ok _
                  (OptimizerFacts.evaluated_in_bounds bounds fitnessFunc _ Hfresh))
      as Hsok.
    pose proof (OptimizerFacts.sortByFitness_Forall evald _
                  (evaluated_all fresh)) as Hsev.
    pose proof (OptimizerFacts.sortByFitness_length
                  (map (evaluate fitnessFunc) fresh)) as Hsl.
    rewrite length_map, Hflen in Hsl.
    destruct (sortByFitness (map (evaluate fitnessFunc) fresh))
      as [|first' rest'] eqn:Es; [cbn in Hsl; lia|].
    match goal with
    | |- context [generationLoop this fitnessFunc n (S gen) bounds ?ls2 st1] =>
        destruct (IH (S gen) ls2 st1 HP)
          as (recs & ls' & st' & E & Hrl & Hrg & Hst & Hev & Hok' & Hev'
              & Hle & Hall);
        cbn [ls_population ls_bestEver ls_stagnationCount ls_totalEvaluations]
    end.
    + exact Hsok.
    + lia.
    + destruct (Rlt_dec _ _); [inversion Hsok; assumption | exact Hbok].
    + destruct (Rlt_dec _ _); [inversion Hsev; assumption | exact Hbev].
    + exact Hsev.
    + intros f Hf. cbn in Hf. injection Hf as <-.
      destruct (Rlt_dec _ _); lra.
    + lia.
    + lia.
    + cbn [ls_population ls_bestEver ls_stagnationCount ls_totalEvaluations]
        in *.
      rewrite E. cbn [fst snd].
      exists ({| gr_generation := gen; gr_bestFitness := fitness first;
                 gr_avgFitness := avgFitness (first :: rest);
                 gr_infeasibleCount := ls_infeasibleCount ls |} :: recs),
        ls', st'.
      assert (Hsucc : (m - ls_stagnationCount ls
                       = S (m - S (ls_stagnationCount ls)))%nat) by lia.
      assert (Hb2 : fitness (ls_bestEver ls') <= fitness (ls_bestEver ls)).
      { destruct (Rlt_dec (fitness first') (fitness (ls_bestEver ls))); lra. }
      split; [reflexivity|].
      rewrite Hsucc. cbn [List.length map seq gr_generation].
      repeat split; try assumption.
      * rewrite Hrl. reflexivity.
      * rewrite Hrg. reflexivity.
      * rewrite Hev.
        replace (S (m - S (ls_stagnationCount ls)) - 1)%nat
          with (S (m - S (ls_stagnationCount ls) - 1))%nat by lia.
        lia.
      * constructor; [cbn [gr_bestFitness]; lra | exact Hall].
Qed.

(** The first population: evaluated, sorted, of the configured size. *)
Lemma optimize_unfold st :
  (2 <= P)%nat ->
  exists fresh st0 first rest,
    initializePopulation this (List.length bounds) bounds st
    = Some (fresh, st0)
    /\ sortByFitness (map (evaluate fitnessFunc) fresh) = first :: rest
    /\ Forall ok (first :: rest) /\ Forall evald (first :: rest)
    /\ List.length (first :: rest) = P.
Proof.
  intros HP. unfold initializePopulation.
  pose proof (OptimizerFacts.populationLoop_in_bounds bounds P bounds_ordered)
    as Hinit.
  destruct (Hinit st) as (fresh & st0 & Ei & Hlen & Hfresh).
  pose proof (OptimizerFacts.sortByFitness_Forall ok _
                (OptimizerFacts.evaluated_in_bounds bounds fitnessFunc _ Hfresh))
    as Hsok.
  pose proof (OptimizerFacts.sortByFitness_Forall evald _
                (evaluated_all fresh)) as Hsev.
  pose proof (OptimizerFacts.sortByFitness_length
                (map (evaluate fitnessFunc) fresh)) as Hsl.
  rewrite length_map, Hlen in Hsl.
  destruct (sortByFitness (map (evaluate fitnessFunc) fresh))
    as [|first rest] eqn:Es; [cbn in Hsl; lia|].
  exists fresh, st0, first, rest. repeat split; assumption.
Qed.

Lemma maxStagnation_le : (m <= generations this)%nat.
Proof.
  unfold maxStagnation.
  destruct (generations this) as [|g]; [reflexivity|].
  apply Nat.Div0.div_le_upper_bound. lia.
Qed.

(** The whole run, in the terms of the loop. *)
Lemma optimize_run st :
  (2 <= P)%nat ->
  exists recs result st',
    optimize this fitnessFunc (List.length bounds) bounds st
    = (recs, Some (result, st'))
    /\ List.length recs = m
    /\ map gr_generation recs = seq 0 m
    /\ converged result = true
    /\ evaluations result = (P * Nat.max 1 m)%nat
    /\ ok (best result) /\ evald (best result)
    /\ Forall (fun r => fitness (best result) <= gr_bestFitness r) recs.
Proof.
  intros HP. unfold optimize.
  destruct (optimize_unfold st HP)
    as (fresh & st0 & first & rest & Ei & Es & Hok & Hev & Hlen).
  rewrite Ei. unfold evaluatePopulation. rewrite Es.
  destruct (Nat.eq_dec m 0) as [Hm0|Hm0].
  - assert (Hg : generations this = O).
    { unfold maxStagnation in Hm0.
      destruct (generations this) as [|g]; [reflexivity|].
      exfalso.
      assert (H1 : (1 <= (S g + 1) / 2)%nat)
        by (apply Nat.div_le_lower_bound; lia).
      lia. }
    rewrite Hg. cbn [generationLoop].
    eexists. eexists. eexists. split; [reflexivity|].
    cbn [converged evaluations best ls_bestEver ls_stagnationCount
         ls_totalEvaluations List.length map].
    rewrite Hm0. cbn [seq Nat.leb Nat.max].
    repeat split; try lia.
    + inversion Hok; assumption.
    + inversion Hev; assumption.
    + constructor.
  - match goal with
    | |- context [generationLoop this fitnessFunc ?n 0 bounds ?ls0 st0] =>
        destruct (generationLoop_run n 0%nat ls0 st0 HP)
          as (recs & ls' & st' & E & Hrl & Hrg & Hst & Hevs & Hok' & Hev'
              & _ & Hall);
        cbn [ls_population ls_bestEver ls_stagnationCount ls_totalEvaluations]
    end.
    + exact Hok.
    + exact Hlen.
    + inversion Hok; assumption.
    + inversion Hev; assumption.
    + exact Hev.
    + intros f Hf. cbn in Hf. injection Hf as <-. lra.
    + lia.
    + pose proof maxStagnation_le. lia.
    + cbn [ls_population ls_bestEver ls_stagnationCount ls_totalEvaluations]
        in *.
      rewrite E. rewrite Nat.sub_0_r in *.
      eexists. eexists. eexists. split; [reflexivity|].
      cbn [converged evaluations best].
      rewrite Hst, Nat.leb_refl, Hevs.
      repeat split; try assumption.
      rewrite Nat.max_r by lia.
      replace m with (S (m - 1)) at 2 by lia. lia.
Qed.

End Runs.

(** X14: A run of [optimize] with a population of two or more never uses its
    budget of generations: the stagnation counter is never reset, so the
    run stops after [ceil(generations / 2)] generations, which are the
    callbacks it issues (numbered from 0); it reports [converged = true]
    whatever happened, and has evaluated the population once per generation
    run (once when there is none). *)
Theorem optimize_stops_by_stagnation this bounds fitnessFunc st :
  constructed this -> ordered_bounds bounds ->
  (2 <= populationSize this)%nat ->
  exists recs result st',
    optimize this fitnessFunc (List.length bounds) bounds st
    = (recs, Some (result, st'))
    /\ List.length recs = halfGenerations this
    /\ map gr_generation recs = seq 0 (halfGenerations this)
    /\ converged result = true
    /\ evaluations result
       = (populationSize this * Nat.max 1 (halfGenerations this))%nat.
Proof.
  intros Hc Hb HP.
  destruct (optimize_run this bounds fitnessFunc Hc Hb st HP)
    as (recs & result & st' & E & H1 & H2 & H3 & H4 & _).
  exists recs, result, st'. repeat split; assumption.
Qed.

Lemma unitBounds_ordered : ordered_bounds unitBounds.
Proof. constructor; [cbn; lra | constructor]. Qed.

Lemma optimize_stops_by_stagnation_witness :
  exists recs result st',
    optimize pairOptimizer (fun g => hd 0 g) 1 unitBounds (SeededRandom.make 42)
    = (recs, Some (result, st'))
    /\ List.length recs = 2%nat
    /\ map gr_generation recs = [0%nat; 1%nat]
    /\ converged result = true
    /\ evaluations result = 4%nat.
Proof.
  exact (optimize_stops_by_stagnation pairOptimizer unitBounds
           (fun g => hd 0 g) (SeededRandom.make 42)
           (PolicyFacts.make_constructed 2 4 (5 / 100)) unitBounds_ordered
           (le_n 2)).
Defined.

Lemma strict_bounds_ordered bounds : strict_bounds bounds -> ordered_bounds bounds.
Proof.
  intros H. eapply Forall_impl; [|exact H]. cbn beta. intros b Hb. lra.
Qed.

Lemma unitBounds_strict : strict_bounds unitBounds.
Proof. constructor; [cbn; lra | constructor]. Qed.

(** X15: For bounds with [min < max] and a population of two or more, the
    individual [optimize] returns is an evaluated one within the bounds:
    its fitness is the fitness of its genes, and it is at least as good as
    the best of every generation reported to the callback.  (A gene whose
    bounds coincide can become NaN in a mutation.) *)
Theorem optimize_best_is_best_seen this bounds fitnessFunc st :
  constructed this -> strict_bounds bounds ->
  (2 <= populationSize this)%nat ->
  exists recs result st',
    optimize this fitnessFunc (List.length bounds) bounds st
    = (recs, Some (result, st'))
    /\ in_bounds (genes (best result)) bounds
    /\ fitness (best result) = fitnessFunc (genes (best result))
    /\ Forall (fun r => fitness (best result) <= gr_bestFitness r) recs.
Proof.
  intros Hc Hb HP. apply strict_bounds_ordered in Hb.
  destruct (optimize_run this bounds fitnessFunc Hc Hb st HP)
    as (recs & result & st' & E & _ & _ & _ & _ & H5 & H6 & H7).
  exists recs, result, st'. repeat split; assumption.
Qed.

Lemma optimize_best_is_best_seen_witness :
  exists recs result st',
    optimize pairOptimizer (fun g => hd 0 g) 1 unitBounds (SeededRandom.make 42)
    = (recs, Some (result, st'))
    /\ in_bounds (genes (best result)) unitBounds
    /\ fitness (best result) = hd 0 (genes (best result))
    /\ Forall (fun r => fitness (best result) <= gr_bestFitness r) recs.
Proof.
  exact (optimize_best_is_best_seen pairOptimizer unitBounds
           (fun g => hd 0 g) (SeededRandom.make 42)
           (PolicyFacts.make_constructed 2 4 (5 / 100)) unitBounds_strict
           (le_n 2)).
Defined.

Lemma lone_population this bounds fitnessFunc st :
  ordered_bounds bounds -> populationSize this = 1%nat ->
  exists fresh st0 first,
    initializePopulation this (List.length bounds) bounds st
    = Some (fresh, st0)
    /\ sortByFitness (map (evaluate fitnessFunc) fresh) = [first].
Proof.
  intros Hb HP. unfold initializePopulation.
  pose proof (OptimizerFacts.populationLoop_in_bounds bounds
                (populationSize this) Hb) as Hinit.
  destruct (Hinit st) as (fresh & st0 & Ei & Hlen & _).
  pose proof (OptimizerFacts.sortByFitness_length
                (map (evaluate fitnessFunc) fresh)) as Hsl.
  rewrite length_map, Hlen, HP in Hsl.
  destruct (sortByFitness (map (evaluate fitnessFunc) fresh))
    as [|first [|second rest]] eqn:Es; try (cbn in Hsl; lia).
  exists fresh, st0, first. split; [exact Ei | exact Es].
Qed.

(** One individual and three generations or more: the run throws in the
    first generation, after one callback. *)
Lemma lone_population_throws this bounds fitnessFunc st :
  constructed this -> ordered_bounds bounds ->
  populationSize this = 1%nat -> (3 <= generations this)%nat ->
  exists rec,
    optimize this fitnessFunc (List.length bounds) bounds st = ([rec], None)
    /\ gr_generation rec = 0%nat.
Proof.
  intros Hc Hb HP HG.
  destruct (lone_population this bounds fitnessFunc st Hb HP)
    as (fresh & st0 & first & Ei & Es).
  unfold optimize. rewrite Ei. unfold evaluatePopulation. rewrite Es.
  destruct (generations this) as [|n] eqn:Eg; [lia|].
  rewrite OptimizerFacts.generationLoop_step.
  cbn [ls_population ls_bestEver ls_stagnationCount ls_infeasibleCount
       ls_totalEvaluations]. cbv zeta.
  destruct (Rlt_dec (fitness first) (fitness first)) as [Hlt|_]; [lra|].
  assert (Hm : (2 <= maxStagnation this)%nat).
  { unfold maxStagnation. rewrite Eg.
    apply Nat.div_le_lower_bound; lia. }
  destruct (Nat.leb (maxStagnation this) 1) eqn:El;
    [apply Nat.leb_le in El; lia|].
  unfold newPopulation. destruct Hc as [_ He]. rewrite He, HP.
  cbn [Nat.div Nat.max eliteLoop nth_error].
  change (Nat.max 2 (1 / 10)) with 2%nat.
  cbn [eliteLoop nth_error]. unfold throw.
  eexists. split; reflexivity.
Qed.

(** X16: Populations too small for the elitism loop.  With no individual
    [optimize] throws before any callback.  With one individual the two
    elites the constructor asks for do not exist: the run throws in the
    first generation, after one callback, as soon as it has to breed, which
    is when [generations >= 3]; with fewer generations it stops before
    breeding and returns. *)
Theorem optimize_small_population this bounds fitnessFunc st :
  constructed this -> ordered_bounds bounds ->
  (populationSize this <= 1)%nat ->
  (populationSize this = 0%nat ->
   optimize this fitnessFunc (List.length bounds) bounds st = ([], None))
  /\ (populationSize this = 1%nat -> (3 <= generations this)%nat ->
      exists rec,
        optimize this fitnessFunc (List.length bounds) bounds st
        = ([rec], None)
        /\ gr_generation rec = 0%nat)
  /\ (populationSize this = 1%nat -> (generations this <= 2)%nat ->
      exists recs result st',
        optimize this fitnessFunc (List.length bounds) bounds st
        = (recs, Some (result, st'))
        /\ List.length recs = halfGenerations this).
Proof.
  intros Hc Hb _. split; [|split].
  - intros HP. unfold optimize, initializePopulation. rewrite HP.
    cbn [populationLoop]. unfold ret. reflexivity.
  - intros HP HG. apply lone_population_throws; assumption.
  - intros HP HG.
    destruct (lone_population this bounds fitnessFunc st Hb HP)
      as (fresh & st0 & first & Ei & Es).
    unfold optimize. rewrite Ei. unfold evaluatePopulation. rewrite Es.
    unfold halfGenerations.
    destruct (generations this) as [|n] eqn:Eg.
    + cbn [generationLoop]. eexists. eexists. eexists.
      split; reflexivity.
    + rewrite OptimizerFacts.generationLoop_step.
      cbn [ls_population ls_bestEver ls_stagnationCount ls_infeasibleCount
           ls_totalEvaluations]. cbv zeta.
      destruct (Rlt_dec (fitness first) (fitness first)) as [Hlt|_]; [lra|].
      assert (Hm : maxStagnation this = 1%nat).
      { unfold maxStagnation. rewrite Eg.
        destruct n as [|[|n']]; [reflexivity | reflexivity | lia]. }
      rewrite Hm. cbn [Nat.leb].
      eexists. eexists. eexists. split; [reflexivity|].
      destruct n as [|[|n']]; [reflexivity | reflexivity | lia].
Qed.

Lemma optimize_small_population_witness :
  exists rec,
    optimize loneOptimizer (fun g => hd 0 g) 1 unitBounds (SeededRandom.make 42)
    = ([rec], None)
    /\ gr_generation rec = 0%nat.
Proof.
  exact (proj1 (proj2 (optimize_small_population loneOptimizer unitBounds
                         (fun g => hd 0 g) (SeededRandom.make 42)
                         (PolicyFacts.make_constructed 1 3 (5 / 100))
                         unitBounds_ordered (le_n 1)))
           eq_refl (le_n 3)).
Defined.

(** *** Elitism *)

Lemma skipn_nth_error (A : Type) (l : list A) : forall i x,
  nth_error l i = Some x -> skipn i l = x :: skipn (S i) l.
Proof.
  induction l as [|y l IH]; intros [|i] x E; cbn in E; try discriminate.
  - injection E as <-. reflexivity.
  - cbn [skipn]. rewrite (IH i x E). reflexivity.
Qed.

Lemma eliteLoop_prefix population n : forall i elites,
  eliteLoop n i population = Some elites ->
  elites = map genes (firstn n (skipn i population)).
Proof.
  induction n as [|n IH]; intros i elites E; cbn [eliteLoop] in E.
  - injection E as <-. reflexivity.
  - destruct (nth_error population i) as [ind|] eqn:Ei; [|discriminate].
    destruct (eliteLoop n (S i) population) as [rest|] eqn:Er; [|discriminate].
    injection E as <-. rewrite (IH _ _ Er).
    rewrite (skipn_nth_error _ _ _ _ Ei). reflexivity.
Qed.

(** X17: Every new population starts with the genes of the first [eliteCount]
    individuals of the old one, unchanged and in order, followed by the
    children; it has [populationSize] members (or [eliteCount], if that is
    more). *)
Theorem elites_survive this bounds population st :
  constructed this -> ordered_bounds bounds ->
  Forall (individual_in_bounds bounds) population ->
  (eliteCount this <= List.length population)%nat ->
  exists fresh st',
    newPopulation this population bounds st = Some (fresh, st')
    /\ firstn (eliteCount this) fresh
       = map genes (firstn (eliteCount this) population)
    /\ List.length fresh
       = Nat.max (populationSize this) (eliteCount this).
Proof.
  intros Hc Hb Hpop Hlen.
  destruct (OptimizerFacts.newPopulation_total this bounds Hc Hb population st
              Hpop Hlen) as (fresh & st' & En).
  exists fresh, st'. split; [exact En|].
  destruct (OptimizerFacts.newPopulation_in_bounds this bounds Hc Hb _ _ _ _
              Hpop En) as [_ Hfl].
  split; [|lia].
  unfold newPopulation in En.
  destruct (eliteLoop (eliteCount this) 0 population) as [elites|] eqn:Ee;
    [|discriminate].
  pose proof (eliteLoop_prefix _ _ _ _ Ee) as Hel. cbn [skipn] in Hel.
  unfold bind in En.
  destruct (breedLoop this (populationSize this - List.length elites)
              population bounds st) as [[children st1]|]; [|discriminate].
  unfold ret in En. injection En as <- _.
  assert (Hn : List.length elites = eliteCount this).
  { rewrite Hel, length_map, length_firstn. lia. }
  rewrite <- Hn at 1. rewrite firstn_app, firstn_all, Nat.sub_diag.
  cbn [firstn]. rewrite app_nil_r. exact Hel.
Qed.

Lemma elites_survive_witness :
  exists fresh st',
    newPopulation pairOptimizer
      [{| genes := [0]; fitness := 0 |}; {| genes := [1]; fitness := 1 |}]
      unitBounds (SeededRandom.make 42) = Some (fresh, st')
    /\ firstn 2 fresh = [[0]; [1]]
    /\ List.length fresh = 2%nat.
Proof.
  apply (elites_survive pairOptimizer unitBounds
           [{| genes := [0]; fitness := 0 |}; {| genes := [1]; fitness := 1 |}]
           (SeededRandom.make 42)).
  - apply PolicyFacts.make_constructed.
  - exact unitBounds_ordered.
  - repeat constructor; cbn; lra.
  - cbn. lia.
Defined.

(** *** [optimizeWithRestarts] *)

Section Restarts.
Variable this : t.
Variable bounds : Bounds.
Variable fitnessFunc : list R -> R.
Hypothesis this_constructed : constructed this.
Hypothesis bounds_ordered : ordered_bounds bounds.
Hypothesis population_two : (2 <= populationSize this)%nat.

Local Abbreviation ok := (individual_in_bounds bounds).
Local Abbreviation evald := (evaluated_by fitnessFunc).

Lemma restartLoop_run n : forall acc st,
  (forall b, acc = Some b -> ok (best b) /\ evald (best b)) ->
  exists recs r st',
    OptimizerRestarts.restartLoop this fitnessFunc n acc
      (List.length bounds) bounds st
    = (recs, Some (r, st'))
    /\ List.length recs = (n * halfGenerations this)%nat
    /\ (forall b, acc = Some b ->
          exists res, r = Some res
                      /\ fitness (best res) <= fitness (best b))
    /\ ((0 < n)%nat -> exists res, r = Some res)
    /\ (n = 0%nat -> r = acc)
    /\ (forall res, r = Some res ->
          ok (best res) /\ evald (best res)
          /\ Forall (fun rc => fitness (best res) <= gr_bestFitness rc) recs).
Proof.
  induction n as [|n IH]; intros acc st Hacc;
    cbn [OptimizerRestarts.restartLoop].
  - exists [], acc, st. split; [reflexivity|].
    split; [reflexivity|]. split.
    { intros b ->. exists b. split; [reflexivity | lra]. }
    split; [lia|]. split; [reflexivity|].
    intros res ->. destruct (Hacc res eq_refl) as [H1 H2].
    repeat split; try assumption. constructor.
  - destruct (RandomOps.nextInt 0 1000000000 st) as [newSeed st0].
    destruct (optimize_run this bounds fitnessFunc this_constructed
                bounds_ordered (SeededRandom.make newSeed) population_two)
      as (recs1 & result & st2 & E & Hl1 & _ & _ & _ & Hok1 & Hev1 & Hall1).
    rewrite E.
    set (acc' := match acc with
                 | None => result
                 | Some b =>
                     if Rlt_dec (fitness (best result)) (fitness (best b))
                     then result else b
                 end).
    assert (Hacc' : ok (best acc') /\ evald (best acc')
                    /\ fitness (best acc') <= fitness (best result)
                    /\ (forall b, acc = Some b ->
                          fitness (best acc') <= fitness (best b))).
    { unfold acc'. destruct acc as [b|].
      - destruct (Hacc b eq_refl) as [Hb1 Hb2].
        destruct (Rlt_dec (fitness (best result)) (fitness (best b))).
        + repeat split; try assumption; try lra.
          intros b0 Hb0. injection Hb0 as <-. lra.
        + repeat split; try assumption; try lra.
          intros b0 Hb0. injection Hb0 as <-. lra.
      - repeat split; try assumption; try lra. intros b Hb. discriminate. }
    destruct Hacc' as (Ha1 & Ha2 & Ha3 & Ha4).
    destruct (IH (Some acc') st2) as (recs2 & r & st' & E2 & Hl2 & Hle & _ & _ & Hres).
    { intros b Hb. injection Hb as <-. split; assumption. }
    rewrite E2. exists (recs1 ++ recs2), r, st'.
    destruct (Hle acc' eq_refl) as (res & -> & Hres_le).
    destruct (Hres res eq_refl) as (Hr1 & Hr2 & Hr3).
    split; [reflexivity|]. split.
    { rewrite length_app, Hl1, Hl2. unfold halfGenerations, maxStagnation.
      cbn [Nat.mul]. reflexivity. }
    split.
    { intros b Hb. exists res. split; [reflexivity|].
      specialize (Ha4 b Hb). lra. }
    split; [intros _; exists res; reflexivity|].
    split; [lia|].
    intros res0 Hres0. injection Hres0 as <-.
    repeat split; try assumption.
    apply Forall_app. split; [|exact Hr3].
    eapply Forall_impl; [|exact Hall1].
    cbn beta. intros rc Hrc. lra.
Qed.

End Restarts.

(** The callbacks of a run with a restart begin with those of [optimize]
    on a generator seeded with [nextInt(0, 1e9)] of the old one. *)
Lemma restartLoop_first this fitnessFunc n acc geneCount bounds st recs r :
  OptimizerRestarts.restartLoop this fitnessFunc (S n) acc geneCount bounds st
  = (recs, r) ->
  exists recs',
    recs
    = fst (optimize this fitnessFunc geneCount bounds
             (SeededRandom.make (fst (RandomOps.nextInt 0 1000000000 st))))
      ++ recs'.
Proof.
  cbn [OptimizerRestarts.restartLoop].
  destruct (RandomOps.nextInt 0 1000000000 st) as [newSeed st0]. cbn [fst].
  destruct (optimize this fitnessFunc geneCount bounds
              (SeededRandom.make newSeed)) as [recs1 [[result st2]|]].
  - destruct (OptimizerRestarts.restartLoop this fitnessFunc n _ geneCount
                bounds st2) as [recs2 r2].
    intros E. injection E as <- _. exists recs2. reflexivity.
  - intros E. injection E as <- _. exists []. cbn [fst].
    rewrite app_nil_r. reflexivity.
Qed.

(** A run with a restart reads the old generator once, for the new seed. *)
Lemma restartLoop_reseeds this fitnessFunc n acc geneCount bounds st1 st2 :
  fst (RandomOps.nextInt 0 1000000000 st1)
  = fst (RandomOps.nextInt 0 1000000000 st2) ->
  OptimizerRestarts.restartLoop this fitnessFunc (S n) acc geneCount bounds st1
  = OptimizerRestarts.restartLoop this fitnessFunc (S n) acc geneCount bounds
      st2.
Proof.
  intros H. cbn [OptimizerRestarts.restartLoop].
  destruct (RandomOps.nextInt 0 1000000000 st1) as [seed1 s1].
  destruct (RandomOps.nextInt 0 1000000000 st2) as [seed2 s2].
  cbn [fst] in H. subst seed2. reflexivity.
Qed.

(** X18: [optimizeWithRestarts] returns [null] when asked for no restart.  With
    [restarts >= 1], a population of two or more and bounds with
    [min < max] it returns a result, after
    [restarts * ceil(generations / 2)] callbacks, whose best individual is
    an evaluated one within the bounds and is at least as good as the best
    of every generation of every restart.  The first restart runs
    [optimize] on a new generator, seeded with [nextInt(0, 1e9)] of the old
    one: the callbacks begin with those of that run, and the outcome
    depends on the old generator through that one draw only. *)
Theorem restarts_keep_the_best this bounds fitnessFunc restarts st :
  constructed this -> strict_bounds bounds ->
  (2 <= populationSize this)%nat ->
  OptimizerRestarts.optimizeWithRestarts this fitnessFunc
    (List.length bounds) bounds 0 st = ([], Some (None, st))
  /\ ((1 <= restarts)%nat ->
      exists recs result st',
        OptimizerRestarts.optimizeWithRestarts this fitnessFunc
          (List.length bounds) bounds restarts st
        = (recs, Some (Some result, st'))
        /\ List.length recs = (restarts * halfGenerations this)%nat
        /\ in_bounds (genes (best result)) bounds
        /\ fitness (best result) = fitnessFunc (genes (best result))
        /\ Forall (fun rc => fitness (best result) <= gr_bestFitness rc) recs
        /\ (exists recs',
              recs
              = fst (optimize this fitnessFunc (List.length bounds) bounds
                       (SeededRandom.make
                          (fst (RandomOps.nextInt 0 1000000000 st))))
                ++ recs')
        /\ (forall st2,
              fst (RandomOps.nextInt 0 1000000000 st2)
              = fst (RandomOps.nextInt 0 1000000000 st) ->
              OptimizerRestarts.optimizeWithRestarts this fitnessFunc
                (List.length bounds) bounds restarts st2
              = (recs, Some (Some result, st')))).
Proof.
  intros Hc Hb HP. apply strict_bounds_ordered in Hb.
  split; [reflexivity|]. intros Hr.
  unfold OptimizerRestarts.optimizeWithRestarts.
  destruct (restartLoop_run this bounds fitnessFunc Hc Hb HP restarts None st)
    as (recs & r & st' & E & Hl & _ & Hsome & _ & Hres).
  { intros b Hb0. discriminate. }
  destruct (Hsome Hr) as (res & ->).
  destruct (Hres res eq_refl) as (H1 & H2 & H3).
  exists recs, res, st'.
  split; [exact E|]. split; [exact Hl|]. split; [exact H1|].
  split; [exact H2|]. split; [exact H3|].
  destruct restarts as [|n]; [lia|].
  split.
  - exact (restartLoop_first _ _ _ _ _ _ _ _ _ E).
  - intros st2 Hst. rewrite <- E. apply restartLoop_reseeds. exact Hst.
Qed.

Lemma restarts_keep_the_best_witness :
  exists recs result st',
    OptimizerRestarts.optimizeWithRestarts pairOptimizer (fun g => hd 0 g)
      1 unitBounds 3 (SeededRandom.make 42)
    = (recs, Some (Some result, st'))
    /\ List.length recs = 6%nat
    /\ in_bounds (genes (best result)) unitBounds.
Proof.
  destruct (proj2 (restarts_keep_the_best pairOptimizer unitBounds
                     (fun g => hd 0 g) 3 (SeededRandom.make 42)
                     (PolicyFacts.make_constructed 2 4 (5 / 100))
                     unitBounds_strict (le_n 2))
              (le_S _ _ (le_S _ _ (le_n 1))))
    as (recs & result & st' & E & Hl & Hb & _).
  exists recs, result, st'.
  split; [exact E|]. split; [exact Hl | exact Hb].
Defined.

End OptimizerRunFacts.

(* ================================================================== *)
(** ** The Predictive policy: histories, predictions, actions *)
(* ================================================================== *)

Module PredictiveFacts.

(** *** The sliding window of [updateHistory] *)

Lemma lastn_short (A : Type) (l : list A) n :
  (List.length l <= n)%nat -> lastn n l = l.
Proof.
  intros H. unfold lastn.
  replace (List.length l - n)%nat with 0%nat by lia. reflexivity.
Qed.

Lemma lastn_length (A : Type) (l : list A) n :
  List.length (lastn n l) = Nat.min n (List.length l).
Proof. unfold lastn. rewrite length_skipn. lia. Qed.

Lemma tl_skipn (A : Type) (l : list A) k : tl (skipn k l) = skipn (S k) l.
Proof.
  revert k. induction l as [|x l IH]; intros [|k]; cbn; try reflexivity.
  apply IH.
Qed.

(** Pushing onto the last 50 and shifting keeps the last 50. *)
Lemma pushWindow_lastn xs x :
  PTSRA.pushWindow (lastn 50 xs) x = lastn 50 (xs ++ [x]).
Proof.
  unfold PTSRA.pushWindow.
  rewrite length_app, lastn_length. cbn [List.length].
  destruct (Nat.le_gt_cases (List.length xs) 49) as [Hs|Hl].
  - rewrite (lastn_short _ xs) by lia.
    rewrite (lastn_short _ (xs ++ [x])) by (rewrite length_app; cbn; lia).
    destruct (Nat.ltb_spec 50 (Nat.min 50 (List.length xs) + 1)); [lia|].
    reflexivity.
  - destruct (Nat.ltb_spec 50 (Nat.min 50 (List.length xs) + 1)); [|lia].
    unfold lastn. rewrite length_app. cbn [List.length].
    replace (List.length xs + 1 - 50)%nat
      with (S (List.length xs - 50)) by lia.
    rewrite <- tl_skipn.
    rewrite skipn_app.
    replace (List.length xs - 50 - List.length xs)%nat with 0%nat by lia.
    reflexivity.
Qed.

Lemma historyOf_set_same m sid h :
  PTSRA.historyOf (JsMap.set m sid h) sid = h.
Proof. unfold PTSRA.historyOf. rewrite JsMapFacts.get_set_same. reflexivity. Qed.

Lemma historyOf_set_other m sid sid' h :
  sid' <> sid ->
  PTSRA.historyOf (JsMap.set m sid h) sid' = PTSRA.historyOf m sid'.
Proof.
  intros H. unfold PTSRA.historyOf.
  rewrite JsMapFacts.get_set_other by exact H. reflexivity.
Qed.

Lemma recordAll_app m obs o :
  recordAll m (obs ++ [o])
  = PTSRA.updateHistory (recordAll m obs) (fst o) (ev_arrival (snd o))
      (ev_harvest (snd o)) (ev_channelGain (snd o)).
Proof. unfold recordAll. rewrite fold_left_app. reflexivity. Qed.

Lemma observationsOf_app sid obs o :
  observationsOf sid (obs ++ [o])
  = observationsOf sid obs
    ++ (if String.eqb (fst o) sid then [snd o] else []).
Proof.
  unfold observationsOf. rewrite filter_app, map_app. cbn [filter].
  destruct (String.eqb (fst o) sid); reflexivity.
Qed.

(** X19: After any sequence of observations recorded from an empty memory, the
    three histories kept for a sensor are exactly its last 50 arrivals,
    harvests and channel gains, oldest first: nothing of another sensor,
    nothing older, nothing reordered. *)
Theorem history_is_last_fifty seed obs sid :
  let m := recordAll (PTSRA.initialMem seed) obs in
  PTSRA.historyOf (PTSRA.arrivalHistory m) sid
  = lastn 50 (map ev_arrival (observationsOf sid obs))
  /\ PTSRA.historyOf (PTSRA.harvestHistory m) sid
     = lastn 50 (map ev_harvest (observationsOf sid obs))
  /\ PTSRA.historyOf (PTSRA.channelHistory m) sid
     = lastn 50 (map ev_channelGain (observationsOf sid obs))
  /\ PTSRA.rng m = SeededRandom.make seed.
Proof.
  cbn zeta. induction obs as [|o obs IH] using rev_ind.
  - cbn. repeat split.
  - destruct IH as (Ha & Hh & Hc & Hr).
    rewrite recordAll_app, observationsOf_app.
    unfold PTSRA.updateHistory.
    cbn [PTSRA.arrivalHistory PTSRA.harvestHistory PTSRA.channelHistory
         PTSRA.rng].
    destruct (String.eqb_spec (fst o) sid) as [->|Hne].
    + rewrite !historyOf_set_same, Ha, Hh, Hc, !map_app. cbn [map].
      rewrite !pushWindow_lastn. repeat split. exact Hr.
    + rewrite !historyOf_set_other by congruence.
      rewrite app_nil_r. repeat split; assumption.
Qed.

(** *** [calculateEWMA] *)

Lemma ewma_fold_range lo hi rest : forall e,
  lo <= e <= hi -> Forall (fun x => lo <= x <= hi) rest ->
  lo <= fold_left (fun ewma x => PTSRA.ewmaAlpha * x
                                 + (1 - PTSRA.ewmaAlpha) * ewma) rest e
     <= hi.
Proof.
  induction rest as [|x rest IH]; intros e He Hr; cbn [fold_left].
  - exact He.
  - inversion Hr as [|? ? Hx Hrest]; subst.
    apply IH; [|exact Hrest]. unfold PTSRA.ewmaAlpha. lra.
Qed.

Lemma ewma_snoc older x d :
  older <> [] ->
  PTSRA.calculateEWMA (older ++ [x]) d
  = 3 / 10 * x + 7 / 10 * PTSRA.calculateEWMA older d.
Proof.
  intros Hne. destruct older as [|h0 rest]; [contradiction|].
  cbn [app PTSRA.calculateEWMA]. rewrite fold_left_app. cbn [fold_left].
  unfold PTSRA.ewmaAlpha. lra.
Qed.

(** X20: [calculateEWMA] is the exponentially weighted moving average with the
    weight 0.3 on the newest sample: the default value on an empty
    history, the sample on a history of one, and on a longer history
    [0.3 * newest + 0.7 * average of the older samples].  It stays within
    any interval that holds the history and the default value. *)
Theorem ewma_weighs_newest lo hi history defaultValue :
  Forall (fun x => lo <= x <= hi) history -> lo <= defaultValue <= hi ->
  lo <= PTSRA.calculateEWMA history defaultValue <= hi
  /\ PTSRA.calculateEWMA [] defaultValue = defaultValue
  /\ (forall x, PTSRA.calculateEWMA [x] defaultValue = x)
  /\ (forall older x,
        older <> [] ->
        PTSRA.calculateEWMA (older ++ [x]) defaultValue
        = 3 / 10 * x + 7 / 10 * PTSRA.calculateEWMA older defaultValue).
Proof.
  intros Hh Hd.
  split.
  { unfold PTSRA.calculateEWMA.
    destruct history as [|h0 rest]; [exact Hd|].
    inversion Hh as [|? ? H0 Hrest]; subst.
    apply ewma_fold_range; assumption. }
  split; [reflexivity|]. split; [reflexivity|].
  intros older x Hne. apply ewma_snoc. exact Hne.
Qed.

Lemma ewma_weighs_newest_witness :
  2 <= PTSRA.calculateEWMA [2; 3; 2] 2 <= 3
  /\ PTSRA.calculateEWMA ([2; 3] ++ [2]) 2
     = 3 / 10 * 2 + 7 / 10 * PTSRA.calculateEWMA [2; 3] 2.
Proof.
  pose proof (ewma_weighs_newest 2 3 [2; 3; 2] 2) as H.
  destruct H as (H1 & _ & _ & H4).
  - repeat constructor; lra.
  - lra.
  - split; [exact H1|]. apply H4. discriminate.
Defined.

(** *** [predictFuture] *)

Lemma predictLoop_shape ea eh ec noise n : forall h,
  noise_ok noise ->
  let p := PTSRA.predictLoop n h ea eh ec noise in
  List.length (PTSRA.arrivals p) = n
  /\ List.length (PTSRA.harvests p) = n
  /\ List.length (PTSRA.channelGains p) = n
  /\ Forall (scaled_by ea (9 / 10) (11 / 10)) (PTSRA.arrivals p)
  /\ Forall (scaled_by eh (8 / 10) (12 / 10)) (PTSRA.harvests p)
  /\ Forall (scaled_by ec (85 / 100) (115 / 100)) (PTSRA.channelGains p).
Proof.
  induction n as [|n IH]; intros h Hn; cbn zeta; cbn [PTSRA.predictLoop].
  - cbn. repeat split; constructor.
  - specialize (IH (S h) Hn). cbn zeta in IH.
    pose proof (Hn h) as Hh.
    destruct (noise h) as [[r1 r2] r3].
    destruct Hh as (H1 & H2 & H3).
    destruct IH as (L1 & L2 & L3 & F1 & F2 & F3).
    cbn [PTSRA.arrivals PTSRA.harvests PTSRA.channelGains List.length].
    repeat split; try (f_equal; assumption);
      constructor; try assumption; eexists; (split; [|reflexivity]); lra.
Qed.

(** X21: [predictFuture] returns [horizon] predictions of each kind, each one
    the EWMA of its history scaled by a factor drawn near 1: within 10% for
    arrivals, 20% for harvests and 15% for channel gains. *)
Theorem predictions_scale_the_ewma m sensor horizon noise :
  noise_ok noise ->
  let p := PTSRA.predictFuture m sensor horizon noise in
  List.length (PTSRA.arrivals p) = horizon
  /\ List.length (PTSRA.harvests p) = horizon
  /\ List.length (PTSRA.channelGains p) = horizon
  /\ Forall (scaled_by
               (PTSRA.calculateEWMA
                  (PTSRA.historyOf (PTSRA.arrivalHistory m) (id sensor))
                  (J_mean_bits_per_slot sensor))
               (9 / 10) (11 / 10))
       (PTSRA.arrivals p)
  /\ Forall (scaled_by
               (PTSRA.calculateEWMA
                  (PTSRA.historyOf (PTSRA.harvestHistory m) (id sensor))
                  (harvest_mean_J_per_slot sensor))
               (8 / 10) (12 / 10))
       (PTSRA.harvests p)
  /\ Forall (scaled_by
               (PTSRA.calculateEWMA
                  (PTSRA.historyOf (PTSRA.channelHistory m) (id sensor))
                  (channel_mean_gain sensor))
               (85 / 100) (115 / 100))
       (PTSRA.channelGains p).
Proof.
  intros Hn. unfold PTSRA.predictFuture.
  exact (predictLoop_shape _ _ _ noise horizon 0%nat Hn).
Qed.

Lemma quiet_noise_ok : noise_ok (fun _ => (0, 0, 0)).
Proof. intros h. cbn. lra. Qed.

Lemma predictions_scale_the_ewma_witness :
  noise_ok (fun _ => (0, 0, 0))
  /\ List.length
       (PTSRA.arrivals
          (PTSRA.predictFuture (PTSRA.initialMem 42) unitSensor 5
             (fun _ => (0, 0, 0)))) = 5%nat.
Proof.
  split; [exact quiet_noise_ok|].
  exact (proj1 (predictions_scale_the_ewma (PTSRA.initialMem 42) unitSensor 5
                  (fun _ => (0, 0, 0)) quiet_noise_ok)).
Defined.

Lemma pushWindow_nonempty h x : PTSRA.pushWindow h x <> [].
Proof.
  unfold PTSRA.pushWindow.
  destruct (Nat.ltb_spec 50 (List.length (h ++ [x]))) as [Hl|Hs].
  - destruct (h ++ [x]) as [|y [|z t]] eqn:E; cbn in Hl; try lia.
    cbn. discriminate.
  - destruct h; discriminate.
Qed.

Lemma ewma_ignores_default history d d' :
  history <> [] ->
  PTSRA.calculateEWMA history d = PTSRA.calculateEWMA history d'.
Proof. destruct history; [contradiction | reflexivity]. Qed.

(** X22: In the sensor loop of [executeSlotPredictive] the events of the slot
    are recorded before the prediction is made, so no history is empty
    when it is read: the prediction never uses the means of the
    configuration ([J_mean_bits_per_slot], [harvest_mean_J_per_slot],
    [channel_mean_gain]), which may be changed at will. *)
Theorem prediction_ignores_configured_means m sensor sensor' ev horizon noise :
  id sensor' = id sensor ->
  let m1 := PTSRA.updateHistory m (id sensor) (ev_arrival ev) (ev_harvest ev)
              (ev_channelGain ev) in
  PTSRA.predictFuture m1 sensor horizon noise
  = PTSRA.predictFuture m1 sensor' horizon noise.
Proof.
  intros Hid. cbn zeta. unfold PTSRA.predictFuture, PTSRA.updateHistory.
  cbn [PTSRA.arrivalHistory PTSRA.harvestHistory PTSRA.channelHistory].
  rewrite Hid, !historyOf_set_same.
  f_equal; apply ewma_ignores_default, pushWindow_nonempty.
Qed.

Lemma prediction_ignores_configured_means_witness :
  PTSRA.predictFuture
    (PTSRA.updateHistory (PTSRA.initialMem 42) (id unitSensor) 5 0 1)
    unitSensor 3 (fun _ => (0, 0, 0))
  = PTSRA.predictFuture
      (PTSRA.updateHistory (PTSRA.initialMem 42) (id unitSensor) 5 0 1)
      weightedSensorTwin 3 (fun _ => (0, 0, 0)).
Proof.
  exact (prediction_ignores_configured_means (PTSRA.initialMem 42) unitSensor
           weightedSensorTwin
           {| ev_arrival := 5; ev_harvest := 0; ev_channelGain := 1 |}
           3 (fun _ => (0, 0, 0)) eq_refl).
Defined.

(** *** The action chosen by the optimizer *)

(** X23: With a population of two or more, [optimizeAlpha] returns an action
    within the limits of the sensor: an offload fraction in [0, 1], a CPU
    frequency between 10% of [f_max] and [f_max] (so the Predictive policy
    never idles the CPU) and a power between 0 and [p_max]; it logs
    [ceil(generations / 2)] entries, numbered from 0. *)
Theorem optimizer_action_in_range this sensor state predictions slot st :
  constructed (PTSRA.optimizer this) ->
  (2 <= GeneticOptimizer.populationSize (PTSRA.optimizer this))%nat ->
  0 <= f_max_Hz sensor -> 0 <= p_max_W sensor ->
  exists logs a f p st',
    PTSRA.optimizeAlpha this sensor state predictions slot st
    = (logs, Some (a, f, p, st'))
    /\ 0 <= a <= 1
    /\ f_max_Hz sensor / 10 <= f <= f_max_Hz sensor
    /\ 0 <= p <= p_max_W sensor
    /\ map log_generation logs
       = seq 0 (halfGenerations (PTSRA.optimizer this)).
Proof.
  intros Hc HP Hf Hp. unfold PTSRA.optimizeAlpha.
  match goal with
  | |- context [GeneticOptimizer.optimize ?o ?ff 3 PTSRA.bounds st] =>
      destruct (OptimizerRunFacts.optimize_run o PTSRA.bounds ff Hc
                  PolicyFacts.action_bounds_ordered st HP)
        as (recs & result & st' & E & _ & Hgen & _ & _ & Hok & _)
  end.
  change (List.length PTSRA.bounds) with 3%nat in E. rewrite E.
  destruct (PolicyFacts.in_bounds_genes _ Hok) as (Ha & Hfn & Hpn).
  eexists. eexists. eexists. eexists. eexists.
  split; [reflexivity|].
  split; [exact Ha|]. split; [nra|]. split; [nra|].
  rewrite map_map. cbn [log_generation]. exact Hgen.
Qed.

Lemma optimizer_action_in_range_witness :
  exists logs a f p st',
    PTSRA.optimizeAlpha smallPredictive unitSensor drainedState
      quietPrediction 7 (SeededRandom.make 42)
    = (logs, Some (a, f, p, st'))
    /\ 0 <= a <= 1
    /\ f_max_Hz unitSensor / 10 <= f <= f_max_Hz unitSensor
    /\ 0 <= p <= p_max_W unitSensor
    /\ map log_generation logs
       = seq 0 (halfGenerations (PTSRA.optimizer smallPredictive)).
Proof.
  apply (optimizer_action_in_range smallPredictive unitSensor drainedState
           quietPrediction 7 (SeededRandom.make 42)).
  - apply PolicyFacts.make_constructed.
  - cbn. lia.
  - cbn. lra.
  - cbn. lra.
Defined.

(** *** The penalties of [fitnessFunction] *)

Lemma rolloutNoBatteryTest_cost n : forall h alpha f_u p_u sensor predictions
    V tau bandwidth globalParams simState totalCost,
  f_u <= f_max_Hz sensor -> p_u <= p_max_W sensor ->
  rolloutNoBatteryTest n h alpha f_u p_u sensor predictions V tau bandwidth
                       globalParams simState totalCost
  = rolloutCost n h alpha f_u p_u sensor predictions V tau bandwidth
                globalParams simState totalCost.
Proof.
  induction n as [|n IH]; intros h alpha f_u p_u sensor predictions V tau
    bandwidth globalParams simState totalCost Hf Hp;
    cbn [rolloutNoBatteryTest rolloutCost]; [reflexivity|].
  cbv zeta.
  destruct (Rgt_dec f_u (f_max_Hz sensor)) as [Hc|_]; [lra|].
  destruct (Rgt_dec p_u (p_max_W sensor)) as [Hc|_]; [lra|].
  apply IH; assumption.
Qed.

(** X24: On the candidates the optimizer evaluates (genes within the bounds of
    [optimizeAlpha]) and with predicted harvests that are not negative,
    none of the three penalties of [fitnessFunction] is ever added: the
    fitness is the discounted sum of the slot costs. *)
Theorem fitness_is_discounted_cost this individual sensor state predictions
    V tau bandwidth globalParams :
  in_bounds individual PTSRA.bounds ->
  0 <= f_max_Hz sensor -> 0 <= p_max_W sensor ->
  (forall k, 0 <= nth k (PTSRA.harvests predictions) 0) ->
  PTSRA.fitnessFunction this individual sensor state predictions V tau
    bandwidth globalParams
  = rolloutCost
      (Nat.min (PTSRA.horizon this) (List.length (PTSRA.arrivals predictions)))
      0 (nth 0 individual 0) (nth 1 individual 0 * f_max_Hz sensor)
      (nth 2 individual 0 * p_max_W sensor) sensor predictions V tau
      bandwidth globalParams state 0.
Proof.
  intros Hb Hf Hp Hh. unfold PTSRA.fitnessFunction.
  destruct (PolicyFacts.in_bounds_genes _ Hb) as (_ & Hfn & Hpn).
  rewrite FitnessFacts.rollout_battery_test_dead by exact Hh.
  apply rolloutNoBatteryTest_cost; nra.
Qed.

Lemma fitness_is_discounted_cost_witness :
  PTSRA.fitnessFunction smallPredictive [0; 1; 0] unitSensor drainedState
    quietPrediction 1 1 1 (TSRA.globalParams unitPolicy)
  = rolloutCost 1 0 0 (1 * 1) (0 * 0) unitSensor quietPrediction 1 1 1
      (TSRA.globalParams unitPolicy) drainedState 0.
Proof.
  apply (fitness_is_discounted_cost smallPredictive [0; 1; 0] unitSensor
           drainedState quietPrediction 1 1 1 (TSRA.globalParams unitPolicy)).
  - unfold in_bounds, PTSRA.bounds. repeat constructor; cbn; lra.
  - cbn. lra.
  - cbn. lra.
  - intros [|[|k]]; cbn; lra.
Defined.

End PredictiveFacts.

(* ================================================================== *)
(** ** The driver: complete runs, failed runs, metrics *)
(* ================================================================== *)

Module RunFacts.

Lemma pushOutput_sensorResults o rest :
  sensorResults (TSRA.pushOutput o rest) = snd o :: sensorResults rest.
Proof. destruct o as [[d s] r]. reflexivity. Qed.

Lemma initial_states_length sensors :
  List.length (TSRA.initializeSensorStates sensors) = List.length sensors.
Proof. unfold TSRA.initializeSensorStates. apply length_map. Qed.

(** A Baseline slot with a state per sensor and an edge server returns. *)
Lemma baseline_slot_total a sensors states e env :
  List.length states = List.length sensors ->
  exists out,
    TSRA.executeSlot a sensors states (Some e) env = Some out
    /\ List.length (newStates out) = List.length sensors
    /\ map r_id (sensorResults out) = map id sensors
    /\ map sensor_id (edgeResult out) = map id sensors.
Proof.
  intros Hlen. unfold TSRA.executeSlot.
  pose proof (BaselineFacts.edgeServerAllocation_none sensors states) as Hn.
  destruct (TSRA.edgeServerAllocation sensors states) as [allocs|].
  2:{ pose proof (proj1 Hn eq_refl). lia. }
  destruct sensors as [|s ss].
  - eexists. split; [reflexivity|]. cbn. repeat split.
  - pose proof (BaselineFacts.slotLoop_shape a allocs e env (s :: ss) states 0%nat)
      as Hs.
    destruct (TSRA.slotLoop a (s :: ss) states env 0 allocs e) as [o|].
    + destruct Hs as (_ & _ & H3 & H4).
      eexists. split; [reflexivity|].
      cbn [newStates sensorResults edgeResult].
      repeat split; try assumption.
      exact (BaselineFacts.edgeResultOf_ids a (s :: ss) allocs e).
    + lia.
Qed.

Section PredictiveShape.
Variable this : PTSRA.t.
Hypothesis optimizer_constructed : constructed (PTSRA.optimizer this).
Hypothesis population_two :
  (2 <= GeneticOptimizer.populationSize (PTSRA.optimizer this))%nat.

Lemma predictive_slotLoop_shape env noise slot allocs es sensors :
  forall states i m out m',
    snd (PTSRA.slotLoop this sensors states env noise i slot allocs es m)
    = Some (out, m') ->
    List.length (newStates out) = List.length sensors
    /\ map r_id (sensorResults out) = map id sensors.
Proof.
  induction sensors as [|s ss IH]; intros states i m out m' El.
  - cbn in El. injection El as <- <-. cbn. split; reflexivity.
  - destruct states as [|st sts]; [discriminate|].
    rewrite PolicyFacts.predictive_slotLoop_step in El. cbv zeta in El.
    match type of El with
    | context [PTSRA.choose this ?m1 s st ?ev ?pr slot] =>
        destruct (snd (PTSRA.choose this m1 s st ev pr slot))
          as [[[[a f] p] st']|]
    end; [|discriminate].
    destruct es as [e|]; [|discriminate].
    cbn [snd] in El.
    match type of El with
    | context [PTSRA.slotLoop this ss sts env noise (S i) slot allocs _ ?m2] =>
        specialize (IH sts (S i) m2);
        destruct (snd (PTSRA.slotLoop this ss sts env noise (S i) slot allocs
                         (Some e) m2)) as [[rest m3]|]
    end; [|discriminate].
    destruct (IH rest m3 eq_refl) as [H1 H2].
    assert (Ho : out = TSRA.pushOutput
                         (PTSRA.commit this s st (env i) a f p allocs e) rest)
      by congruence.
    subst out.
    rewrite PolicyFacts.pushOutput_newStates, pushOutput_sensorResults.
    cbn [List.length map]. rewrite H1, H2. split; reflexivity.
Qed.

(** The choice for one sensor issues [logsPerSensor] log entries. *)
Lemma choose_logs m sensor state ev predictions slot :
  List.length (fst (PTSRA.choose this m sensor state ev predictions slot))
  = logsPerSensor this.
Proof.
  unfold PTSRA.choose, logsPerSensor.
  destruct (Nat.ltb 0 (PTSRA.horizon this)); [|reflexivity].
  unfold PTSRA.optimizeAlpha.
  match goal with
  | |- context [GeneticOptimizer.optimize ?o ?ff 3 PTSRA.bounds ?st] =>
      destruct (OptimizerRunFacts.optimize_run o PTSRA.bounds ff
                  optimizer_constructed PolicyFacts.action_bounds_ordered st
                  population_two)
        as (recs & result & st' & E & Hl & _)
  end.
  change (List.length PTSRA.bounds) with 3%nat in E. rewrite E.
  cbn [fst]. rewrite length_map. exact Hl.
Qed.

Lemma predictive_slotLoop_logs env noise slot allocs e sensors :
  forall states i m,
    List.length states = List.length sensors ->
    List.length
      (fst (PTSRA.slotLoop this sensors states env noise i slot allocs
              (Some e) m))
    = (List.length sensors * logsPerSensor this)%nat.
Proof.
  induction sensors as [|s ss IH]; intros states i m Hlen.
  - reflexivity.
  - destruct states as [|st sts]; [discriminate|].
    rewrite PolicyFacts.predictive_slotLoop_step. cbv zeta.
    match goal with
    | |- context [PTSRA.choose this ?m1 s st ?ev ?pr slot] =>
        pose proof (choose_logs m1 s st ev pr slot) as Hc;
        destruct (PolicyFacts.choose_total this optimizer_constructed
                    m1 s st ev pr slot population_two)
          as (a & f & p & st' & Ec)
    end.
    rewrite Ec. cbn [fst]. rewrite length_app, Hc.
    rewrite IH by (cbn in Hlen; lia). cbn [List.length]. lia.
Qed.

(** A Predictive slot with a state per sensor, an edge server and a
    population of two or more returns. *)
Lemma predictive_slot_total sensors states e slot env noise m :
  List.length states = List.length sensors ->
  exists logs out m',
    PTSRA.executeSlotPredictive this sensors states (Some e) slot env noise m
    = (logs, Some (out, m'))
    /\ List.length logs = (List.length sensors * logsPerSensor this)%nat
    /\ List.length (newStates out) = List.length sensors
    /\ map r_id (sensorResults out) = map id sensors
    /\ map sensor_id (edgeResult out) = map id sensors.
Proof.
  intros Hlen. unfold PTSRA.executeSlotPredictive.
  pose proof (BaselineFacts.edgeServerAllocation_none sensors states) as Hn.
  destruct (TSRA.edgeServerAllocation sensors states) as [allocs|].
  2:{ pose proof (proj1 Hn eq_refl). lia. }
  destruct (PolicyFacts.predictive_slotLoop_total this optimizer_constructed
              env noise slot allocs e sensors population_two states 0%nat m Hlen)
    as (out & m' & El).
  pose proof (predictive_slotLoop_shape env noise slot allocs (Some e) sensors
                states 0%nat m out m' El) as [H1 H2].
  pose proof (predictive_slotLoop_logs env noise slot allocs e sensors
                states 0%nat m Hlen) as Hlogs.
  destruct (PTSRA.slotLoop this sensors states env noise 0 slot allocs
              (Some e) m) as [logs r].
  cbn [fst snd] in El, Hlogs. subst r.
  destruct sensors as [|s ss].
  - eexists. eexists. eexists. split; [reflexivity|].
    split; [exact Hlogs|]. cbn. repeat split.
  - eexists. eexists. eexists. split; [reflexivity|].
    split; [exact Hlogs|].
    cbn [newStates sensorResults edgeResult].
    repeat split; try assumption.
    exact (BaselineFacts.edgeResultOf_ids (PTSRA.base this) (s :: ss) allocs e).
Qed.

End PredictiveShape.

Section CompleteRun.
Variable config : ExperimentConfig.
Variable env : Simulator.Environment.
Variable e : EdgeServerConfig.
Hypothesis edge_present : Simulator.edgeServer config = Some e.
Hypothesis population_two : (2 <= population (optimizer config))%nat.

(** What holds of the run when slot [k] is about to start. *)
Local Abbreviation at_slot k run :=
  (status (Simulator.state run) = running
   /\ total_slots (Simulator.state run) = slots config
   /\ List.length (Simulator.tsraStates run) = List.length (sensors config)
   /\ List.length (Simulator.ptsraStates run) = List.length (sensors config)
   /\ map slot (tsra_results (Simulator.state run)) = seq 0 k
   /\ map slot (ptsra_results (Simulator.state run)) = seq 0 k
   /\ Forall (records_sensors config TSRA_tag)
        (tsra_results (Simulator.state run))
   /\ Forall (records_sensors config PTSRA_tag)
        (ptsra_results (Simulator.state run))
   /\ List.length (optimizer_log (Simulator.state run))
      = (k * (List.length (sensors config)
              * logsPerSensor (Simulator.ptsra config)))%nat).

Lemma slotBody_runs k run :
  at_slot k run ->
  at_slot (S k) (Simulator.slotBody config env k run)
  /\ current_slot (Simulator.state (Simulator.slotBody config env k run)) = k.
Proof.
  intros (Hst & Htot & Hl1 & Hl2 & Hs1 & Hs2 & Hr1 & Hr2 & Hlog).
  unfold Simulator.slotBody. rewrite edge_present.
  destruct (baseline_slot_total (Simulator.tsra config) (sensors config)
              (Simulator.tsraStates run) e (Simulator.tsraEvents env k) Hl1)
    as (tout & Et & Ht1 & Ht2 & Ht3).
  rewrite Et.
  destruct (predictive_slot_total (Simulator.ptsra config)
              (PolicyFacts.make_constructed _ _ _) population_two
              (sensors config) (Simulator.ptsraStates run) e k
              (Simulator.ptsraEvents env k) (Simulator.noise env k)
              (Simulator.ptsraMem run) Hl2)
    as (logs & pout & m' & Ep & Hlogs & Hp1 & Hp2 & Hp3).
  rewrite Ep.
  cbn [Simulator.state Simulator.tsraStates Simulator.ptsraStates status
       total_slots tsra_results ptsra_results current_slot optimizer_log].
  rewrite !map_app, Hs1, Hs2. cbn [map slot Simulator.slotResultOf].
  rewrite seq_S. cbn [Nat.add].
  rewrite length_app, Hlog, Hlogs.
  repeat split; try assumption; try reflexivity; try lia.
  - apply Forall_app. split; [exact Hr1|].
    constructor; [|constructor].
    unfold records_sensors, Simulator.slotResultOf. cbn.
    repeat split; assumption.
  - apply Forall_app. split; [exact Hr2|].
    constructor; [|constructor].
    unfold records_sensors, Simulator.slotResultOf. cbn.
    repeat split; assumption.
Qed.

Lemma slotLoop_runs n : forall k run,
  at_slot k run ->
  at_slot (k + n) (Simulator.slotLoop config env n k run)
  /\ ((0 < n)%nat ->
      current_slot (Simulator.state (Simulator.slotLoop config env n k run))
      = (k + n - 1)%nat).
Proof.
  induction n as [|n IH]; intros k run Hat.
  - cbn [Simulator.slotLoop]. rewrite Nat.add_0_r. split; [exact Hat | lia].
  - cbn [Simulator.slotLoop].
    destruct (slotBody_runs k run Hat) as [Hb Hc].
    destruct Hb as (Hst & Hrest). rewrite Hst.
    destruct (IH (S k) _ (conj Hst Hrest)) as [Hat' Hcur].
    replace (k + S n)%nat with (S k + n)%nat by lia.
    split; [exact Hat'|]. intros _.
    destruct n as [|n'].
    + cbn [Simulator.slotLoop]. rewrite Hc. lia.
    + rewrite Hcur by lia. lia.
Qed.

End CompleteRun.

(** X25: With an edge server and a population of two or more, [runSimulation]
    runs all its slots and ends with status [completed]: each policy has
    one result per slot, numbered from 0, each with one record and one
    edge allocation per sensor in the order of the configuration. *)
Theorem simulation_completes config env :
  edge_servers config <> [] ->
  (2 <= population (optimizer config))%nat ->
  let s := Simulator.runSimulation config env in
  status s = completed
  /\ total_slots s = slots config
  /\ map slot (tsra_results s) = seq 0 (slots config)
  /\ map slot (ptsra_results s) = seq 0 (slots config)
  /\ Forall (records_sensors config TSRA_tag) (tsra_results s)
  /\ Forall (records_sensors config PTSRA_tag) (ptsra_results s)
  /\ ((0 < slots config)%nat -> current_slot s = (slots config - 1)%nat).
Proof.
  intros He HP. cbn zeta.
  assert (Hedge : exists e, Simulator.edgeServer config = Some e).
  { unfold Simulator.edgeServer. destruct (edge_servers config) as [|e es];
      [contradiction | exists e; reflexivity]. }
  destruct Hedge as [e Hedge].
  unfold Simulator.runSimulation.
  destruct (slotLoop_runs config env e Hedge HP (slots config) 0
              (Simulator.initialRun config)) as [Hat Hcur].
  { cbn. rewrite initial_states_length. repeat split; constructor. }
  cbn [Nat.add] in Hat, Hcur.
  destruct Hat as (Hst & Htot & _ & _ & Hs1 & Hs2 & Hr1 & Hr2 & _).
  unfold Simulator.finish. rewrite Hst.
  cbn [status total_slots tsra_results ptsra_results current_slot].
  repeat split; try assumption.
Qed.

Lemma simulation_completes_witness :
  let s := Simulator.runSimulation oneSensorConfig quietEnvironment in
  status s = completed
  /\ map slot (tsra_results s) = [0%nat; 1%nat; 2%nat].
Proof.
  pose proof (simulation_completes oneSensorConfig quietEnvironment
                ltac:(discriminate) (le_n 2)) as H.
  cbn zeta in *. destruct H as (H1 & _ & H3 & _). split; assumption.
Defined.

(** X26: The optimizer log of a complete run: with a horizon above 0 the
    Predictive policy logs [ceil(generations / 2)] entries per sensor and
    per slot, so the log holds [slots * sensors * ceil(generations / 2)]
    entries when the run returns; with horizon 0 it stays empty. *)
Theorem optimizer_log_volume config env :
  edge_servers config <> [] ->
  (2 <= population (optimizer config))%nat ->
  List.length (optimizer_log (Simulator.runSimulation config env))
  = (slots config
     * (List.length (sensors config)
        * (if Nat.ltb 0 (prediction_horizon config)
           then (generations (optimizer config) + 1) / 2 else 0)))%nat.
Proof.
  intros He HP.
  assert (Hedge : exists e, Simulator.edgeServer config = Some e).
  { unfold Simulator.edgeServer. destruct (edge_servers config) as [|e es];
      [contradiction | exists e; reflexivity]. }
  destruct Hedge as [e Hedge].
  unfold Simulator.runSimulation.
  destruct (slotLoop_runs config env e Hedge HP (slots config) 0
              (Simulator.initialRun config)) as [Hat _].
  { cbn. rewrite initial_states_length. repeat split; constructor. }
  cbn [Nat.add] in Hat.
  destruct Hat as (Hst & _ & _ & _ & _ & _ & _ & _ & Hlog).
  unfold Simulator.finish. rewrite Hst. cbn [optimizer_log].
  exact Hlog.
Qed.

Lemma optimizer_log_volume_witness :
  List.length
    (optimizer_log (Simulator.runSimulation oneSensorConfig quietEnvironment))
  = 0%nat.
Proof.
  exact (optimizer_log_volume oneSensorConfig quietEnvironment
           ltac:(discriminate) (le_n 2)).
Defined.

(** X27: With sensors and no edge server, [runSimulation] fails in its first
    slot: the Baseline throws before anything is recorded, and the state
    returned has status [error] at slot 0 with no result and no log. *)
Theorem missing_edge_server_fails config env :
  sensors config <> [] -> edge_servers config = [] ->
  (0 < slots config)%nat ->
  let s := Simulator.runSimulation config env in
  status s = error /\ current_slot s = 0%nat
  /\ tsra_results s = [] /\ ptsra_results s = [] /\ optimizer_log s = [].
Proof.
  intros Hs He Hn. cbn zeta. unfold Simulator.runSimulation.
  destruct (slots config) as [|n]; [lia|].
  cbn [Simulator.slotLoop]. unfold Simulator.slotBody, Simulator.edgeServer.
  rewrite He. cbn [hd_error].
  assert (Ex : TSRA.executeSlot (Simulator.tsra config) (sensors config)
                 (Simulator.tsraStates (Simulator.initialRun config)) None
                 (Simulator.tsraEvents env 0) = None).
  { unfold TSRA.executeSlot.
    destruct (TSRA.edgeServerAllocation _ _); [|reflexivity].
    destruct (sensors config); [contradiction | reflexivity]. }
  rewrite Ex. cbn. repeat split.
Qed.

Lemma missing_edge_server_fails_witness :
  status (Simulator.runSimulation noEdgeConfig quietEnvironment) = error.
Proof.
  exact (proj1 (missing_edge_server_fails noEdgeConfig quietEnvironment
                  ltac:(discriminate) eq_refl (le_S _ _ (le_S _ _ (le_n 1))))).
Defined.

(** X28: With an optimizer of one individual and three generations or more, a
    horizon above 0, sensors and an edge server, [runSimulation] fails in
    its first slot after the Baseline has run: the optimizer throws for the
    first sensor, once it has logged one generation.  The state returned
    has status [error] with one Baseline result, no Predictive result and
    one log entry. *)
Theorem lone_population_fails_run config env :
  sensors config <> [] -> edge_servers config <> [] ->
  population (optimizer config) = 1%nat ->
  (3 <= generations (optimizer config))%nat ->
  (0 < prediction_horizon config)%nat -> (0 < slots config)%nat ->
  let s := Simulator.runSimulation config env in
  status s = error /\ current_slot s = 0%nat
  /\ map slot (tsra_results s) = [0%nat] /\ ptsra_results s = []
  /\ map log_generation (optimizer_log s) = [0%nat].
Proof.
  intros Hs He HP HG Hh Hn. cbn zeta. unfold Simulator.runSimulation.
  destruct (slots config) as [|n]; [lia|].
  cbn [Simulator.slotLoop]. unfold Simulator.slotBody.
  assert (Hedge : exists e, Simulator.edgeServer config = Some e).
  { unfold Simulator.edgeServer. destruct (edge_servers config) as [|e es];
      [contradiction | exists e; reflexivity]. }
  destruct Hedge as [e Hedge]. rewrite Hedge.
  destruct (baseline_slot_total (Simulator.tsra config) (sensors config)
              (Simulator.tsraStates (Simulator.initialRun config)) e
              (Simulator.tsraEvents env 0)
              (initial_states_length (sensors config)))
    as (tout & Et & _).
  rewrite Et.
  assert (Ep : exists entry,
             PTSRA.executeSlotPredictive (Simulator.ptsra config)
               (sensors config)
               (Simulator.ptsraStates (Simulator.initialRun config)) (Some e) 0
               (Simulator.ptsraEvents env 0) (Simulator.noise env 0)
               (Simulator.ptsraMem (Simulator.initialRun config))
             = ([entry], None)
             /\ log_generation entry = 0%nat).
  { unfold PTSRA.executeSlotPredictive.
    pose proof (BaselineFacts.edgeServerAllocation_none (sensors config)
                  (Simulator.ptsraStates (Simulator.initialRun config))) as Hnone.
    destruct (TSRA.edgeServerAllocation (sensors config)
                (Simulator.ptsraStates (Simulator.initialRun config)))
      as [allocs|].
    2:{ pose proof (proj1 Hnone eq_refl) as Hc.
        cbn [Simulator.ptsraStates Simulator.initialRun] in Hc.
        rewrite initial_states_length in Hc. lia. }
    cbn [Simulator.ptsraStates Simulator.initialRun].
    destruct (sensors config) as [|s ss]; [contradiction|].
    cbn [TSRA.initializeSensorStates map PTSRA.slotLoop]. cbv zeta.
    unfold PTSRA.choose.
    destruct (Nat.ltb_spec 0 (PTSRA.horizon (Simulator.ptsra config)))
      as [_|Hc]; [|cbn in Hc; lia].
    unfold PTSRA.optimizeAlpha.
    match goal with
    | |- context [GeneticOptimizer.optimize ?o ?ff 3 PTSRA.bounds ?st] =>
        destruct (OptimizerRunFacts.lone_population_throws o PTSRA.bounds ff st
                    (PolicyFacts.make_constructed _ _ _)
                    PolicyFacts.action_bounds_ordered HP HG)
          as (rec & Eo & Hg)
    end.
    change (List.length PTSRA.bounds) with 3%nat in Eo. rewrite Eo.
    cbn [map]. eexists. split; [reflexivity|]. cbn [log_generation]. exact Hg. }
  destruct Ep as (entry & Ep & Hentry). rewrite Ep.
  cbn [Simulator.state status]. unfold Simulator.finish.
  cbn [Simulator.state status current_slot tsra_results ptsra_results
       optimizer_log Simulator.initialRun app map slot
       Simulator.slotResultOf].
  rewrite Hentry. repeat split.
Qed.

Lemma lone_population_fails_run_witness :
  status (Simulator.runSimulation lonePopulationConfig quietEnvironment)
  = error.
Proof.
  exact (proj1 (lone_population_fails_run lonePopulationConfig quietEnvironment
                  ltac:(discriminate) ltac:(discriminate) eq_refl (le_n 3)
                  (le_n 1) (le_S _ _ (le_S _ _ (le_n 1))))).
Defined.

(** *** [calculateGlobalMetrics] *)

(** X29: The totals of [calculateGlobalMetrics] are the sums over the records,
    [best_fitness] is [-E - 0.01 * backlog], and the edge result is never
    read; on records that are not negative the totals are not negative and
    [best_fitness] is never positive. *)
Theorem metrics_are_totals results edge :
  let g := Simulator.calculateGlobalMetrics results edge in
  total_backlog_bits g
  = Rsum (map (fun s => r_H_l s + r_H_o s + r_H_k s) results)
  /\ total_energy_J g
     = Rsum (map (fun s => local_energy_J s + tx_energy_J s) results)
  /\ best_fitness g = - total_energy_J g - total_backlog_bits g / 100
  /\ g = Simulator.calculateGlobalMetrics results []
  /\ (Forall nonneg_record results ->
      0 <= total_backlog_bits g /\ 0 <= total_energy_J g
      /\ best_fitness g <= 0).
Proof.
  cbn zeta. unfold Simulator.calculateGlobalMetrics.
  rewrite SimulatorFacts.accumulate_sums.
  cbn [total_backlog_bits total_energy_J best_fitness].
  rewrite !Rplus_0_l.
  split; [reflexivity|]. split; [reflexivity|]. split; [lra|].
  split; [reflexivity|].
  intros Hn.
  assert (Hb : 0 <= Rsum (map (fun s => r_H_l s + r_H_o s + r_H_k s) results)).
  { apply EdgeFacts.Rsum_nonneg. apply Forall_map.
    eapply Forall_impl; [|exact Hn]. intros s (H1 & H2 & H3 & _). lra. }
  assert (He : 0 <= Rsum (map (fun s => local_energy_J s + tx_energy_J s)
                            results)).
  { apply EdgeFacts.Rsum_nonneg. apply Forall_map.
    eapply Forall_impl; [|exact Hn]. intros s (_ & _ & _ & H4 & H5). lra. }
  repeat split; lra.
Qed.

End RunFacts.

(* ================================================================== *)
(** ** The edge allocation when sensors share an id *)
(* ================================================================== *)

Module SharedIdFacts.

Local Abbreviation pairWeight :=
  (fun p : SensorConfig * SensorState => (id (fst p), weightOf (fst p) (snd p))).

(** X30: The allocations are kept in a [Map] keyed by sensor id, so a sensor
    reads what was written last under its id: when several sensors share
    an id, each of them is given the share of the last one, whatever its
    own weight.  (With distinct ids this is the sensor's own share.) *)
Theorem shared_id_reads_last_share sensors states pre s st post :
  List.length states = List.length sensors ->
  combine sensors states = pre ++ (s, st) :: post ->
  ~ In (id s) (map (fun p => id (fst p)) post) ->
  exists allocs,
    TSRA.edgeServerAllocation sensors states = Some allocs
    /\ forall s', id s' = id s ->
         TSRA.allocationFor allocs (id s')
         = Rmin 1 (shareOf (totalWeightOf sensors states)
                     (List.length sensors) (weightOf s st)).
Proof.
  intros Hlen Hc Hpost. unfold TSRA.edgeServerAllocation.
  rewrite EdgeFacts.weightedBacklogs_combine by exact Hlen.
  eexists. split; [reflexivity|]. intros s' ->.
  unfold TSRA.allocationFor.
  rewrite EdgeFacts.totalWeight_sum, map_map. cbn [snd].
  fold (totalWeightOf sensors states).
  rewrite Hc, map_app. cbn [map]. rewrite fold_left_app. cbn [fold_left fst snd].
  rewrite (JsMapFacts.get_setAll_absent R R).
  - rewrite JsMapFacts.get_set_same. reflexivity.
  - rewrite map_map. cbn [fst]. exact Hpost.
Qed.

Lemma shared_id_reads_last_share_witness :
  exists allocs,
    TSRA.edgeServerAllocation [unitSensor; unitSensor]
      [drainedState; edgeBacklogState] = Some allocs
    /\ forall s', id s' = id unitSensor ->
         TSRA.allocationFor allocs (id s')
         = Rmin 1 (shareOf
                     (totalWeightOf [unitSensor; unitSensor]
                        [drainedState; edgeBacklogState])
                     2 (weightOf unitSensor edgeBacklogState)).
Proof.
  apply (shared_id_reads_last_share [unitSensor; unitSensor]
           [drainedState; edgeBacklogState] [(unitSensor, drainedState)]
           unitSensor edgeBacklogState []).
  - reflexivity.
  - reflexivity.
  - intros [].
Defined.

End SharedIdFacts.

(* ================================================================== *)
(** ** The state invariant without the ranges of the parameters *)
(* ================================================================== *)

Module InvariantLimits.
Import GeneticOptimizer.

(** Without a generation to run, the individual [optimize] returns is one
    of the initial population. *)
Lemma optimize_no_generation this fitnessFunc geneCount bounds st recs
    result st' :
  generations this = 0%nat ->
  optimize this fitnessFunc geneCount bounds st = (recs, Some (result, st')) ->
  exists fresh,
    initializePopulation this geneCount bounds st = Some (fresh, st')
    /\ In (genes (best result)) fresh.
Proof.
  intros Hg E. unfold optimize in E.
  destruct (initializePopulation this geneCount bounds st)
    as [[fresh st0]|]; [|discriminate].
  unfold evaluatePopulation in E.
  pose proof (OptimizerFacts.sortByFitness_Forall
                (fun ind => In (genes ind) fresh)
                (map (evaluate fitnessFunc) fresh)) as Hs.
  destruct (sortByFitness (map (evaluate fitnessFunc) fresh))
    as [|first rest]; [discriminate|].
  rewrite Hg in E. cbn [generationLoop] in E.
  assert (Hb : best result = first) by (injection E as _ <- _; reflexivity).
  assert (Hst : st' = st0) by congruence.
  subst st'. exists fresh. split; [reflexivity|]. rewrite Hb.
  assert (Hall : Forall (fun ind => In (genes ind) fresh)
                        (map (evaluate fitnessFunc) fresh)).
  { apply Forall_forall. intros ind Hin. apply in_map_iff in Hin.
    destruct Hin as (g & <- & Hg0). exact Hg0. }
  specialize (Hs Hall). inversion Hs; assumption.
Qed.

(** The initial population of the optimizer of [negativePowerConfig]: gene
    2 of both individuals is a draw above 0. *)
Lemma negative_power_population fresh st' :
  initializePopulation
    (PTSRA.optimizer (Simulator.ptsra negativePowerConfig)) 3 PTSRA.bounds
    (SeededRandom.make 43)
  = Some (fresh, st') ->
  Forall (fun g => 0 < nth 2 g 0 <= 1) fresh.
Proof.
  unfold initializePopulation.
  change (populationSize
            (PTSRA.optimizer (Simulator.ptsra negativePowerConfig)))
    with 2%nat.
  unfold PTSRA.bounds.
  cbn [populationLoop geneLoop nth_error]. unfold bind, draw, ret.
  repeat (rewrite !RandomFacts.uniform_bits; cbv beta iota).
  intros E.
  match type of E with
  | Some (?l, _) = _ => assert (Hf : fresh = l) by congruence
  end.
  subst fresh. clear E.
  replace (fst (SeededRandom.random_bits
                  (snd (SeededRandom.random_bits
                          (snd (SeededRandom.random_bits
                                  (SeededRandom.make 43)))))))
    with 2273823768%Z by (vm_compute; reflexivity).
  constructor; [cbn [nth]; lra|].
  constructor; [|constructor]. cbn [nth].
  match goal with
  | |- 0 < IZR ?z / _ * _ + _ <= 1 =>
      replace z with 3197245838%Z by (vm_compute; reflexivity)
  end.
  lra.
Qed.

Lemma slotLoop_one config env slot run :
  Simulator.slotLoop config env 1 slot run
  = Simulator.slotBody config env slot run.
Proof.
  cbn [Simulator.slotLoop].
  destruct (status (Simulator.state (Simulator.slotBody config env slot run)));
    reflexivity.
Qed.

(** A Predictive slot of one sensor with a horizon above 0: the new state
    is the one committed for the best individual of the optimizer. *)
Lemma predictive_one_sensor this s st e slot env noise m logs out m' :
  constructed (PTSRA.optimizer this) ->
  (0 < PTSRA.horizon this)%nat ->
  PTSRA.executeSlotPredictive this [s] [st] (Some e) slot env noise m
  = (logs, Some (out, m')) ->
  let ev := env 0%nat in
  let m1 := PTSRA.updateHistory m (id s) (ev_arrival ev) (ev_harvest ev)
                                (ev_channelGain ev) in
  exists allocs recs result st',
    TSRA.edgeServerAllocation [s] [st] = Some allocs
    /\ optimize (PTSRA.optimizer this)
         (fun individual =>
            PTSRA.fitnessFunction this individual s st
              (PTSRA.predictFuture m1 s (PTSRA.horizon this) (noise 0%nat))
              (TSRA.V (PTSRA.base this)) (TSRA.tau (PTSRA.base this))
              (TSRA.bandwidth (PTSRA.base this))
              (TSRA.globalParams (PTSRA.base this)))
         3 PTSRA.bounds (PTSRA.rng m)
       = (recs, Some (result, st'))
    /\ newStates out
       = [snd (fst (PTSRA.commit this s st ev
                      (nth 0 (genes (best result)) 0)
                      (nth 1 (genes (best result)) 0 * f_max_Hz s)
                      (nth 2 (genes (best result)) 0 * p_max_W s)
                      allocs e))].
Proof.
  intros Hc Hh E. cbv zeta.
  pose proof (f_equal snd E) as E2. cbn [snd] in E2.
  rewrite (PolicyFacts.executeSlotPredictive_unfold this) in E2.
  destruct (TSRA.edgeServerAllocation [s] [st]) as [allocs|];
    [|discriminate].
  rewrite PolicyFacts.predictive_slotLoop_step in E2. cbv zeta in E2.
  rewrite (PolicyFacts.choose_uses_optimizer this) in E2 by exact Hh.
  unfold PTSRA.optimizeAlpha in E2. cbn [PTSRA.rng PTSRA.updateHistory] in E2.
  match type of E2 with
  | context [optimize ?o ?ff 3 PTSRA.bounds ?st0] =>
      destruct (optimize o ff 3 PTSRA.bounds st0)
        as [recs [[result st1]|]] eqn:Eo
  end; cbn [fst snd PTSRA.slotLoop] in E2; [|discriminate].
  exists allocs, recs, result, st1.
  split; [reflexivity|].
  split; [reflexivity|].
  match type of E2 with
  | Some (?o, _) = _ => assert (Ho : out = o) by congruence
  end.
  subst out. cbn [newStates].
  rewrite PolicyFacts.pushOutput_newStates. reflexivity.
Qed.

(** C1 as stated fails.  [negativePowerConfig] has one idle sensor with
    empty queues, an empty battery and [p_max = -1/2]; every arrival and
    every harvest is 0 and the channel gain is 1.  In its only slot the
    optimizer of the Predictive policy chooses a power [p_u = gene * p_max]
    below 0 for a gene drawn above 0; the bits transmitted are then
    [W * log2(1 + p_u * g / sigma2) * tau < 0], and the edge queue of the
    sensor ends the slot below 0. *)
Lemma negative_power_breaks_invariant :
  ~ (forall config env,
       nonneg_inputs config env ->
       forall n,
         let run :=
           Simulator.slotLoop config env n 0 (Simulator.initialRun config) in
         Forall nonneg_state (Simulator.tsraStates run)
         /\ Forall nonneg_state (Simulator.ptsraStates run)).
Proof.
  intros H.
  assert (Hin : nonneg_inputs negativePowerConfig quietEnvironment).
  { split.
    - constructor; [cbn; lra | constructor].
    - intros slot i. cbn. lra. }
  specialize (H negativePowerConfig quietEnvironment Hin 1%nat).
  cbv zeta in H. destruct H as [_ H].
  rewrite slotLoop_one in H. unfold Simulator.slotBody in H.
  change (Simulator.edgeServer negativePowerConfig) with (Some unitEdge) in H.
  destruct (RunFacts.baseline_slot_total
              (Simulator.tsra negativePowerConfig)
              (sensors negativePowerConfig)
              (Simulator.tsraStates (Simulator.initialRun negativePowerConfig))
              unitEdge (Simulator.tsraEvents quietEnvironment 0) eq_refl)
    as (tout & Et & _).
  rewrite Et in H.
  assert (Hc : constructed (PTSRA.optimizer (Simulator.ptsra negativePowerConfig)))
    by apply PolicyFacts.make_constructed.
  destruct (RunFacts.predictive_slot_total
              (Simulator.ptsra negativePowerConfig) Hc (le_n 2)
              (sensors negativePowerConfig)
              (Simulator.ptsraStates (Simulator.initialRun negativePowerConfig))
              unitEdge 0%nat (Simulator.ptsraEvents quietEnvironment 0)
              (Simulator.noise quietEnvironment 0)
              (Simulator.ptsraMem (Simulator.initialRun negativePowerConfig))
              eq_refl)
    as (logs & pout & m' & Ep & _).
  rewrite Ep in H. cbn [Simulator.ptsraStates] in H.
  set (st0 := {| H_l := 0 / 2; H_o := 0 / 2; H_k := 0; B_u := 0 |}).
  change (sensors negativePowerConfig) with [negativePowerSensor] in Ep.
  change (Simulator.ptsraStates (Simulator.initialRun negativePowerConfig))
    with [st0] in Ep.
  destruct (predictive_one_sensor _ _ _ _ _ _ _ _ _ _ _ Hc (le_n 1) Ep)
    as (allocs & recs & result & st1 & Ea & Eo & Hn).
  rewrite Hn in H. apply Forall_inv in H.
  destruct H as (_ & _ & Hk & _).
  change (PTSRA.rng (Simulator.ptsraMem (Simulator.initialRun negativePowerConfig)))
    with (SeededRandom.make 43) in Eo.
  destruct (optimize_no_generation
              (PTSRA.optimizer (Simulator.ptsra negativePowerConfig))
              _ _ _ _ _ _ _ eq_refl Eo)
    as (fresh & Ei & Hin2).
  pose proof (negative_power_population fresh st1 Ei) as Hpop.
  rewrite Forall_forall in Hpop. specialize (Hpop _ Hin2).
  set (g2 := nth 2 (genes (best result)) 0) in *.
  unfold PTSRA.commit, TSRA.updateState in Hk. cbn [snd fst H_k] in Hk.
  assert (Hxi : 0 <= TSRA.allocationFor allocs (id negativePowerSensor)).
  { unfold TSRA.edgeServerAllocation in Ea.
    cbn [TSRA.weightedBacklogs] in Ea.
    assert (Hal : allocs
                  = JsMap.set JsMap.empty (id negativePowerSensor)
                      (TSRA.allocationOf
                         (TSRA.totalWeight
                            [(id negativePowerSensor,
                              H_k st0 * priority_weight negativePowerSensor)])
                         1 (H_k st0 * priority_weight negativePowerSensor)))
      by (injection Ea as <-; reflexivity).
    rewrite Hal. unfold TSRA.allocationFor.
    rewrite JsMapFacts.get_set_same. unfold TSRA.allocationOf.
    apply Rmin_glb; [lra|].
    destruct (Rgt_dec _ 0) as [Hgt|_].
    - exfalso. revert Hgt. unfold TSRA.totalWeight. cbn. lra.
    - cbn. lra. }
  set (xi := TSRA.allocationFor allocs (id negativePowerSensor)) in *.
  cbn in Hk.
  assert (Hlog : JsMath.log2 (1 + g2 * - (1 / 2) * 1 / 1) < 0).
  { unfold JsMath.log2.
    assert (Hln : ln (1 + g2 * - (1 / 2) * 1 / 1) < 0).
    { rewrite <- ln_1. apply ln_increasing; lra. }
    pose proof PolicyFacts.ln_2_pos as H2.
    apply Rmult_lt_reg_r with (ln 2); [exact H2|].
    unfold Rdiv. rewrite Rmult_assoc, Rinv_l by lra. lra. }
  rewrite Rmax_left in Hk by nra.
  lra.
Qed.

End InvariantLimits.
